(** * pushMScontacts: pushing Microsoft-synced IT Glue contacts into Autotask

    A shallow embedding of [pushMScontacts.py] and the properties of its
    request executor, pagination walkers, organization scanner, contact
    filter, field extractor and create-with-dedup pipeline.

    The Python program works on untyped JSON documents, raises exceptions
    on documents of the wrong shape, talks to two HTTP services and mutates
    shared [set] objects.  The embedding keeps all four: JSON values are an
    untyped tree, operations that Python can refuse return a [result],
    effectful code lives in a small monad over a [world] (request counter,
    event trace and a store of sets), and the remote services are an
    arbitrary function from the request counter and the request to what
    [requests.request] meets. *)

From Stdlib Require Import Ascii.
From stdpp Require Import gmap strings list fin_maps.

Open Scope string_scope.
Open Scope Z_scope.
Open Scope list_scope.

#[local] Set Warnings "-register-all".

(** ** Python values as decoded by [resp.json()]

    Numbers are integers (the fields the program inspects are names, flags
    and identifiers; JSON fractions are left out).  A string is kept as the
    bytes of its UTF-8 encoding. *)

Inductive value :=
  | VNone
  | VBool (b : bool)
  | VInt (z : Z)
  | VStr (s : string)
  | VList (l : list value)
  | VDict (d : gmap string value).

(** The exceptions the program can meet.  All of them derive from Python's
    [Exception], so [except Exception] and a bare [except] catch each one;
    [SystemExit] (from [sys.exit]) does not. *)

Inductive exn :=
  | AttributeError
  | TypeError
  | KeyError
  | JSONDecodeError
  | RequestException
  | SystemExit.

Inductive result (A : Type) :=
  | Ok (a : A)
  | Raise (e : exn).
Arguments Ok {A} a.
Arguments Raise {A} e.

#[global] Instance result_ret : MRet result := λ A a, Ok a.
#[global] Instance result_bind : MBind result := λ A B f m,
  match m with
  | Ok a => f a
  | Raise e => Raise e
  end.

(** *** Strings: [str.strip], [str.lower], [in]

    Equality, emptiness, [in] with an ASCII needle and [split(",")] are on
    the bytes of the encoding what they are on the characters.  Trimming,
    lower-casing and the iteration over the characters follow the Unicode
    tables of the interpreter: they are the operations of a class, and
    nothing is assumed of them, so that what is proved of the program holds
    for [str.strip] and [str.lower] as they are. *)

Class Text := {
  strip : string → string;              (* s.strip() *)
  lower : string → string;              (* s.lower() *)
  characters : string → list string;    (* list(s) *)
}.

(** The operations on ASCII text, on which the sample documents are run:
    [str.isspace] on the ASCII range is TAB, LF, VT, FF, CR, the four
    separators 0x1c-0x1f and the blank; the capitals are A-Z. *)
Definition py_isspace (c : ascii) : bool :=
  let n := nat_of_ascii c in
  ((9 <=? n)%nat && (n <=? 13)%nat) || ((28 <=? n)%nat && (n <=? 32)%nat).

Fixpoint ascii_lstrip (s : string) : string :=
  match s with
  | EmptyString => EmptyString
  | String c s' => if py_isspace c then ascii_lstrip s' else s
  end.

Fixpoint ascii_rstrip (s : string) : string :=
  match s with
  | EmptyString => EmptyString
  | String c s' =>
      match ascii_rstrip s' with
      | EmptyString => if py_isspace c then EmptyString else String c EmptyString
      | r => String c r
      end
  end.

Definition ascii_strip (s : string) : string := ascii_rstrip (ascii_lstrip s).

Definition lower_ascii (c : ascii) : ascii :=
  let n := nat_of_ascii c in
  if ((65 <=? n)%nat && (n <=? 90)%nat) then ascii_of_nat (n + 32) else c.

Fixpoint ascii_lower (s : string) : string :=
  match s with
  | EmptyString => EmptyString
  | String c s' => String (lower_ascii c) (ascii_lower s')
  end.

Fixpoint ascii_characters (s : string) : list string :=
  match s with
  | EmptyString => []
  | String c s' => String c EmptyString :: ascii_characters s'
  end.

Definition ascii_text : Text :=
  {| strip := ascii_strip; lower := ascii_lower;
     characters := ascii_characters |}.

(** From here on [strip], [lower] and [characters] are those of any
    [Text]: nothing is assumed of them. *)
Section Texts.
Context {text_ops : Text}.

(** [needle in hay] on strings. *)
Fixpoint contains (needle hay : string) : bool :=
  String.prefix needle hay ||
  match hay with
  | EmptyString => false
  | String _ hay' => contains needle hay'
  end.

(** *** Truth value, [==] against a string, [or] *)

Definition truthy (v : value) : bool :=
  match v with
  | VNone => false
  | VBool b => b
  | VInt z => negb (z =? 0)
  | VStr s => negb (String.eqb s "")
  | VList l => negb (bool_decide (length l = 0%nat))
  | VDict d => negb (bool_decide (size d = 0%nat))
  end.

(** [v == s] for a string [s]: only an equal string is equal to it. *)
Definition py_eq_str (v : value) (s : string) : bool :=
  match v with
  | VStr s' => String.eqb s' s
  | _ => false
  end.

(** [a or b] *)
Definition py_or (a b : value) : value := if truthy a then a else b.

(** *** Attribute and item access *)

(** [v.get(k, dflt)]: only a dict has [get]. *)
Definition py_get (v : value) (k : string) (dflt : value) : result value :=
  match v with
  | VDict d => Ok (default dflt (d !! k))
  | _ => Raise AttributeError
  end.

(** [v[k]] for a string key [k]: a missing key of a dict is a [KeyError];
    a list or a string refuses a string index, the other values are not
    subscriptable. *)
Definition py_getitem (v : value) (k : string) : result value :=
  match v with
  | VDict d => match d !! k with Some x => Ok x | None => Raise KeyError end
  | _ => Raise TypeError
  end.

(** [for x in v]: a list yields its elements, a dict its keys, a string its
    characters; nothing else is iterable.  (The keys come in the map's
    order; every loop of the program fails on the first key it is given.) *)
Definition py_iter (v : value) : result (list value) :=
  match v with
  | VList l => Ok l
  | VDict d => Ok (VStr <$> (map_to_list d).*1)
  | VStr s => Ok (VStr <$> characters s)
  | _ => Raise TypeError
  end.

(** [v.strip()] and [v.lower()]: methods of [str] only. *)
Definition py_strip (v : value) : result string :=
  match v with
  | VStr s => Ok (strip s)
  | _ => Raise AttributeError
  end.

Definition py_lower (v : value) : result string :=
  match v with
  | VStr s => Ok (lower s)
  | _ => Raise AttributeError
  end.

(** A [for] loop with an accumulator whose body may raise. *)
Fixpoint for_each {A B : Type} (body : B → A → result B) (l : list A) (acc : B)
    : result B :=
  match l with
  | [] => Ok acc
  | x :: l' => acc' ← body acc x; for_each body l' acc'
  end.

(** ** Pure functions of the program *)

(** [contact_syncs_with], lines 49-54. *)
Fixpoint contact_syncs_with_items (items : list value) (target_adapter : string)
    : result bool :=
  match items with
  | [] => Ok false
  | item :: rest =>
      attributes ← py_get item "attributes" (VDict ∅);
      name ← py_get attributes "adapter-type-name" VNone;
      if py_eq_str name target_adapter then
        sync ← py_get attributes "sync" VNone;
        if truthy sync then Ok true
        else contact_syncs_with_items rest target_adapter
      else contact_syncs_with_items rest target_adapter
  end.

Definition contact_syncs_with (contact_data : value) (target_adapter : string)
    : result bool :=
  included ← py_get contact_data "included" (VList []);
  items ← py_iter included;
  contact_syncs_with_items items target_adapter.

(** [contact_has_ms_license], lines 81-87. *)
Fixpoint contact_has_ms_license_items (items : list value) : result bool :=
  match items with
  | [] => Ok false
  | item :: rest =>
      ty ← py_get item "type" VNone;
      if py_eq_str ty "tags" then
        attrs ← py_get item "attributes" (VDict ∅);
        name ← py_get attrs "resource-type-name" VNone;
        if py_eq_str name "Microsoft Licenses" then Ok true
        else contact_has_ms_license_items rest
      else contact_has_ms_license_items rest
  end.

Definition contact_has_ms_license (contact_data : value) : result bool :=
  included ← py_get contact_data "included" (VList []);
  items ← py_iter included;
  contact_has_ms_license_items items.

(** [get_autotask_remote_id_from_included], lines 154-159.  Python's [None]
    is [VNone], both when no item is an Autotask one and when the first
    such item has no remote-id. *)
Fixpoint get_autotask_remote_id_from_items (items : list value) : result value :=
  match items with
  | [] => Ok VNone
  | item :: rest =>
      attrs ← py_get item "attributes" (VDict ∅);
      name ← py_get attrs "adapter-type-name" VNone;
      if py_eq_str name "Autotask" then py_get attrs "remote-id" VNone
      else get_autotask_remote_id_from_items rest
  end.

Definition get_autotask_remote_id_from_included (included : value) : result value :=
  items ← py_iter included;
  get_autotask_remote_id_from_items items.

(** ** The world: HTTP requests, the log, and the store of sets *)

(** The program builds its URLs with f-strings and follows links taken from
    responses.  A URL is kept as the template that built it and the values
    put in it; [Href] is an object taken from a response envelope. *)
Inductive url :=
  | OrgContactsUrl (org_id : value)
      (* .../organizations/{org_id}/relationships/contacts?page[size]=100 *)
  | ContactDetailUrl (org_id contact_id : value)
      (* .../organizations/{org_id}/relationships/contacts/{contact_id}?include=... *)
  | OrgListUrl (page : Z)
      (* .../organizations?page[number]={page} *)
  | OrgDetailUrl (org_id : value)
      (* .../organizations/{org_id}/?include=adapters_resources *)
  | CompanyContactsUrl (base_url : string) (company_id : value)
      (* {base_url}/Companies/{company_id}/Contacts *)
  | Href (v : value).

(** [while url:] - an f-string with literal text is never empty. *)
Definition url_truthy (u : url) : bool :=
  match u with
  | Href v => truthy v
  | _ => true
  end.

Record request := {
  req_method : string;
  req_url : url;
  req_headers : list (string * string);
  req_json : option value;
}.

(** A [requests.Response]: [json_body] is [None] when the body is not JSON
    and [resp.json()] raises. *)
Record response := {
  status_code : Z;
  json_body : option value;
  text : string;
}.

(** What a call of [requests.request] meets: a response, or an exception of
    the transport (time-out, connection error, malformed URL). *)
Inductive outcome :=
  | Responds (r : response)
  | Fails.

(** The rate limit of IT Glue, lines 8-10.  [DELAY] is the float
    [1.0 / MAX_REQUESTS_PER_SEC]; sleeping for it is the event
    [EvThrottle]. *)
Definition MAX_REQUESTS_PER_SEC : Z := 9.
Definition MAX_RETRIES : nat := 5.

(** What the program does to the outside: a request, a sleep, a line of
    log (its fixed text and the values put in it). *)
Inductive event :=
  | EvRequest (req : request)
  | EvSleep (secs : Z)          (* time.sleep of a whole number of seconds *)
  | EvThrottle                  (* time.sleep(DELAY) *)
  | EvPrint (tag : string) (args : list value).

(** [clock] counts the calls of [requests.request] made so far; [sets] is
    the store of the [set] objects the program allocates, each under its
    address. *)
Record world := {
  clock : nat;
  trace : list event;
  sets : gmap nat (gset string);
}.

Inductive run (A : Type) :=
  | Returns (a : A) (w : world)
  | Raises (e : exn) (w : world)
  | OutOfFuel.
#[global] Arguments Returns {A} a w.
#[global] Arguments Raises {A} e w.
#[global] Arguments OutOfFuel {A}.

Definition IO (A : Type) : Type := world → run A.

#[global] Instance io_ret : MRet IO := λ A a w, Returns a w.
#[global] Instance io_bind : MBind IO := λ A B f m w,
  match m w with
  | Returns a w' => f a w'
  | Raises e w' => Raises e w'
  | OutOfFuel => OutOfFuel
  end.

Definition lift {A} (r : result A) : IO A := λ w,
  match r with
  | Ok a => Returns a w
  | Raise e => Raises e w
  end.

Definition raise {A} (e : exn) : IO A := λ w, Raises e w.

Definition out_of_fuel {A} : IO A := λ _, OutOfFuel.

(** [try: body / except: handler] (a bare [except] catches everything). *)
Definition try_except {A} (body : IO A) (handler : exn → IO A) : IO A := λ w,
  match body w with
  | Raises e w' => handler e w'
  | r => r
  end.

(** [try: body / except Exception as e: handler e] *)
Definition try_except_Exception {A} (body : IO A) (handler : exn → IO A) : IO A :=
  try_except body (λ e, match e with SystemExit => raise e | _ => handler e end).

Definition emit (e : event) : IO unit := λ w,
  Returns () {| clock := clock w; trace := trace w ++ [e]; sets := sets w |}.

Definition print (tag : string) (args : list value) : IO unit :=
  emit (EvPrint tag args).

Definition time_sleep (secs : Z) : IO unit := emit (EvSleep secs).

(** [set()], [s.add(x)], [x in s] on the store. *)
Definition set_at (w : world) (s : nat) : gset string :=
  default ∅ (sets w !! s).

Definition set_new : IO nat := λ w,
  let s := fresh (dom (sets w)) in
  Returns s
    {| clock := clock w; trace := trace w; sets := <[s := ∅]> (sets w) |}.

Definition set_add (s : nat) (x : string) : IO unit := λ w,
  Returns ()
    {| clock := clock w; trace := trace w;
       sets := <[s := set_at w s ∪ {[x]}]> (sets w) |}.

Definition set_contains (s : nat) (x : string) : IO bool := λ w,
  Returns (bool_decide (x ∈ set_at w s)) w.

(** [range(n)] *)
Definition range (n : nat) : list Z := Z.of_nat <$> seq 0 n.

(** [resp.json()], [resp.status_code] and the truth value of [resp], where
    [resp] is the result of [safe_request]: a response or [None].  A
    [requests.Response] is true when its status is not a 4xx or 5xx one. *)
Definition response_bool (r : response) : bool :=
  negb ((400 <=? status_code r) && (status_code r <? 600)).

Definition resp_truthy (resp : option response) : bool :=
  match resp with
  | Some r => response_bool r
  | None => false
  end.

Definition resp_json (resp : option response) : result value :=
  match resp with
  | Some r =>
      match json_body r with
      | Some v => Ok v
      | None => Raise JSONDecodeError
      end
  | None => Raise AttributeError
  end.

Definition resp_status (resp : option response) : result Z :=
  match resp with
  | Some r => Ok (status_code r)
  | None => Raise AttributeError
  end.

(** [not resp or resp.status_code != 200] *)
Definition not_resp_or_not_200 (resp : option response) : bool :=
  match resp with
  | Some r => negb (response_bool r) || negb (status_code r =? 200)
  | None => true
  end.

(** [resp.status_code if resp else 'N/A'] and the like, for the log. *)
Definition status_or (resp : option response) (dflt : string) : value :=
  match resp with
  | Some r => if response_bool r then VInt (status_code r) else VStr dflt
  | None => VStr dflt
  end.

(** Keys of the dict [existing_contacts_cache].  Python hashes [True] and
    [1] (and [False] and [0]) to the same key; lists and dicts are not
    hashable. *)
Inductive key :=
  | KNone
  | KNum (z : Z)
  | KStr (s : string).

#[global] Instance key_eq_dec : EqDecision key.
Proof. solve_decision. Defined.

#[global] Instance key_countable : Countable key.
Proof.
  refine (inj_countable'
    (λ k, match k with
          | KNone => inl ()
          | KNum z => inr (inl z)
          | KStr s => inr (inr s)
          end)
    (λ x, match x with
          | inl () => KNone
          | inr (inl z) => KNum z
          | inr (inr s) => KStr s
          end) _).
  by intros [].
Defined.

Definition py_hash (v : value) : result key :=
  match v with
  | VNone => Ok KNone
  | VBool b => Ok (KNum (if b then 1 else 0))
  | VInt z => Ok (KNum z)
  | VStr s => Ok (KStr s)
  | VList _ | VDict _ => Raise TypeError
  end.

Section Program.

(** The remote services: what the [n]-th call of [requests.request] of the
    run meets, given the request.  Nothing is assumed about it. *)
Variable network : nat → request → outcome.

(** The order in which the futures of the thread pool complete
    ([as_completed]), as a rearrangement of the submitted tasks. *)
Variable completion_order : list value → list value.

(** The iteration order of a [set] of strings ([list(s)]), given the
    elements in the order they were added. *)
Variable set_order : list string → list string.

Definition requests_request (req : request) : IO response := λ w,
  let w' := {| clock := S (clock w); trace := trace w ++ [EvRequest req];
               sets := sets w |} in
  match network (clock w) req with
  | Responds r => Returns r w'
  | Fails => Raises RequestException w'
  end.

Definition request_of (method : string) (u : url)
    (headers : list (string * string)) (json : option value) : request :=
  {| req_method := method; req_url := u; req_headers := headers;
     req_json := json |}.

(** [safe_request], lines 16-43.  [resp] is the function's local variable:
    it keeps the response of an earlier attempt when a later one raises,
    which only the [RETRY] log line can see.  The [params] argument is
    never passed and is left out; [max_retries] is a count. *)
Fixpoint safe_request_attempts (req : request) (attempts : list Z)
    (resp : option response) : IO (option response) :=
  match attempts with
  | [] =>
      print "[ERROR] Max retries reached" [];;
      mret None
  | attempt :: rest =>
      step ← try_except_Exception
        (r ← requests_request req;
         if status_code r <? 400 then mret (inl r)
         else
           (if status_code r =? 500 then
              try_except
                (body ← lift (resp_json (Some r));
                 print "[AT ERROR BODY]" [body])
                (λ _, print "[AT ERROR RAW]" [VStr (text r)])
            else mret ());;
           mret (inr (Some r)))
        (λ e, print "[EXCEPTION]" [];; mret (inr resp));
      match step with
      | inl r => mret (Some r)
      | inr resp' =>
          let wait := 2 ^ attempt in
          print "[RETRY]"
            [match resp' with
             | Some r => VInt (status_code r)
             | None => VStr "NO RESP"
             end; VInt wait];;
          time_sleep wait;;
          safe_request_attempts req rest resp'
      end
  end.

Definition safe_request (method : string) (u : url)
    (headers : list (string * string)) (json : option value)
    (max_retries : nat) : IO (option response) :=
  safe_request_attempts (request_of method u headers json)
    (range max_retries) None.

Definition itglue_headers (api_key : string) : list (string * string) :=
  [("x-api-key", api_key); ("Content-Type", "application/vnd.api+json")].

(** [get_all_contact_ids], lines 57-71.  [fuel] bounds the iterations of
    [while url:]. *)
Fixpoint get_all_contact_ids_loop (fuel : nat) (org_id : value)
    (headers : list (string * string)) (u : url) (contact_ids : list value)
    : IO (list value) :=
  match fuel with
  | O => out_of_fuel
  | S fuel' =>
      if url_truthy u then
        resp ← safe_request "GET" u headers None 5;
        if not_resp_or_not_200 resp then
          print "[WARNING] Failed to fetch contact IDs" [org_id; status_or resp "N/A"];;
          mret contact_ids
        else
          data ← lift (resp_json resp);
          ids ← lift (items ← py_get data "data" (VList []) ≫= py_iter;
                      mapM (λ item, py_getitem item "id") items);
          next ← lift (links ← py_get data "links" (VDict ∅);
                       py_get links "next" VNone);
          get_all_contact_ids_loop fuel' org_id headers (Href next)
            (contact_ids ++ ids)
      else mret contact_ids
  end.

Definition get_all_contact_ids (fuel : nat) (api_key : string) (org_id : value)
    : IO (list value) :=
  get_all_contact_ids_loop fuel org_id (itglue_headers api_key)
    (OrgContactsUrl org_id) [].

(** [fetch_contact_details], lines 74-78. *)
Definition fetch_contact_details (contact_id org_id : value)
    (headers : list (string * string)) : IO (value * option response) :=
  emit EvThrottle;;
  resp ← safe_request "GET" (ContactDetailUrl org_id contact_id) headers None 5;
  mret (contact_id, resp).

(** [get_microsoft_only_contacts], lines 90-112.  The loop over the
    completed futures: [completed] holds the results of
    [fetch_contact_details] in completion order. *)
Fixpoint filter_completed (completed : list (value * option response))
    (licensed : bool) (ms_only_contacts : list (value * value))
    : IO (list (value * value)) :=
  match completed with
  | [] => mret ms_only_contacts
  | (contact_id, contact_resp) :: rest =>
      if not_resp_or_not_200 contact_resp then
        print "[WARNING] Failed to fetch contact" [contact_id];;
        filter_completed rest licensed ms_only_contacts
      else
        contact_data ← lift (resp_json contact_resp);
        syncs_with_microsoft ← lift (contact_syncs_with contact_data "Microsoft");
        syncs_with_autotask ← lift (contact_syncs_with contact_data "Autotask");
        has_license ← lift (contact_has_ms_license contact_data);
        if syncs_with_microsoft && negb syncs_with_autotask &&
           ((licensed && has_license) || (negb licensed && negb has_license))
        then
          filter_completed rest licensed
            (ms_only_contacts ++ [(contact_id, contact_data)])
        else filter_completed rest licensed ms_only_contacts
  end.

(** The thread pool is modelled by its result: the tasks run to completion
    one after the other in completion order, and the filter loop then
    consumes the results.  The interleaving of the workers' requests is not
    modelled. *)
Definition get_microsoft_only_contacts (fuel : nat) (api_key : string)
    (org_id : value) (licensed : bool) : IO (list (value * value)) :=
  let headers := itglue_headers api_key in
  contact_ids ← get_all_contact_ids fuel api_key org_id;
  completed ← mapM (λ cid, fetch_contact_details cid org_id headers)
                   (completion_order contact_ids);
  filter_completed completed licensed [].

(** [extract_emails_and_phones], lines 115-151.  A [set] of strings is kept
    as the list of the strings added to it, in the order of the [add]
    calls; [list(s)] is [set_order] of that list. *)
Definition add_stripped (s : list string) (val : value) : result (list string) :=
  x ← py_strip val; Ok (s ++ [x]).

(** The body of the loop over the included items, lines 140-149, on the
    two sets. *)
Definition method_step (acc : list string * list string)
    : value → result (list string * list string) :=
  let '(emails, phones) := acc in λ item,
  ty ← py_get item "type" VNone;
  if py_eq_str ty "contact_methods" then
    attr ← py_get item "attributes" (VDict ∅);
    label ← py_get attr "label" (VStr "") ≫= py_lower;
    val ← py_get attr "value" (VStr "");
    if truthy val then
      if contains "email" label then
        emails' ← add_stripped emails val; Ok (emails', phones)
      else if contains "phone" label || contains "mobile" label
              || contains "fax" label then
        phones' ← add_stripped phones val; Ok (emails, phones')
      else Ok (emails, phones)
    else Ok (emails, phones)
  else Ok (emails, phones).

Definition extract_emails_and_phones (contact_data : value)
    : result (list string * list string) :=
  attrs ← py_get contact_data "data" (VDict ∅) ≫= λ data,
          py_get data "attributes" (VDict ∅);
  email_entries ← py_get attrs "contact-emails" (VList []) ≫= py_iter;
  emails ← for_each (λ emails email_entry,
      val ← py_get email_entry "value" VNone;
      if truthy val then add_stripped emails val else Ok emails)
    email_entries [];
  phone_entries ← py_get attrs "contact-phones" (VList []) ≫= py_iter;
  phones ← for_each (λ phones phone_entry,
      val ← py_get phone_entry "value" VNone;
      if truthy val then add_stripped phones val else Ok phones)
    phone_entries [];
  emails ← for_each (λ emails field,
      val ← py_get attrs field VNone;
      if truthy val then add_stripped emails val else Ok emails)
    ["emailAddress"; "emailAddress2"; "emailAddress3"] emails;
  phones ← for_each (λ phones field,
      val ← py_get attrs field VNone;
      if truthy val then
        s ← py_strip val;
        if negb (String.eqb (lower s) "n/a") then add_stripped phones val
        else Ok phones
      else Ok phones)
    ["phone"; "mobilePhone"; "alternatePhone"; "faxNumber"; "extension"] phones;
  included ← py_get contact_data "included" (VList []) ≫= py_iter;
  '(emails, phones) ← for_each method_step included (emails, phones);
  Ok (set_order emails, set_order phones).

(** A [for] loop whose body acts on the world. *)
Fixpoint io_for_each {A : Type} (body : A → IO unit) (l : list A) : IO unit :=
  match l with
  | [] => mret ()
  | x :: l' => body x;; io_for_each body l'
  end.

(** [(v or "").strip().lower()] *)
Definition normalized_email (v : value) : result string :=
  s ← py_strip (py_or v (VStr "")); Ok (lower s).

(** [get_existing_autotask_contacts], lines 163-182.  [existing_emails] is
    the address of the set in the store; [fuel] bounds [while url:]. *)
Fixpoint get_existing_autotask_contacts_loop (fuel : nat)
    (headers : list (string * string)) (company_id : value) (u : url)
    (existing_emails : nat) : IO unit :=
  match fuel with
  | O => out_of_fuel
  | S fuel' =>
      if url_truthy u then
        resp ← safe_request "GET" u headers None 5;
        if not_resp_or_not_200 resp then
          print "[WARNING] Failed to fetch existing contacts" [company_id]
        else
          data ← lift (resp_json resp);
          items ← lift (py_get data "items" (VList []) ≫= py_iter);
          io_for_each (λ item,
              email ← lift (py_get item "emailAddress" VNone ≫= normalized_email);
              if negb (String.eqb email "") then set_add existing_emails email
              else mret ())
            items;;
          next_link ← lift (page_details ← py_get data "pageDetails" (VDict ∅);
                            py_get page_details "nextPageUrl" VNone);
          get_existing_autotask_contacts_loop fuel' headers company_id
            (Href (if truthy next_link then next_link else VNone))
            existing_emails
      else mret ()
  end.

Definition get_existing_autotask_contacts (fuel : nat) (base_url : string)
    (headers : list (string * string)) (company_id : value) : IO nat :=
  existing_emails ← set_new;
  get_existing_autotask_contacts_loop fuel headers company_id
    (CompanyContactsUrl base_url company_id) existing_emails;;
  mret existing_emails.

(** The contact record posted to Autotask, lines 208-214. *)
Definition autotask_contact (first last : value) (email : string)
    (phone : value) : value :=
  VDict (<["IsActive" := VInt 1]> (<["FirstName" := first]>
        (<["LastName" := last]> (<["EmailAddress" := VStr email]>
        (<["Phone" := phone]> ∅))))).

(** [create_contact_in_autotask], lines 185-233.  [existing_emails_cache]
    is the address of the company's set in the store: the [add] of line 232
    is seen by whoever holds the same set. *)
Definition create_contact_in_autotask (base_url : string)
    (auth_headers : list (string * string)) (company_id contact_data : value)
    (existing_emails_cache : nat) : IO bool :=
  email ← lift (py_get contact_data "email" VNone ≫= normalized_email);
  exists_already ←
    (if negb (String.eqb email "")
     then set_contains existing_emails_cache email
     else mret false);
  if exists_already : bool then
    print "[SKIP] Contact already exists in Autotask" [VStr email];;
    mret false
  else
    first ← lift (v ← py_get contact_data "firstName" VNone; Ok (py_or v (VStr "")));
    last ← lift (v ← py_get contact_data "lastName" VNone; Ok (py_or v (VStr "")));
    phone ← lift (v ← py_get contact_data "phone" VNone; Ok (py_or v (VStr "")));
    if negb (truthy last) then
      print "[SKIP] Missing last name" [first; last; VStr email];;
      mret false
    else if String.eqb email "" then
      print "[SKIP] Missing email" [first; last];;
      mret false
    else
      let payload := autotask_contact first last email phone in
      let u := CompanyContactsUrl base_url company_id in
      resp ← safe_request "POST" u auth_headers (Some payload) 5;
      if negb (resp_truthy resp) then
        print "[ERROR] Failed to create contact: No response" [first; last];;
        mret false
      else
        status ← lift (resp_status resp);
        if negb (status =? 200) then
          err ← try_except (lift (resp_json resp))
                  (λ _, mret (VStr (from_option text "" resp)));
          print "[ERROR] Failed to create contact" [first; last; VInt status; err];;
          mret false
        else
          set_add existing_emails_cache email;;
          mret true.

(** [get_autotask_syncing_orgs], lines 236-280: the [while True] loop over
    the numbered pages, then the loop over the organizations. *)
Fixpoint fetch_all_orgs (fuel : nat) (headers : list (string * string))
    (page : Z) (all_orgs : list value) : IO (list value) :=
  match fuel with
  | O => out_of_fuel
  | S fuel' =>
      resp ← safe_request "GET" (OrgListUrl page) headers None 5;
      if not_resp_or_not_200 resp then
        print "[ERROR] Failed to fetch orgs" [VInt page];;
        mret all_orgs
      else
        orgs ← lift (resp_json resp ≫= λ data, py_get data "data" (VList []));
        if negb (truthy orgs) then mret all_orgs
        else
          more ← lift (py_iter orgs);
          fetch_all_orgs fuel' headers (page + 1) (all_orgs ++ more)
  end.

(** The inner [for item in included] of lines 270-278: whether it reaches
    the [append] (and [break]). *)
Fixpoint has_active_autotask (items : list value) : result bool :=
  match items with
  | [] => Ok false
  | item :: rest =>
      attributes ← py_get item "attributes" (VDict ∅);
      name ← py_get attributes "adapter-type-name" VNone;
      sync ← py_get attributes "sync" VNone;
      orphaned ← py_get attributes "orphaned" VNone;
      if py_eq_str name "Autotask" && truthy sync && negb (truthy orphaned)
      then Ok true
      else has_active_autotask rest
  end.

Fixpoint check_orgs (all_orgs : list value) (headers : list (string * string))
    (autotask_orgs : list (value * value * value))
    : IO (list (value * value * value)) :=
  match all_orgs with
  | [] => mret autotask_orgs
  | org :: rest =>
      org_id ← lift (py_getitem org "id");
      org_name ← lift (py_getitem org "attributes" ≫= λ a, py_getitem a "name");
      detail_resp ← safe_request "GET" (OrgDetailUrl org_id) headers None 5;
      if not_resp_or_not_200 detail_resp then
        print "[WARN] Failed to check org" [org_name];;
        check_orgs rest headers autotask_orgs
      else
        included ← lift (resp_json detail_resp ≫= λ d,
                         py_get d "included" (VList []));
        active ← lift (py_iter included ≫= has_active_autotask);
        check_orgs rest headers
          (if active : bool then autotask_orgs ++ [(org_id, org_name, included)]
           else autotask_orgs)
  end.

Definition get_autotask_syncing_orgs (fuel : nat) (api_key : string)
    : IO (list (value * value * value)) :=
  let headers := itglue_headers api_key in
  print "Fetching organizations..." [];;
  all_orgs ← fetch_all_orgs fuel headers 1 [];
  print "Checking for Autotask sync status..." [];;
  check_orgs all_orgs headers [].

(** [main], lines 311-338: the candidates of every organization that is
    neither excluded nor without an Autotask id. *)
Definition candidate (autotask_remote_id attrs : value) (email : string)
    (phones : list string) : result (value * value) :=
  first_name ← py_get attrs "first-name" (VStr "");
  last_name ← py_get attrs "last-name" (VStr "");
  Ok (autotask_remote_id,
      VDict (<["firstName" := first_name]> (<["lastName" := last_name]>
            (<["email" := VStr email]>
            (<["phone" := VStr (default "" (head phones))]> ∅))))).

Fixpoint collect_contacts (fuel : nat) (api_key : string) (licensed : bool)
    (exclude_ids : list string) (syncing_orgs : list (value * value * value))
    (contacts_to_create : list (value * value)) : IO (list (value * value)) :=
  match syncing_orgs with
  | [] => mret contacts_to_create
  | (org_id, name, included) :: rest =>
      if existsb (py_eq_str org_id) exclude_ids then
        print "[SKIP] Org is in exclude list" [name; org_id];;
        collect_contacts fuel api_key licensed exclude_ids rest contacts_to_create
      else
        autotask_remote_id ← lift (get_autotask_remote_id_from_included included);
        if negb (truthy autotask_remote_id) then
          print "[SKIP] Org - no Autotask ID found" [name; org_id];;
          collect_contacts fuel api_key licensed exclude_ids rest contacts_to_create
        else
          print "[INFO] Org" [name; org_id; autotask_remote_id];;
          ms_only_contacts ← get_microsoft_only_contacts fuel api_key org_id licensed;
          contacts_to_create' ← lift (for_each (λ acc '(_, contact_data),
              attrs ← py_get contact_data "data" (VDict ∅) ≫= λ data,
                      py_get data "attributes" (VDict ∅);
              '(emails, phones) ← extract_emails_and_phones contact_data;
              match emails with
              | [] => Ok acc
              | email :: _ =>
                  c ← candidate autotask_remote_id attrs email phones;
                  Ok (acc ++ [c])
              end)
            ms_only_contacts contacts_to_create);
          collect_contacts fuel api_key licensed exclude_ids rest contacts_to_create'
  end.

(** [main], lines 344-358: the creation loop.  [existing_contacts_cache]
    maps a company to the address of its set of known emails; the set is
    fetched on the first candidate of the company. *)
Fixpoint create_contacts (fuel : nat) (at_base_url : string)
    (at_headers : list (string * string))
    (contacts_to_create : list (value * value))
    (existing_contacts_cache : gmap key nat) (created_count : Z)
    (skipped : list (value * value))
    : IO (gmap key nat * Z * list (value * value)) :=
  match contacts_to_create with
  | [] => mret (existing_contacts_cache, created_count, skipped)
  | (company_id, contact_payload) :: rest =>
      k ← lift (py_hash company_id);
      '(cache, existing_emails) ←
        match existing_contacts_cache !! k with
        | Some s => mret (existing_contacts_cache, s)
        | None =>
            s ← get_existing_autotask_contacts fuel at_base_url at_headers company_id;
            mret (<[k := s]> existing_contacts_cache, s)
        end;
      success ← create_contact_in_autotask at_base_url at_headers company_id
                  contact_payload existing_emails;
      if success : bool then
        create_contacts fuel at_base_url at_headers rest cache
          (created_count + 1) skipped
      else
        names ← lift (f ← py_getitem contact_payload "firstName";
                      l ← py_getitem contact_payload "lastName";
                      Ok (f, l));
        create_contacts fuel at_base_url at_headers rest cache
          created_count (skipped ++ [names])
  end.

Definition at_base_url : string :=
  "https://webservices15.autotask.net/atservicesrest/v1.0".

(** [input(prompt)]: the prompt is written and the line typed is returned.
    The lines typed at the seven prompts of [main] are its [answers]. *)
Definition input (prompt typed : string) : IO string :=
  print prompt [];; mret typed.

Record answers := {
  typed_api_key : string;
  typed_user_name : string;
  typed_secret : string;
  typed_integration_code : string;
  typed_licensed : string;
  typed_exclude : string;
  typed_confirm : string;
}.

(** [s.split(",")]: the pieces between the commas, one more than there are
    commas. *)
Fixpoint split_commas (s : string) : list string :=
  match s with
  | EmptyString => [EmptyString]
  | String c s' =>
      if Ascii.eqb c "," then EmptyString :: split_commas s'
      else match split_commas s' with
           | piece :: pieces => String c piece :: pieces
           | [] => [String c EmptyString]
           end
  end.

(** Line 295: the identifiers to exclude, from the trimmed answer. *)
Definition exclude_ids_of (exclude_ids_input : string) : list string :=
  if negb (String.eqb exclude_ids_input "") then
    strip <$> List.filter (λ e, negb (String.eqb (strip e) ""))
                          (split_commas exclude_ids_input)
  else [].

(** Line 291: only the answer "licensed" selects the licensed contacts. *)
Definition licensed_of (licensed_input : string) : bool :=
  String.eqb licensed_input "licensed".

(** [main], lines 283-366.  The progress bars are left out. *)
Definition main (fuel : nat) (typed : answers) : IO unit :=
  api_key ← input "Enter your IT Glue API key: " (typed_api_key typed);
  let api_key := strip api_key in
  user_name ← input "Enter your AT username: " (typed_user_name typed);
  let user_name := strip user_name in
  secret ← input "Enter your AT secret: " (typed_secret typed);
  let secret := strip secret in
  integration_code ← input "Enter your AT APIIntegrationCode: "
                       (typed_integration_code typed);
  let integration_code := strip integration_code in
  licensed_input ← input
    "Do you want licensed or unlicensed Microsoft contacts? [licensed/unlicensed]: "
    (typed_licensed typed);
  let licensed := licensed_of (lower (strip licensed_input)) in
  exclude_ids_input ← input
    "Enter specific IT Glue org IDs to exclude (comma-separated, optional): "
    (typed_exclude typed);
  let exclude_ids := exclude_ids_of (strip exclude_ids_input) in
  let at_headers :=
    [("Content-Type", "application/json");
     ("ApiIntegrationCode", integration_code);
     ("UserName", user_name); ("Secret", secret)] in
  syncing_orgs ← get_autotask_syncing_orgs fuel api_key;
  print "[INFO] Active Autotask orgs" [VInt (Z.of_nat (length syncing_orgs))];;
  (if bool_decide (exclude_ids = []) then mret ()
   else print "[INFO] Excluding org(s)"
          (VInt (Z.of_nat (length exclude_ids)) :: (VStr <$> exclude_ids)));;
  contacts_to_create ← collect_contacts fuel api_key licensed exclude_ids
                         syncing_orgs [];
  print "[INFO] Total contacts to create (before duplicates filtered)"
    [VInt (Z.of_nat (length contacts_to_create))];;
  confirm ← input "Press Enter to proceed, or any other key to cancel: "
              (typed_confirm typed);
  if negb (String.eqb (strip confirm) "") then raise SystemExit
  else
    '(_, created_count, skipped) ←
      create_contacts fuel at_base_url at_headers contacts_to_create ∅ 0 [];
    print "[RESULT] Created contacts"
      [VInt created_count; VInt (Z.of_nat (length contacts_to_create))];;
    match skipped with
    | [] => print "[SKIPPED] 0 contacts failed." []
    | _ :: _ =>
        print "[SKIPPED] skipped or failed" [VInt (Z.of_nat (length skipped))];;
        io_for_each (λ '(f, l), print " - " [f; l]) skipped
    end.

End Program.

(** * Vocabulary of the properties *)

(** *** Resource objects of an [included] list

    An item of an [included] list is a JSON object whose ["attributes"]
    member, when present, is an object: on such items [item.get] and
    [attributes.get] never raise. *)
Definition is_resource_object (item : value) : bool :=
  match item with
  | VDict d =>
      match default (VDict ∅) (d !! "attributes") with
      | VDict _ => true
      | _ => false
      end
  | _ => false
  end.

Definition resource_objects (items : list value) : Prop :=
  Forall (λ item, is_resource_object item = true) items.

Definition member (item : value) (k : string) : value :=
  match item with
  | VDict d => default VNone (d !! k)
  | _ => VNone
  end.

(** [attr item k]: the attribute [k] of a resource object, [VNone] when it
    has none. *)
Definition attr (item : value) (k : string) : value :=
  member (match item with
          | VDict d => default (VDict ∅) (d !! "attributes")
          | _ => VNone
          end) k.

(** The relationship [item] is one of the adapter [name] and its sync flag
    holds (is true in Python's sense; for a JSON boolean: is [true]). *)
Definition relationship_syncs (name : string) (item : value) : Prop :=
  attr item "adapter-type-name" = VStr name ∧ truthy (attr item "sync") = true.

(** [item] is a tag of the resource type "Microsoft Licenses". *)
Definition license_tag (item : value) : Prop :=
  member item "type" = VStr "tags" ∧
  attr item "resource-type-name" = VStr "Microsoft Licenses".

(** An Autotask relationship that syncs and is not orphaned. *)
Definition active_autotask (item : value) : Prop :=
  relationship_syncs "Autotask" item ∧ truthy (attr item "orphaned") = false.

(** Two lists with the same entries: one is the other reordered, with
    entries repeated or repetitions dropped. *)
Definition same_entries (l l' : list value) : Prop := ∀ x, x ∈ l ↔ x ∈ l'.

(** The [included] list of a document, [[]] when it has none. *)
Definition included_items (data : value) (items : list value) : Prop :=
  py_get data "included" (VList []) = Ok (VList items).

(** [w] with one more log line. *)
Definition logged (w : world) (tag : string) (args : list value) : world :=
  {| clock := clock w; trace := trace w ++ [EvPrint tag args]; sets := sets w |}.

(** *** The classification as booleans, and what the loops keep *)

Definition syncs_withb (name : string) (item : value) : bool :=
  py_eq_str (attr item "adapter-type-name") name && truthy (attr item "sync").

Definition license_tagb (item : value) : bool :=
  py_eq_str (member item "type") "tags" &&
  py_eq_str (attr item "resource-type-name") "Microsoft Licenses".

Definition keepsb (licensed : bool) (items : list value) : bool :=
  existsb (syncs_withb "Microsoft") items &&
  negb (existsb (syncs_withb "Autotask") items) &&
  ((licensed && existsb license_tagb items) ||
   (negb licensed && negb (existsb license_tagb items))).

(** What the filter loop keeps of one completed fetch, if anything. *)
Definition kept_of (licensed : bool) (c : value * option response)
    : option (value * value) :=
  if not_resp_or_not_200 c.2 then None
  else match resp_json c.2 with
       | Ok data =>
           match py_get data "included" (VList []) with
           | Ok (VList items) =>
               if keepsb licensed items then Some (c.1, data) else None
           | _ => None
           end
       | Raise _ => None
       end.

(** A completed fetch that the filter inspects carries a document whose
    [included] list is made of resource objects. *)
Definition contact_document_fetched (c : value * option response) : Prop :=
  not_resp_or_not_200 c.2 = false →
  ∃ data items, resp_json c.2 = Ok data ∧ included_items data items ∧
                resource_objects items.

(** *** Attempts and traces *)

(** An attempt fails when the transport raises or the status is 400 or
    more. *)
Definition attempt_fails (o : outcome) : Prop :=
  match o with
  | Fails => True
  | Responds r => 400 ≤ status_code r
  end.

Definition is_print (e : event) : bool :=
  match e with
  | EvPrint _ _ => true
  | _ => false
  end.

(** The events of a trace that are not log lines. *)
Definition without_prints (t : list event) : list event :=
  List.filter (λ e, negb (is_print e)) t.

Definition sleeps (t : list event) : list Z :=
  omap (λ e, match e with EvSleep secs => Some secs | _ => None end) t.

(** [w'] is [w] after [n] more requests and the events [evs]; the store of
    sets is the same. *)
Definition advanced (w : world) (n : nat) (evs : list event) (w' : world) : Prop :=
  clock w' = (clock w + n)%nat ∧ trace w' = trace w ++ evs ∧ sets w' = sets w.

(** *** Pages and organizations *)

(** [doc] is a page envelope whose items carry the identifiers [ids], in
    response order, and whose next link is [next] ([VNone] when it has
    none). *)
Definition page_envelope (doc : value) (ids : list value) (next : value) : Prop :=
  ∃ d items links,
    doc = VDict d ∧
    default (VList []) (d !! "data") = VList items ∧
    Forall2 (λ item id, py_getitem item "id" = Ok id) items ids ∧
    default (VDict ∅) (d !! "links") = VDict links ∧
    default VNone (links !! "next") = next.

Definition active_autotaskb (item : value) : bool :=
  py_eq_str (attr item "adapter-type-name") "Autotask" &&
  truthy (attr item "sync") && negb (truthy (attr item "orphaned")).

(** The identifier and the name of an entry of the organization list. *)
Definition org_id_of (org : value) : value := member org "id".
Definition org_name_of (org : value) : value :=
  member (member org "attributes") "name".

(** An entry of the organization list has an ["id"] and an ["attributes"]
    object with a ["name"]. *)
Definition org_entry (org : value) : Prop :=
  py_getitem org "id" = Ok (org_id_of org) ∧
  (py_getitem org "attributes" ≫= λ a, py_getitem a "name") = Ok (org_name_of org).

(** A response that the program reads ([not resp or resp.status_code !=
    200] is false) carries a document whose [included] list is made of
    resource objects. *)
Definition document_with_resources (resp : option response) : Prop :=
  not_resp_or_not_200 resp = false →
  ∃ doc items, resp_json resp = Ok doc ∧ included_items doc items ∧
               resource_objects items.

(** The triple the scanner keeps for [org] when its detail fetch gave
    [resp], if any. *)
Definition syncing_triple (org : value) (resp : option response)
    : option (value * value * value) :=
  if not_resp_or_not_200 resp then None
  else match resp_json resp with
       | Ok doc =>
           match py_get doc "included" (VList []) with
           | Ok (VList items) =>
               if existsb active_autotaskb items
               then Some (org_id_of org, org_name_of org, VList items)
               else None
           | _ => None
           end
       | Raise _ => None
       end.

Section Services.

(** The remote services, as in the program. *)
Variable network : nat → request → outcome.

(** What [safe_request] returns from a world of clock [n], and the clock it
    leaves: the first of the next [attempts] outcomes that is a response of
    status below 400. *)
Fixpoint first_success (req : request) (n attempts : nat)
    : option response * nat :=
  match attempts with
  | O => (None, n)
  | S k =>
      match network n req with
      | Responds r =>
          if status_code r <? 400 then (Some r, S n)
          else first_success req (S n) k
      | Fails => first_success req (S n) k
      end
  end.

Variable headers : list (string * string).

(** [pages_served n u pages n' u']: from clock [n], fetching [u] and then
    following the next links yields, page after page, 200 responses whose
    envelopes carry the identifier lists [pages]; the last of them leaves
    the clock at [n'] and the next link [u']. *)
Inductive pages_served : nat → url → list (list value) → nat → url → Prop :=
  | served_none n u : pages_served n u [] n u
  | served_page n u r n1 doc ids next pages n' u' :
      url_truthy u = true →
      first_success (request_of "GET" u headers None) n 5 = (Some r, n1) →
      status_code r = 200 →
      json_body r = Some doc →
      page_envelope doc ids next →
      pages_served n1 (Href next) pages n' u' →
      pages_served n u (ids :: pages) n' u'.

(** How a walk over served pages ends: the last next link is absent
    (falsy), or the fetch of the next page fails - [safe_request] gives
    [None], or a response that is not a 200 one.  [walk_end n' u' n'']
    gives the clock [n''] the ending leaves. *)
Inductive walk_end (n' : nat) (u' : url) : nat → Prop :=
  | walk_complete : url_truthy u' = false → walk_end n' u' n'
  | walk_truncated resp n'' :
      url_truthy u' = true →
      first_success (request_of "GET" u' headers None) n' 5 = (resp, n'') →
      not_resp_or_not_200 resp = true →
      walk_end n' u' n''.

(** The results of the detail fetches of the organizations [orgs], made one
    after the other from clock [n]. *)
Fixpoint detail_fetches (orgs : list value) (n : nat) : list (option response) :=
  match orgs with
  | [] => []
  | org :: rest =>
      let f := first_success
                 (request_of "GET" (OrgDetailUrl (org_id_of org)) headers None)
                 n 5 in
      f.1 :: detail_fetches rest f.2
  end.

(** The results of [fetch_contact_details] for the contacts [contact_ids]
    of the organization [org_id], fetched one after the other from clock
    [n]: each contact with what [safe_request] returns for its detail. *)
Fixpoint contact_fetches (org_id : value) (contact_ids : list value) (n : nat)
    : list (value * option response) :=
  match contact_ids with
  | [] => []
  | contact_id :: rest =>
      let f := first_success
                 (request_of "GET" (ContactDetailUrl org_id contact_id) headers None)
                 n 5 in
      (contact_id, f.1) :: contact_fetches org_id rest f.2
  end.

End Services.

(** *** Candidates *)

(** The email of a candidate as [create_contact_in_autotask] reads it,
    trimmed and lower-cased. *)
Definition candidate_email (contact_data : value) : result string :=
  py_get contact_data "email" VNone ≫= normalized_email.

(** The POST request of a candidate. *)
Definition create_request (base_url : string)
    (auth_headers : list (string * string)) (company_id contact_data : value)
    (email : string) : request :=
  request_of "POST" (CompanyContactsUrl base_url company_id) auth_headers
    (Some (autotask_contact
             (py_or (member contact_data "firstName") (VStr ""))
             (py_or (member contact_data "lastName") (VStr ""))
             email
             (py_or (member contact_data "phone") (VStr "")))).

(** *** Extracted emails *)

(** [v.get(k, dflt)] where it does not raise. *)
Definition get_or (v : value) (k : string) (dflt : value) : value :=
  match v with
  | VDict d => default dflt (d !! k)
  | _ => dflt
  end.

(** What a truthy string contributes to a set: itself, trimmed. *)
Definition stripped (v : value) : option string :=
  match v with
  | VStr s => if truthy v then Some (strip s) else None
  | _ => None
  end.

(** The elements a [for] loop takes from [v]. *)
Definition iterated (v : value) : list value :=
  match py_iter v with
  | Ok l => l
  | Raise _ => []
  end.

(** The email of a [contact_methods] item whose label, lower-cased,
    mentions "email". *)
Definition email_of_method (item : value) : option string :=
  let attr := get_or item "attributes" (VDict ∅) in
  match get_or attr "label" (VStr "") with
  | VStr label =>
      if py_eq_str (get_or item "type" VNone) "contact_methods"
         && contains "email" (lower label)
      then stripped (get_or attr "value" (VStr ""))
      else None
  | _ => None
  end.

(** The emails of a contact document, trimmed, in the order the extractor
    meets them: the structured entries, the three flat fields, the
    contact methods. *)
Definition trimmed_emails (contact_data : value) : list string :=
  let attrs := get_or (get_or contact_data "data" (VDict ∅)) "attributes" (VDict ∅) in
  omap (λ entry, stripped (get_or entry "value" VNone))
       (iterated (get_or attrs "contact-emails" (VList []))) ++
  omap (λ field, stripped (get_or attrs field VNone))
       ["emailAddress"; "emailAddress2"; "emailAddress3"] ++
  omap email_of_method (iterated (get_or contact_data "included" (VList []))).

(** [list(s)] lists every element of the set once. *)
Definition lists_each_once (set_order : list string → list string) : Prop :=
  ∀ added, NoDup (set_order added) ∧ ∀ x, x ∈ set_order added ↔ x ∈ added.


(** *** Runs of the creation loop *)


(** [w'] comes after [w]: its trace continues the trace of [w] and its
    sets have grown. *)
Definition extends (w w' : world) : Prop :=
  (∃ evs, trace w' = trace w ++ evs) ∧ ∀ s, set_at w s ⊆ set_at w' s.

(** The payload has the two names the summary of [main] reads. *)
Definition has_names (c : value * value) : Prop :=
  ∃ f l, py_getitem c.2 "firstName" = Ok f ∧ py_getitem c.2 "lastName" = Ok l.


(** *** What a run leaves behind *)

(** The requests of a trace, in order. *)
Definition requests_of (t : list event) : list request :=
  omap (λ e, match e with EvRequest req => Some req | _ => None end) t.

(** The world in which a run ends, by a return or by an exception. *)
Definition final {A : Type} (r : run A) : option world :=
  match r with
  | Returns _ w | Raises _ w => Some w
  | OutOfFuel => None
  end.

(** [m] keeps [R]: however a run of [m] ends, [R] relates the world it
    started in to the world it ends in. *)
Definition keeps {A : Type} (R : relation world) (m : IO A) : Prop :=
  ∀ w w', final (m w) = Some w' → R w w'.

(** [w'] continues [w] by events whose requests all satisfy [P]. *)
Definition requests_since (P : request → Prop) (w w' : world) : Prop :=
  ∃ evs, trace w' = trace w ++ evs ∧ Forall P (requests_of evs).

Definition same_sets (w w' : world) : Prop := sets w' = sets w.

(** No request was made between [w] and [w']. *)
Definition same_clock (w w' : world) : Prop := clock w' = clock w.

(** A request to IT Glue as the program makes them: a GET with the API key
    and no body. *)
Definition itglue_request (api_key : string) (req : request) : Prop :=
  req_method req = "GET" ∧ req_headers req = itglue_headers api_key ∧
  req_json req = None.

(** A request to Autotask as the program makes them: a GET without body,
    or the POST, to the contacts of a company, of a contact record with a
    last name and an email that is a string trimmed and lower-cased, and
    not empty. *)
Definition autotask_request (base_url : string)
    (auth_headers : list (string * string)) (req : request) : Prop :=
  req_headers req = auth_headers ∧
  ((req_method req = "GET" ∧ req_json req = None) ∨
   (req_method req = "POST" ∧
    ∃ company_id first last email phone,
      req_url req = CompanyContactsUrl base_url company_id ∧
      req_json req = Some (autotask_contact first last email phone) ∧
      truthy last = true ∧ email ≠ "" ∧
      ∃ raw, email = lower (strip raw))).

(** [P] allows the requests the program makes for the company
    [company_id]: the GET of its contacts, and the POST to its contacts of
    a contact record with a last name and a non-empty email, trimmed and
    lower-cased. *)
Definition allows_company (P : request → Prop) (base_url : string)
    (auth_headers : list (string * string)) (company_id : value) : Prop :=
  P (request_of "GET" (CompanyContactsUrl base_url company_id) auth_headers None) ∧
  ∀ (first last : value) (email : string) (phone : value),
    truthy last = true → email ≠ "" → (∃ raw, email = lower (strip raw)) →
    P (request_of "POST" (CompanyContactsUrl base_url company_id) auth_headers
         (Some (autotask_contact first last email phone))).



(** The headers [main] sends to Autotask, from the answers typed. *)
Definition autotask_headers (typed : answers) : list (string * string) :=
  [("Content-Type", "application/json");
   ("ApiIntegrationCode", strip (typed_integration_code typed));
   ("UserName", strip (typed_user_name typed));
   ("Secret", strip (typed_secret typed))].

(** *** Extracted phones *)

(** The phone of one of the flat phone fields: a value that, trimmed and
    lower-cased, is the placeholder "n/a" is no phone. *)
Definition phone_of_field (v : value) : option string :=
  match stripped v with
  | Some s => if String.eqb (lower s) "n/a" then None else Some s
  | None => None
  end.

(** The phone of a [contact_methods] item whose label, lower-cased,
    mentions "phone", "mobile" or "fax" and does not mention "email". *)
Definition phone_of_method (item : value) : option string :=
  let attr := get_or item "attributes" (VDict ∅) in
  match get_or attr "label" (VStr "") with
  | VStr label =>
      if py_eq_str (get_or item "type" VNone) "contact_methods"
         && negb (contains "email" (lower label))
         && (contains "phone" (lower label) || contains "mobile" (lower label)
             || contains "fax" (lower label))
      then stripped (get_or attr "value" (VStr ""))
      else None
  | _ => None
  end.

(** The attributes of the contact, [{}] when the document has none. *)
Definition contact_attributes (contact_data : value) : value :=
  get_or (get_or contact_data "data" (VDict ∅)) "attributes" (VDict ∅).

(** The phones of a contact document, trimmed, in the order the extractor
    meets them: the structured entries, the five flat fields, the contact
    methods. *)
Definition trimmed_phones (contact_data : value) : list string :=
  let attrs := contact_attributes contact_data in
  omap (λ entry, stripped (get_or entry "value" VNone))
       (iterated (get_or attrs "contact-phones" (VList []))) ++
  omap (λ field, phone_of_field (get_or attrs field VNone))
       ["phone"; "mobilePhone"; "alternatePhone"; "faxNumber"; "extension"] ++
  omap phone_of_method (iterated (get_or contact_data "included" (VList []))).

(** The values the extractor reads from the attributes of the contact: the
    value of every structured entry and the eight flat fields. *)
Definition attribute_values (contact_data : value) : list value :=
  let attrs := contact_attributes contact_data in
  ((λ entry, get_or entry "value" VNone)
     <$> iterated (get_or attrs "contact-emails" (VList []))) ++
  ((λ entry, get_or entry "value" VNone)
     <$> iterated (get_or attrs "contact-phones" (VList []))) ++
  ((λ field, get_or attrs field VNone)
     <$> ["emailAddress"; "emailAddress2"; "emailAddress3";
          "phone"; "mobilePhone"; "alternatePhone"; "faxNumber"; "extension"]).

(** *** Pages of Autotask contacts *)

(** [doc] is a page of Autotask contacts with the items [items], and
    [next] is the URL of the next page ([VNone] when it names none). *)
Definition contacts_page (doc : value) (items : list value) (next : value) : Prop :=
  ∃ d details,
    doc = VDict d ∧
    default (VList []) (d !! "items") = VList items ∧
    default (VDict ∅) (d !! "pageDetails") = VDict details ∧
    default VNone (details !! "nextPageUrl") = next.

(** The email address of an Autotask contact as the program reads it:
    trimmed and lower-cased, [""] when the contact has none. *)
Definition item_email (item : value) : result string :=
  py_get item "emailAddress" VNone ≫= normalized_email.

(** What an item adds to the set of known emails. *)
Definition known_email (item : value) : option string :=
  match item_email item with
  | Ok email => if String.eqb email "" then None else Some email
  | Raise _ => None
  end.

(** An item whose email address can be read: a JSON object whose
    ["emailAddress"] is a string, or is false in Python's sense. *)
Definition contact_item (item : value) : Prop :=
  ∃ email, item_email item = Ok email.

(** A non-empty email in the form in which the program looks emails up: a
    string trimmed and then lower-cased. *)
Definition normal_email (email : string) : Prop :=
  email ≠ "" ∧ ∃ raw, email = lower (strip raw).

Section AutotaskPages.

Variable network : nat → request → outcome.
Variable headers : list (string * string).

(** [contact_pages_served n u pages n' u']: from clock [n], fetching [u]
    and then following the next-page URLs yields, page after page, 200
    responses carrying the items [pages]; the last of them leaves the clock
    at [n'] and the next URL [u']. *)
Inductive contact_pages_served
    : nat → url → list (list value) → nat → url → Prop :=
  | contacts_served_none n u : contact_pages_served n u [] n u
  | contacts_served_page n u r n1 doc items next pages n' u' :
      url_truthy u = true →
      first_success network (request_of "GET" u headers None) n 5 = (Some r, n1) →
      status_code r = 200 →
      json_body r = Some doc →
      contacts_page doc items next →
      Forall contact_item items →
      contact_pages_served n1 (Href (if truthy next then next else VNone))
        pages n' u' →
      contact_pages_served n u (items :: pages) n' u'.

End AutotaskPages.

(** *** Pages of organizations *)

Section OrganizationPages.

Variable network : nat → request → outcome.
Variable headers : list (string * string).

(** [org_pages_served n page pages n' page']: from clock [n], the fetches
    of the pages numbered [page], [page + 1], ... yield 200 responses whose
    ["data"] are the non-empty lists [pages]; the last of them leaves the
    clock at [n'], and [page'] is the number of the page after it. *)
Inductive org_pages_served : nat → Z → list (list value) → nat → Z → Prop :=
  | orgs_served_none n page : org_pages_served n page [] n page
  | orgs_served_page n page r n1 d orgs pages n' page' :
      first_success network (request_of "GET" (OrgListUrl page) headers None) n 5
        = (Some r, n1) →
      status_code r = 200 →
      json_body r = Some (VDict d) →
      default (VList []) (d !! "data") = VList orgs →
      orgs ≠ [] →
      org_pages_served n1 (page + 1) pages n' page' →
      org_pages_served n page (orgs :: pages) n' page'.

(** How the listing ends at the page [page]: its fetch fails
    ([safe_request] gives [None], or a response that is not a 200 one), or
    the page has no organizations (["data"] is missing, or false in
    Python's sense).  [listing_ends n page n'] gives the clock [n'] the
    ending leaves. *)
Inductive listing_ends (n : nat) (page : Z) : nat → Prop :=
  | listing_fails resp n' :
      first_success network (request_of "GET" (OrgListUrl page) headers None) n 5
        = (resp, n') →
      not_resp_or_not_200 resp = true →
      listing_ends n page n'
  | listing_empty r n' d :
      first_success network (request_of "GET" (OrgListUrl page) headers None) n 5
        = (Some r, n') →
      status_code r = 200 →
      json_body r = Some (VDict d) →
      truthy (default (VList []) (d !! "data")) = false →
      listing_ends n page n'.

End OrganizationPages.

(** *** Candidates as [main] builds them *)

(** A candidate of [main]: a company identifier that is true in Python's
    sense, and a payload with exactly the four members [firstName],
    [lastName], [email] and [phone], the last two of them strings. *)
Definition built_candidate (c : value * value) : Prop :=
  truthy c.1 = true ∧
  ∃ (first last : value) (email phone : string),
    c.2 = VDict (<["firstName" := first]> (<["lastName" := last]>
                (<["email" := VStr email]> (<["phone" := VStr phone]> ∅)))).

(** The names the summary of [main] keeps of a candidate that was not
    created. *)
Definition skipped_names (c : value * value) : value * value :=
  (member c.2 "firstName", member c.2 "lastName").

(** The company of the candidate has its set of known emails in the
    cache. *)
Definition company_cached (cache : gmap key nat) (c : value * value) : Prop :=
  ∃ k, py_hash c.1 = Ok k ∧ is_Some (cache !! k).

(** *** The answer to the exclusion prompt *)

(** [",".join(ids)] *)
Fixpoint join_commas (ids : list string) : string :=
  match ids with
  | [] => ""
  | [id] => id
  | id :: ids' => id +:+ "," +:+ join_commas ids'
  end.

Fixpoint comma_free (s : string) : bool :=
  match s with
  | EmptyString => true
  | String c s' => negb (Ascii.eqb c ",") && comma_free s'
  end.

(** * Sample documents and worlds *)

Definition relationship (adapter : string) (sync orphaned : bool)
    (remote_id : string) : value :=
  VDict {[ "type" := VStr "adapters_resources";
           "attributes" := VDict {[ "adapter-type-name" := VStr adapter;
                                    "sync" := VBool sync;
                                    "orphaned" := VBool orphaned;
                                    "remote-id" := VStr remote_id ]} ]}.

Definition license_tag_item : value :=
  VDict {[ "type" := VStr "tags";
           "attributes" := VDict {[ "resource-type-name" := VStr "Microsoft Licenses" ]} ]}.

(** An orphaned Autotask relationship listed before a live one. *)
Definition stale_autotask : value := relationship "Autotask" true true "111".
Definition live_autotask : value := relationship "Autotask" true false "500".
Definition microsoft_rel : value := relationship "Microsoft" true false "ms-1".

Definition w0 : world := {| clock := 0; trace := []; sets := ∅ |}.

Definition ok_response (doc : value) : response :=
  {| status_code := 200; json_body := Some doc; text := "" |}.

Definition status_response (status : Z) : response :=
  {| status_code := status; json_body := None; text := "error" |}.

(** A network that is down. *)
Definition dead_network (n : nat) (req : request) : outcome := Fails.

(** A licensed Microsoft-only contact, and one that Autotask already
    syncs. *)
Definition contact_doc (included : list value) (email : string) : value :=
  VDict {[ "data" := VDict {[ "attributes" :=
             VDict {[ "first-name" := VStr "Jane"; "last-name" := VStr "Doe";
                      "contact-emails" := VList [VDict {[ "value" := VStr email ]}] ]} ]};
           "included" := VList included ]}.

Definition microsoft_only_doc : value :=
  contact_doc [microsoft_rel; license_tag_item] "Jane@X.com".

Definition already_synced_doc : value :=
  contact_doc [license_tag_item; live_autotask; microsoft_rel] "joe@x.com".

Definition completed_sample : list (value * option response) :=
  [(VStr "11", Some (ok_response microsoft_only_doc));
   (VStr "12", None);
   (VStr "13", Some (ok_response already_synced_doc));
   (VStr "14", Some (status_response 204))].

(** A small IT Glue and Autotask: two organizations, the first with a live
    Autotask relationship; two pages of contacts for the first; one known
    contact in the company; creations succeed. *)
Definition org_entry_doc (id name : string) : value :=
  VDict {[ "id" := VStr id; "attributes" := VDict {[ "name" := VStr name ]} ]}.

Definition contact_page (ids : list string) (next : value) : value :=
  VDict {[ "data" := VList ((λ id, VDict {[ "id" := VStr id ]}) <$> ids);
           "links" := VDict {[ "next" := next ]} ]}.

Definition sample_network (n : nat) (req : request) : outcome :=
  if String.eqb (req_method req) "POST" then Responds (ok_response (VDict ∅))
  else
    match req_url req with
    | OrgListUrl page =>
        if page =? 1 then
          Responds (ok_response (VDict {[ "data" :=
            VList [org_entry_doc "1" "Acme"; org_entry_doc "2" "Beta"] ]}))
        else Responds (ok_response (VDict {[ "data" := VList [] ]}))
    | OrgDetailUrl (VStr id) =>
        if String.eqb id "1" then
          Responds (ok_response (VDict {[ "included" := VList [live_autotask] ]}))
        else
          Responds (ok_response (VDict {[ "included" := VList [stale_autotask] ]}))
    | OrgContactsUrl _ =>
        Responds (ok_response (contact_page ["11"; "12"] (VStr "page-2")))
    | Href (VStr "page-2") =>
        Responds (ok_response (contact_page ["13"] VNone))
    | CompanyContactsUrl _ _ =>
        Responds (ok_response (VDict {[ "items" :=
          VList [VDict {[ "emailAddress" := VStr " Known@X.com " ]}] ]}))
    | _ => Fails
    end.

(** The same walk on a network that loses the second page. *)
Definition lossy_network (n : nat) (req : request) : outcome :=
  match req_url req with
  | Href _ => Fails
  | _ => sample_network n req
  end.

(** Candidates for the company 500. *)
Definition payload_doc (first last email : string) : value :=
  VDict {[ "firstName" := VStr first; "lastName" := VStr last;
           "email" := VStr email; "phone" := VStr "" ]}.

Definition jane : value * value := (VStr "500", payload_doc "Jane" "Doe" "Jane@X.com").
Definition jane_again : value * value := (VStr "500", payload_doc "Jane" "D." " jane@x.com").
Definition known : value * value := (VStr "500", payload_doc "Ken" "Known" "KNOWN@x.com").
Definition nameless : value * value := (VStr "500", payload_doc "Max" "" "max@x.com").

(** A world whose set 0 holds one lower-cased email. *)
Definition w_cached : world :=
  {| clock := 0; trace := []; sets := {[ 0%nat := {[ "jane@x.com" ]} ]} |}.

(** An Autotask that answers every creation with 201 Created. *)
Definition network_201 (n : nat) (req : request) : outcome :=
  Responds (status_response 201).


(** The directory of [sample_network] with the details of its contacts:
    every contact is a licensed Microsoft-only one. *)
Definition directory_network (n : nat) (req : request) : outcome :=
  match req_url req with
  | ContactDetailUrl _ _ => Responds (ok_response microsoft_only_doc)
  | _ => sample_network n req
  end.

(** The same directory, where the contact 12 already syncs with Autotask
    and the detail of the contact 13 cannot be fetched. *)
Definition mixed_network (n : nat) (req : request) : outcome :=
  match req_url req with
  | ContactDetailUrl _ (VStr "12") => Responds (ok_response already_synced_doc)
  | ContactDetailUrl _ (VStr "13") => Fails
  | _ => directory_network n req
  end.

(** The answers of a run that excludes the organizations 2 and 7. *)
Definition sample_answers (confirm : string) : answers :=
  {| typed_api_key := " key-1 ";
     typed_user_name := "user";
     typed_secret := "secret";
     typed_integration_code := "code ";
     typed_licensed := " Licensed";
     typed_exclude := "2, 7";
     typed_confirm := confirm |}.

(** A service that is back at the third attempt. *)
Definition recovering_network (n : nat) (req : request) : outcome :=
  if (n <? 2)%nat then Responds (status_response 503)
  else Responds (ok_response (VDict ∅)).

(** A service that answers 503 once and then not at all. *)
Definition fading_network (n : nat) (req : request) : outcome :=
  if (n <? 1)%nat then Responds (status_response 503) else Fails.

(** A directory whose every page links to a next one. *)
Definition endless_network (n : nat) (req : request) : outcome :=
  Responds (ok_response (contact_page ["11"] (VStr "more"))).

(** A contact with phones in the three places, a placeholder and a blank
    email. *)
Definition contact_method (label val : string) : value :=
  VDict {[ "type" := VStr "contact_methods";
           "attributes" := VDict {[ "label" := VStr label;
                                    "value" := VStr val ]} ]}.

Definition phones_doc : value :=
  VDict {[ "data" := VDict {[ "attributes" :=
             VDict {[ "contact-phones" := VList [VDict {[ "value" := VStr " 555-1 " ]}];
                      "phone" := VStr "N/A";
                      "mobilePhone" := VStr "555-2";
                      "emailAddress" := VStr "   " ]} ]};
           "included" := VList [contact_method "Work phone" "555-3";
                                contact_method "Email (mobile)" "me@x.com"] ]}.

(** The contact Autotask knows in the company 500. *)
Definition known_item : value := VDict {[ "emailAddress" := VStr " Known@X.com " ]}.

(** An entry of the organization list without a name. *)
Definition nameless_org : value := VDict {[ "id" := VStr "3" ]}.

(** * Properties *)

(** ** Python helpers *)

(** From [m ≫= f = Ok y]: [m] returned some [x] (equation [E]). *)
Tactic Notation "inv_bind" hyp(H) "as" ident(x) ident(E) :=
  match type of H with
  | mbind _ ?m = Ok _ =>
      destruct m as [x|] eqn:E; cbn [mbind result_bind] in H; [|discriminate H]
  end.

Lemma py_eq_str_true v s : py_eq_str v s = true ↔ v = VStr s.
Proof.
  destruct v; simpl; try (split; [discriminate | congruence]).
  rewrite String.eqb_eq. split; congruence.
Qed.


Lemma truthy_bool b : truthy (VBool b) = true ↔ VBool b = VBool true.
Proof. destruct b; simpl; split; congruence. Qed.

Lemma resource_object_attributes item :
  is_resource_object item = true →
  ∃ d a, item = VDict d ∧ default (VDict ∅) (d !! "attributes") = VDict a ∧
         ∀ k, attr item k = default VNone (a !! k).
Proof.
  destruct item as [| | | | |d]; simpl; try discriminate.
  destruct (default (VDict ∅) (d !! "attributes")) as [| | | | |a] eqn:E;
    try discriminate.
  intros _. exists d, a. split; [done|]. split; [done|].
  intros k. unfold attr. by rewrite E.
Qed.

Lemma same_entries_sym l l' : same_entries l l' → same_entries l' l.
Proof. intros H x. symmetry. apply H. Qed.

Lemma permutation_same_entries l l' : l ≡ₚ l' → same_entries l l'.
Proof. intros H x. by rewrite H. Qed.

Lemma duplicate_same_entries l1 x l2 :
  same_entries (l1 ++ x :: l2) (l1 ++ x :: x :: l2).
Proof. intros y. rewrite !elem_of_app, !elem_of_cons. tauto. Qed.

Lemma same_entries_resource_objects l l' :
  same_entries l l' → resource_objects l → resource_objects l'.
Proof.
  unfold resource_objects. rewrite !Forall_forall. intros H Hl x Hx.
  apply Hl, H, Hx.
Qed.

(** ** The classification functions on lists of resource objects *)

Lemma syncs_withb_true name item :
  syncs_withb name item = true ↔ relationship_syncs name item.
Proof.
  unfold syncs_withb, relationship_syncs.
  by rewrite andb_true_iff, py_eq_str_true.
Qed.

Lemma license_tagb_true item : license_tagb item = true ↔ license_tag item.
Proof.
  unfold license_tagb, license_tag. by rewrite andb_true_iff, !py_eq_str_true.
Qed.

Lemma contact_syncs_with_items_existsb items name :
  resource_objects items →
  contact_syncs_with_items items name = Ok (existsb (syncs_withb name) items).
Proof.
  induction 1 as [|item items Hitem _ IH]; [done|].
  destruct (resource_object_attributes _ Hitem) as (d & a & -> & Ha & Hattr).
  cbn [contact_syncs_with_items existsb]. unfold syncs_withb at 1.
  rewrite !Hattr. cbn [py_get mbind result_bind]. rewrite Ha.
  cbn [py_get mbind result_bind].
  destruct (py_eq_str (default VNone (a !! "adapter-type-name")) name); [|done].
  cbn [mbind result_bind andb orb].
  by destruct (truthy (default VNone (a !! "sync"))).
Qed.

Lemma contact_has_ms_license_items_existsb items :
  resource_objects items →
  contact_has_ms_license_items items = Ok (existsb license_tagb items).
Proof.
  induction 1 as [|item items Hitem _ IH]; [done|].
  destruct (resource_object_attributes _ Hitem) as (d & a & -> & Ha & Hattr).
  cbn [contact_has_ms_license_items existsb]. unfold license_tagb at 1.
  rewrite !Hattr. cbn [py_get mbind result_bind member].
  destruct (py_eq_str (default VNone (d !! "type")) "tags"); [|done].
  rewrite Ha. cbn [py_get mbind result_bind andb orb].
  by destruct (py_eq_str _ "Microsoft Licenses").
Qed.

Lemma existsb_same_entries (f : value → bool) l l' :
  same_entries l l' → existsb f l = existsb f l'.
Proof.
  intros H. apply eq_true_iff_eq. rewrite !existsb_exists.
  split; intros (x & Hx & Hf); exists x; (split; [|done]);
    apply list_elem_of_In, H, list_elem_of_In, Hx.
Qed.

Lemma existsb_elem_of (f : value → bool) l :
  existsb f l = true ↔ ∃ x, x ∈ l ∧ f x = true.
Proof.
  rewrite existsb_exists. split; intros (x & Hx & Hf); exists x;
    (split; [|done]); by apply list_elem_of_In.
Qed.

(** Whenever the functions return normally, on any items whatever, they
    return the disjunction over the items. *)
Lemma contact_syncs_with_items_ok items name b :
  contact_syncs_with_items items name = Ok b →
  b = existsb (syncs_withb name) items.
Proof.
  induction items as [|item items IH]; cbn [contact_syncs_with_items existsb].
  { by intros [= <-]. }
  intros H. inv_bind H as attributes Ea. inv_bind H as nm En.
  destruct item as [| | | | |d]; try discriminate. injection Ea as <-.
  destruct (default (VDict ∅) (d !! "attributes")) as [| | | | |a] eqn:Ed;
    try discriminate.
  injection En as <-. unfold syncs_withb at 1, attr, member. rewrite Ed.
  destruct (py_eq_str (default VNone (a !! "adapter-type-name")) name);
    cbn [andb orb]; [|by apply IH].
  cbn [py_get mbind result_bind] in H.
  destruct (truthy (default VNone (a !! "sync"))); cbn [orb];
    [by injection H as <-|by apply IH].
Qed.

Lemma contact_has_ms_license_items_ok items b :
  contact_has_ms_license_items items = Ok b →
  b = existsb license_tagb items.
Proof.
  induction items as [|item items IH];
    cbn [contact_has_ms_license_items existsb].
  { by intros [= <-]. }
  intros H. inv_bind H as ty Et.
  destruct item as [| | | | |d]; try discriminate. injection Et as <-.
  unfold license_tagb at 1, attr, member.
  destruct (py_eq_str (default VNone (d !! "type")) "tags");
    cbn [andb orb]; [|by apply IH].
  inv_bind H as attrs Ea. injection Ea as <-. inv_bind H as nm En.
  destruct (default (VDict ∅) (d !! "attributes")) as [| | | | |a];
    try discriminate.
  injection En as <-.
  destruct (py_eq_str (default VNone (a !! "resource-type-name")) _);
    cbn [orb]; [by injection H as <-|by apply IH].
Qed.

(** C8. [contact_syncs_with] and [contact_has_ms_license] depend on the
    document only through its [included] list, and on that list only
    through its set of entries.  For two documents whose [included] lists
    have the same entries (one list is the other permuted, or with entries
    duplicated), and for every adapter name: the two calls never return
    different booleans; and when the entries are resource objects both
    calls return normally, so the results are equal. *)
Theorem classification_ignores_order_and_duplicates
    (contact_data contact_data' : value) (items items' : list value)
    (target_adapter : string) :
  included_items contact_data items →
  included_items contact_data' items' →
  same_entries items items' →
  (∀ b b', contact_syncs_with contact_data target_adapter = Ok b →
           contact_syncs_with contact_data' target_adapter = Ok b' → b = b') ∧
  (∀ b b', contact_has_ms_license contact_data = Ok b →
           contact_has_ms_license contact_data' = Ok b' → b = b') ∧
  (resource_objects items →
   contact_syncs_with contact_data target_adapter
     = contact_syncs_with contact_data' target_adapter ∧
   contact_has_ms_license contact_data = contact_has_ms_license contact_data' ∧
   (∃ b, contact_syncs_with contact_data target_adapter = Ok b) ∧
   (∃ b, contact_has_ms_license contact_data = Ok b)).
Proof.
  unfold included_items. intros Hd Hd' Hsame.
  unfold contact_syncs_with, contact_has_ms_license. rewrite Hd, Hd'.
  cbn [mbind result_bind py_iter]. split; [|split].
  - intros b b' Hb Hb'. apply contact_syncs_with_items_ok in Hb, Hb'.
    by rewrite Hb, Hb', (existsb_same_entries _ _ _ Hsame).
  - intros b b' Hb Hb'. apply contact_has_ms_license_items_ok in Hb, Hb'.
    by rewrite Hb, Hb', (existsb_same_entries _ _ _ Hsame).
  - intros Hres.
    pose proof (same_entries_resource_objects _ _ Hsame Hres) as Hres'.
    rewrite !contact_syncs_with_items_existsb,
      !contact_has_ms_license_items_existsb by done.
    rewrite (existsb_same_entries _ _ _ Hsame).
    rewrite (existsb_same_entries license_tagb _ _ Hsame).
    repeat split; eauto.
Qed.

(** ** Running monadic code *)

Lemma io_bind_returns {A B} (m : IO A) (f : A → IO B) w a w' :
  m w = Returns a w' → (m ≫= f) w = f a w'.
Proof. unfold mbind, io_bind. by intros ->. Qed.

Lemma io_bind_lift_ok {A B} (r : result A) (f : A → IO B) w a :
  r = Ok a → (lift r ≫= f) w = f a w.
Proof. by intros ->. Qed.

Lemma io_bind_print {B} tag args (f : unit → IO B) w :
  (print tag args ≫= f) w
  = f () {| clock := clock w; trace := trace w ++ [EvPrint tag args];
            sets := sets w |}.
Proof. done. Qed.

Lemma io_bind_inv {A B} (m : IO A) (f : A → IO B) w b w' :
  (m ≫= f) w = Returns b w' →
  ∃ a w1, m w = Returns a w1 ∧ f a w1 = Returns b w'.
Proof.
  unfold mbind, io_bind. destruct (m w) as [a w1| |]; try discriminate. eauto.
Qed.

Lemma lift_inv {A} (r : result A) w a w' :
  lift r w = Returns a w' → r = Ok a ∧ w' = w.
Proof. unfold lift. destruct r; [|discriminate]. intros [= -> ->]. by split. Qed.

(** From [(m ≫= f) w = Returns b w']: [m] returned [a], leaving [w1]. *)
Tactic Notation "io_inv" hyp(H) "as" ident(a) ident(w1) ident(Hm) :=
  apply io_bind_inv in H as (a & w1 & Hm & H).

(** The same when [m] is a lifted pure computation. *)
Tactic Notation "lift_inv" hyp(H) "as" ident(a) ident(Hr) :=
  let w1 := fresh "w" in
  let Hm := fresh "Hm" in
  apply io_bind_inv in H as (a & w1 & Hm & H);
  apply lift_inv in Hm as [Hr ->].

(** ** The contact filter *)

Lemma omap_cons {A B} (f : A → option B) x l :
  omap f (x :: l) = match f x with
                    | Some y => y :: omap f l
                    | None => omap f l
                    end.
Proof. done. Qed.

Lemma existsb_not_objects (f : value → bool) items :
  Forall (λ item, f item = false) items → existsb f items = false.
Proof. induction 1 as [|item items Hf _ IH]; [done|]. cbn. by rewrite Hf. Qed.

Lemma chars_strings s : Forall (λ v, ∃ c, v = VStr c) (VStr <$> characters s).
Proof. apply Forall_fmap, Forall_true. eauto. Qed.

(** What iterating a value that is not a list yields (keys, characters)
    are strings, which are no relationship and no tag. *)
Lemma py_iter_not_list included items (f : value → bool) :
  py_iter included = Ok items →
  (∀ c, f (VStr c) = false) →
  (∃ l, included = VList l ∧ items = l) ∨ existsb f items = false.
Proof.
  intros Hiter Hf. destruct included as [| | |s|l|d]; try discriminate;
    injection Hiter as <-.
  - right. apply existsb_not_objects.
    eapply Forall_impl; [apply chars_strings|]. by intros v [c ->].
  - left. eauto.
  - right. apply existsb_not_objects, Forall_fmap, Forall_forall.
    intros k _. apply Hf.
Qed.

(** On any completed fetches whatever, when the loop returns its result is
    [kept_of] of each of them, in order. *)
Lemma filter_completed_returns completed licensed :
  ∀ acc w kept w',
    filter_completed completed licensed acc w = Returns kept w' →
    kept = acc ++ omap (kept_of licensed) completed.
Proof.
  induction completed as [|[cid resp] completed IH]; intros acc w kept w' H.
  { injection H as <- <-. cbn. by rewrite app_nil_r. }
  rewrite omap_cons. cbn [filter_completed] in H.
  destruct (not_resp_or_not_200 resp) eqn:Hfail.
  { assert (kept_of licensed (cid, resp) = None) as ->
      by (unfold kept_of; cbn [fst snd]; by rewrite Hfail).
    rewrite io_bind_print in H. by apply IH in H. }
  lift_inv H as data Hjson. lift_inv H as b1 Hms. lift_inv H as b2 Hat.
  lift_inv H as b3 Hlic.
  unfold contact_syncs_with in Hms, Hat. unfold contact_has_ms_license in Hlic.
  inv_bind Hms as included Ei. rewrite ?Ei in Hat, Hlic.
  cbn [mbind result_bind] in Hat, Hlic.
  inv_bind Hms as items Eit. rewrite ?Eit in Hat, Hlic.
  cbn [mbind result_bind] in Hat, Hlic.
  apply contact_syncs_with_items_ok in Hms, Hat.
  apply contact_has_ms_license_items_ok in Hlic.
  assert (kept_of licensed (cid, resp)
          = if b1 && negb b2 && ((licensed && b3) || (negb licensed && negb b3))
            then Some (cid, data) else None) as ->.
  { unfold kept_of. cbn [fst snd]. rewrite Hfail, Hjson, Ei.
    destruct (py_iter_not_list included items (syncs_withb "Microsoft") Eit)
      as [(l & -> & ->)|Hnone]; [done| |].
    - unfold keepsb. by rewrite <- Hms, <- Hat, <- Hlic.
    - rewrite Hms, Hnone. cbn [andb].
      destruct included as [| | | |l|]; try done.
      injection Eit as <-. unfold keepsb. by rewrite Hnone. }
  destruct (b1 && negb b2 && _); apply IH in H as ->; [|done].
  by rewrite <- app_assoc.
Qed.

Lemma filter_completed_omap completed licensed acc w :
  Forall contact_document_fetched completed →
  ∃ w', filter_completed completed licensed acc w
        = Returns (acc ++ omap (kept_of licensed) completed) w'.
Proof.
  intros Hall. revert acc w.
  induction Hall as [|[cid resp] completed Hc _ IH]; intros acc w.
  { exists w. cbn. by rewrite app_nil_r. }
  rewrite omap_cons. cbn [filter_completed].
  destruct (not_resp_or_not_200 resp) eqn:Hfail.
  { assert (kept_of licensed (cid, resp) = None) as ->
      by (unfold kept_of; cbn [fst snd]; by rewrite Hfail).
    rewrite io_bind_print. apply IH. }
  destruct (Hc Hfail) as (data & items & Hjson & Hinc & Hres).
  cbn [fst snd] in Hjson. unfold included_items in Hinc.
  assert (kept_of licensed (cid, resp)
          = if keepsb licensed items then Some (cid, data) else None) as ->
    by (unfold kept_of; cbn [fst snd]; by rewrite Hfail, Hjson, Hinc).
  rewrite (io_bind_lift_ok _ _ _ _ Hjson).
  unfold contact_syncs_with, contact_has_ms_license. rewrite Hinc.
  cbn [mbind result_bind py_iter].
  rewrite !contact_syncs_with_items_existsb,
    contact_has_ms_license_items_existsb by done.
  unfold lift at 1 2 3. unfold mbind, io_bind. cbn beta iota.
  fold (keepsb licensed items).
  destruct (keepsb licensed items).
  - destruct (IH (acc ++ [(cid, data)]) w) as [w' ->]. exists w'.
    by rewrite <- app_assoc.
  - apply IH.
Qed.

Lemma keepsb_true licensed items :
  keepsb licensed items = true ↔
  (∃ item, item ∈ items ∧ relationship_syncs "Microsoft" item) ∧
  ¬ (∃ item, item ∈ items ∧ relationship_syncs "Autotask" item) ∧
  (if licensed then ∃ item, item ∈ items ∧ license_tag item
   else ¬ ∃ item, item ∈ items ∧ license_tag item).
Proof.
  unfold keepsb.
  assert (Hs : ∀ name, existsb (syncs_withb name) items = true ↔
                ∃ item, item ∈ items ∧ relationship_syncs name item).
  { intros name. rewrite existsb_elem_of.
    by setoid_rewrite syncs_withb_true. }
  assert (Ht : existsb license_tagb items = true ↔
                ∃ item, item ∈ items ∧ license_tag item).
  { rewrite existsb_elem_of. by setoid_rewrite license_tagb_true. }
  rewrite !andb_true_iff, negb_true_iff, <- not_true_iff_false, !Hs.
  destruct licensed; cbn [andb orb negb].
  - rewrite orb_false_r, Ht. tauto.
  - rewrite negb_true_iff, <- not_true_iff_false, Ht. tauto.
Qed.

(** The loop over the completed fetches: when it returns, a pair (contact
    id, detail) is in its result exactly when it comes from a fetch that
    succeeded with status 200 and whose detail passes the three tests; and
    it does return when every fetched detail has an included list of
    resource objects. *)
Lemma filter_completed_keeps_iff
    (completed : list (value * option response)) (licensed : bool) (w : world) :
  (∀ kept w',
     filter_completed completed licensed [] w = Returns kept w' →
     ∀ contact_id contact_data,
       (contact_id, contact_data) ∈ kept ↔
       ∃ resp items,
         (contact_id, resp) ∈ completed ∧
         not_resp_or_not_200 resp = false ∧
         resp_json resp = Ok contact_data ∧
         included_items contact_data items ∧
         (∃ item, item ∈ items ∧ relationship_syncs "Microsoft" item) ∧
         ¬ (∃ item, item ∈ items ∧ relationship_syncs "Autotask" item) ∧
         (if licensed then ∃ item, item ∈ items ∧ license_tag item
          else ¬ ∃ item, item ∈ items ∧ license_tag item)) ∧
  (Forall contact_document_fetched completed →
   ∃ kept w', filter_completed completed licensed [] w = Returns kept w').
Proof.
  split; [|intros Hall; eexists; by apply filter_completed_omap].
  intros kept w' Hrun. apply filter_completed_returns in Hrun as ->.
  intros cid data. cbn [app]. rewrite list_elem_of_omap. split.
  - intros ([cid' resp] & Hin & Hkept). unfold kept_of in Hkept.
    cbn [fst snd] in Hkept.
    destruct (not_resp_or_not_200 resp) eqn:Hfail; [done|].
    destruct (resp_json resp) as [data'|] eqn:Hjson; [|done].
    destruct (py_get data' "included" (VList [])) as [[| | | |items|]|] eqn:Hinc;
      try done.
    destruct (keepsb licensed items) eqn:Hk; [|done].
    injection Hkept as -> ->. exists resp, items.
    apply keepsb_true in Hk. by repeat split; try apply Hk.
  - intros (resp & items & Hin & Hfail & Hjson & Hinc & Hms & Hat & Hlic).
    exists (cid, resp). split; [done|]. unfold kept_of. cbn [fst snd].
    unfold included_items in Hinc. rewrite Hfail, Hjson, Hinc.
    by rewrite (proj2 (keepsb_true licensed items)).
Qed.

(** ** The request executor *)

Ltac io_unfold :=
  unfold try_except_Exception, try_except, requests_request, print,
    time_sleep, emit, lift, raise, mbind, io_bind, mret, io_ret;
  cbn beta iota.

Section Executor.

Variable network : nat → request → outcome.

Lemma safe_request_attempt_succeeds req attempt rest resp w r :
  network (clock w) req = Responds r →
  status_code r < 400 →
  safe_request_attempts network req (attempt :: rest) resp w
  = Returns (Some r)
      {| clock := S (clock w); trace := trace w ++ [EvRequest req];
         sets := sets w |}.
Proof.
  intros Hnet Hlt. cbn [safe_request_attempts]. io_unfold. rewrite Hnet.
  by rewrite (proj2 (Z.ltb_lt _ _) Hlt).
Qed.

Lemma safe_request_attempt_fails req attempt rest resp w :
  attempt_fails (network (clock w) req) →
  ∃ logged resp',
    safe_request_attempts network req (attempt :: rest) resp w
    = safe_request_attempts network req rest resp'
        {| clock := S (clock w);
           trace := trace w ++ EvRequest req :: logged ++ [EvSleep (2 ^ attempt)];
           sets := sets w |} ∧
    Forall (λ e, is_print e = true) logged.
Proof.
  intros Hfail. cbn [safe_request_attempts]. io_unfold.
  destruct (network (clock w) req) as [r|]; cbn [attempt_fails] in Hfail.
  - rewrite (proj2 (Z.ltb_ge _ _) Hfail).
    destruct (status_code r =? 500).
    + destruct (resp_json (Some r)) as [body|e]; cbn beta iota;
        cbn [trace clock sets]; eexists [_; _], _;
        (split; [repeat rewrite <- app_assoc; reflexivity|by repeat constructor]).
    + cbn [trace clock sets]. eexists [_], _.
      split; [repeat rewrite <- app_assoc; reflexivity|by repeat constructor].
  - cbn [trace clock sets]. eexists [_; _], _.
    split; [repeat rewrite <- app_assoc; reflexivity|by repeat constructor].
Qed.

Lemma first_success_clock req n attempts :
  (n ≤ (first_success network req n attempts).2 ≤ n + attempts)%nat.
Proof.
  revert n. induction attempts as [|k IH]; intros n; cbn [first_success].
  { cbn. lia. }
  destruct (network n req) as [r|].
  - destruct (status_code r <? 400); [cbn; lia|]. specialize (IH (S n)). lia.
  - specialize (IH (S n)). lia.
Qed.

Lemma safe_request_attempts_first_success req k i resp w :
  ∃ w' evs,
    safe_request_attempts network req (Z.of_nat <$> seq i k) resp w
    = Returns (first_success network req (clock w) k).1 w' ∧
    clock w' = (first_success network req (clock w) k).2 ∧
    trace w' = trace w ++ evs ∧ sets w' = sets w.
Proof.
  revert i resp w. induction k as [|k IH]; intros i resp w.
  { cbn. io_unfold. by eexists _, [_]. }
  cbn [seq fmap list_fmap first_success].
  destruct (network (clock w) req) as [r|] eqn:Hnet.
  - destruct (status_code r <? 400) eqn:Hlt.
    + apply Z.ltb_lt in Hlt.
      rewrite (safe_request_attempt_succeeds _ _ _ _ _ _ Hnet Hlt).
      by eexists _, [_].
    + apply Z.ltb_ge in Hlt.
      destruct (safe_request_attempt_fails req (Z.of_nat i)
                  (Z.of_nat <$> seq (S i) k) resp w) as (lg & resp' & -> & _).
      { by rewrite Hnet. }
      edestruct (IH (S i) resp') as (w' & evs & -> & Hc & Ht & Hs).
      cbn [clock trace sets] in *. eexists w', _.
      rewrite Ht, <- app_assoc. done.
  - destruct (safe_request_attempt_fails req (Z.of_nat i)
                (Z.of_nat <$> seq (S i) k) resp w) as (lg & resp' & -> & _).
    { by rewrite Hnet. }
    edestruct (IH (S i) resp') as (w' & evs & -> & Hc & Ht & Hs).
    cbn [clock trace sets] in *. eexists w', _.
    rewrite Ht, <- app_assoc. done.
Qed.

(** [safe_request] always returns: it never raises and needs no fuel.  Its
    result and the clock it leaves depend on the world through the clock
    only. *)
Lemma safe_request_first_success method u headers json max_retries w :
  ∃ w' evs,
    safe_request network method u headers json max_retries w
    = Returns (first_success network (request_of method u headers json) (clock w)
                 max_retries).1 w' ∧
    clock w' = (first_success network (request_of method u headers json) (clock w)
                  max_retries).2 ∧
    trace w' = trace w ++ evs ∧ sets w' = sets w.
Proof. apply safe_request_attempts_first_success. Qed.

Lemma without_prints_app t1 t2 :
  without_prints (t1 ++ t2) = without_prints t1 ++ without_prints t2.
Proof. apply List.filter_app. Qed.

Lemma without_prints_logged logged :
  Forall (λ e, is_print e = true) logged → without_prints logged = [].
Proof.
  induction 1 as [|e l He _ IH]; [done|]. unfold without_prints in *.
  cbn [List.filter]. by rewrite He.
Qed.

Lemma safe_request_attempts_exhausted req k i resp w :
  (∀ j, (j < k)%nat → attempt_fails (network (clock w + j) req)) →
  ∃ w' evs,
    safe_request_attempts network req (Z.of_nat <$> seq i k) resp w
    = Returns None w' ∧
    advanced w k evs w' ∧
    without_prints evs
    = flat_map (λ a, [EvRequest req; EvSleep (2 ^ a)]) (Z.of_nat <$> seq i k).
Proof.
  revert i resp w. induction k as [|k IH]; intros i resp w Hfail.
  { cbn. io_unfold. eexists _, [_]. unfold advanced. cbn.
    by rewrite Nat.add_0_r. }
  cbn [seq fmap list_fmap flat_map].
  destruct (safe_request_attempt_fails req (Z.of_nat i)
              (Z.of_nat <$> seq (S i) k) resp w) as (lg & resp' & -> & Hlg).
  { specialize (Hfail 0%nat). rewrite Nat.add_0_r in Hfail. apply Hfail. lia. }
  edestruct (IH (S i) resp') as (w' & evs & -> & (Hc & Ht & Hs) & Hev).
  { intros j Hj. cbn [clock].
    replace (S (clock w) + j)%nat with (clock w + S j)%nat by lia.
    apply Hfail. lia. }
  cbn [clock trace sets] in *.
  eexists w', (EvRequest req :: lg ++ [EvSleep (2 ^ Z.of_nat i)] ++ evs).
  split; [done|]. split.
  - unfold advanced. rewrite Hc, Ht, Hs. split; [lia|]. split; [|done].
    rewrite <- !app_assoc. cbn [app]. by rewrite <- !app_assoc.
  - change (EvRequest req :: lg ++ [EvSleep (2 ^ Z.of_nat i)] ++ evs)
      with ([EvRequest req] ++ lg ++ [EvSleep (2 ^ Z.of_nat i)] ++ evs).
    rewrite !without_prints_app, (without_prints_logged _ Hlg), Hev. done.
Qed.

(** C4. When each of the [max_retries] attempts fails (the transport raises
    or the status is 400 or more), [safe_request] returns [None] - it does
    not raise - after exactly [max_retries] requests, each attempt [i]
    (counted from 0) being followed by a sleep of [2^i] seconds; with the
    default bound 5 the sleeps are 1, 2, 4, 8 and 16 seconds. *)
Theorem safe_request_exhausts_retries
    (method : string) (u : url) (headers : list (string * string))
    (json : option value) (max_retries : nat) (w : world) :
  (∀ i, (i < max_retries)%nat →
        attempt_fails (network (clock w + i) (request_of method u headers json))) →
  ∃ w' evs,
    safe_request network method u headers json max_retries w = Returns None w' ∧
    advanced w max_retries evs w' ∧
    without_prints evs
    = flat_map (λ i, [EvRequest (request_of method u headers json);
                      EvSleep (2 ^ i)]) (range max_retries) ∧
    (max_retries = 5%nat → sleeps evs = [1; 2; 4; 8; 16]).
Proof.
  intros Hfail.
  destruct (safe_request_attempts_exhausted (request_of method u headers json)
              max_retries 0 None w Hfail) as (w' & evs & Hrun & Hadv & Hev).
  exists w', evs. do 3 (split; [done|]).
  intros ->.
  assert (Hs : sleeps evs = sleeps (without_prints evs)).
  { clear. unfold sleeps, without_prints.
    induction evs as [|[] evs IH]; cbn; by rewrite <- ?IH. }
  rewrite Hs, Hev. done.
Qed.

End Executor.

(** ** The filter of the Microsoft-only contacts *)

Lemma fetch_contact_details_first_success network contact_id org_id headers w :
  ∃ w',
    fetch_contact_details network contact_id org_id headers w
    = Returns (contact_id,
               (first_success network
                  (request_of "GET" (ContactDetailUrl org_id contact_id) headers None)
                  (clock w) 5).1) w' ∧
    clock w' = (first_success network
                  (request_of "GET" (ContactDetailUrl org_id contact_id) headers None)
                  (clock w) 5).2.
Proof.
  unfold fetch_contact_details.
  destruct (safe_request_first_success network "GET"
              (ContactDetailUrl org_id contact_id) headers None 5
              {| clock := clock w; trace := trace w ++ [EvThrottle];
                 sets := sets w |}) as (w' & evs & Hrun & Hc & _ & _).
  exists w'. split; [|exact Hc].
  unfold mbind at 1, io_bind at 1, emit at 1.
  by rewrite (io_bind_returns _ _ _ _ _ Hrun).
Qed.

(** The pool of [get_microsoft_only_contacts] always returns, and what it
    hands to the filter loop is [contact_fetches]. *)
Lemma fetch_all_contact_fetches network org_id headers contact_ids :
  ∀ w, ∃ w',
    mapM (λ cid, fetch_contact_details network cid org_id headers) contact_ids w
    = Returns (contact_fetches network headers org_id contact_ids (clock w)) w'.
Proof.
  induction contact_ids as [|cid contact_ids IH]; intros w.
  { by exists w. }
  destruct (fetch_contact_details_first_success network cid org_id headers w)
    as (w1 & Hrun & Hc).
  destruct (IH w1) as (w' & Hrest).
  exists w'. cbn [mapM contact_fetches].
  rewrite (io_bind_returns _ _ _ _ _ Hrun), (io_bind_returns _ _ _ _ _ Hrest).
  by rewrite Hc.
Qed.

(** C1. [get_microsoft_only_contacts] keeps a contact exactly under the
    three conditions.  Let the listing of the organization return
    [contact_ids]; the details are then fetched, each by [safe_request], in
    the completion order of the pool.  Whenever the function returns, a
    pair (contact id, detail) is in its result exactly when it is the
    result of one of these fetches, answered with status 200, and the
    detail has an included relationship of adapter "Microsoft" with sync
    true, no included relationship of adapter "Autotask" with sync true,
    and a "Microsoft Licenses" tag when [licensed] is true, none when it is
    false.  And the function does return when every fetched detail has an
    included list of resource objects. *)
Theorem microsoft_only_filter_keeps_iff
    (network : nat → request → outcome)
    (completion_order : list value → list value) (fuel : nat)
    (api_key : string) (org_id : value) (licensed : bool) (w : world)
    (contact_ids : list value) (w1 : world) :
  get_all_contact_ids network fuel api_key org_id w = Returns contact_ids w1 →
  (∀ ms_only_contacts w',
     get_microsoft_only_contacts network completion_order fuel api_key org_id
       licensed w = Returns ms_only_contacts w' →
     ∀ contact_id contact_data,
       (contact_id, contact_data) ∈ ms_only_contacts ↔
       ∃ resp items,
         (contact_id, resp)
         ∈ contact_fetches network (itglue_headers api_key) org_id
             (completion_order contact_ids) (clock w1) ∧
         not_resp_or_not_200 resp = false ∧
         resp_json resp = Ok contact_data ∧
         included_items contact_data items ∧
         (∃ item, item ∈ items ∧ relationship_syncs "Microsoft" item) ∧
         ¬ (∃ item, item ∈ items ∧ relationship_syncs "Autotask" item) ∧
         (if licensed then ∃ item, item ∈ items ∧ license_tag item
          else ¬ ∃ item, item ∈ items ∧ license_tag item)) ∧
  (Forall contact_document_fetched
     (contact_fetches network (itglue_headers api_key) org_id
        (completion_order contact_ids) (clock w1)) →
   ∃ ms_only_contacts w',
     get_microsoft_only_contacts network completion_order fuel api_key org_id
       licensed w = Returns ms_only_contacts w').
Proof.
  intros Hids.
  destruct (fetch_all_contact_fetches network org_id (itglue_headers api_key)
              (completion_order contact_ids) w1) as (w2 & Hfetch).
  assert (Hrun : get_microsoft_only_contacts network completion_order fuel
                   api_key org_id licensed w
                 = filter_completed
                     (contact_fetches network (itglue_headers api_key) org_id
                        (completion_order contact_ids) (clock w1))
                     licensed [] w2).
  { unfold get_microsoft_only_contacts.
    rewrite (io_bind_returns _ _ _ _ _ Hids).
    by rewrite (io_bind_returns _ _ _ _ _ Hfetch). }
  rewrite Hrun. apply filter_completed_keeps_iff.
Qed.

(** ** The pagination walker *)

Section Walker.

Variable network : nat → request → outcome.
Variable headers : list (string * string).

Lemma mapM_result_Forall2 {A B} (f : A → result B) l k :
  Forall2 (λ x y, f x = Ok y) l k → mapM f l = Ok k.
Proof.
  induction 1 as [|x y l k Hxy _ IH]; [done|].
  cbn [mapM]. rewrite Hxy. cbn [mbind result_bind]. rewrite IH. done.
Qed.

Lemma ok_200_usable r :
  status_code r = 200 → not_resp_or_not_200 (Some r) = false.
Proof. intros H. unfold not_resp_or_not_200, response_bool. by rewrite H. Qed.

Lemma get_all_contact_ids_loop_served org_id pages :
  ∀ n u n' u' n'' fuel contact_ids w,
    pages_served network headers n u pages n' u' →
    walk_end network headers n' u' n'' →
    clock w = n →
    (length pages < fuel)%nat →
    ∃ w',
      get_all_contact_ids_loop network fuel org_id headers u contact_ids w
      = Returns (contact_ids ++ concat pages) w' ∧
      clock w' = n'' ∧ sets w' = sets w.
Proof.
  induction pages as [|ids pages IH];
    intros n u n' u' n'' fuel acc w Hserved Hend Hw Hfuel;
    inversion Hserved; subst; (destruct fuel as [|fuel]; [cbn in Hfuel; lia|]);
    cbn [get_all_contact_ids_loop].
  - rewrite app_nil_r. destruct Hend as [Hu | resp n'' Hu Hfs Hfail].
    + rewrite Hu. by exists w.
    + rewrite Hu.
      destruct (safe_request_first_success network "GET" u' headers None 5 w)
        as (w1 & evs & Hrun & Hc & Ht & Hs).
      rewrite Hfs in Hrun, Hc. cbn [fst snd] in Hrun, Hc.
      rewrite (io_bind_returns _ _ _ _ _ Hrun), Hfail, io_bind_print.
      eexists. split; [done|]. cbn [clock sets]. done.
  - match goal with H : url_truthy u = true |- _ => rewrite H end.
    destruct (safe_request_first_success network "GET" u headers None 5 w)
      as (w1 & evs & Hrun & Hc & Ht & Hs).
    match goal with
    | H : first_success _ _ _ _ = _ |- _ => rewrite H in Hrun, Hc
    end.
    cbn [fst snd] in Hrun, Hc.
    rewrite (io_bind_returns _ _ _ _ _ Hrun), ok_200_usable by done.
    match goal with
    | H : page_envelope _ _ _ |- _ =>
        destruct H as (d & items & links & -> & Hdata & Hids & Hlinks & Hnext)
    end.
    assert (Hjson : resp_json (Some r) = Ok (VDict d)).
    { unfold resp_json.
      by match goal with H : json_body r = _ |- _ => rewrite H end. }
    rewrite (io_bind_lift_ok _ _ _ _ Hjson).
    cbn [py_get]. rewrite Hdata. cbn [mbind result_bind py_iter].
    rewrite (mapM_result_Forall2 _ _ _ Hids).
    rewrite (io_bind_lift_ok _ _ _ ids eq_refl).
    rewrite Hlinks. cbn [py_get mbind result_bind].
    rewrite (io_bind_lift_ok _ _ _ _ eq_refl). rewrite Hnext.
    edestruct (IH n1 (Href next) n' u' n'' fuel (acc ++ ids) w1)
      as (w' & Hrun' & Hc' & Hs'); [done..| |].
    { cbn in Hfuel. lia. }
    exists w'. rewrite Hrun'. cbn [concat]. rewrite <- app_assoc.
    split; [done|]. split; [done|]. by rewrite Hs'.
Qed.

End Walker.

(** C3. When the fetch of the contacts URL and of the successive next links
    yields N pages (each a 200 response whose envelope links to the next
    page), [get_all_contact_ids] returns, for every sufficient fuel, the
    concatenation of the pages' identifiers in page and response order -
    nothing is dropped, merged or reordered - both when page N has no next
    link and when the fetch of the page after it fails; in the second case
    the pages before the failed one are the whole result.  In both cases no
    request follows ([n''] is the clock the ending leaves). *)
Theorem get_all_contact_ids_concatenates_pages
    (network : nat → request → outcome) (api_key : string) (org_id : value)
    (pages : list (list value)) (w : world) (n' n'' : nat) (u' : url) :
  pages_served network (itglue_headers api_key) (clock w)
    (OrgContactsUrl org_id) pages n' u' →
  walk_end network (itglue_headers api_key) n' u' n'' →
  ∀ fuel, (length pages < fuel)%nat →
    ∃ w', get_all_contact_ids network fuel api_key org_id w
          = Returns (concat pages) w' ∧
          clock w' = n''.
Proof.
  intros Hserved Hend fuel Hfuel. unfold get_all_contact_ids.
  destruct (get_all_contact_ids_loop_served network (itglue_headers api_key)
              org_id pages _ _ _ _ _ fuel [] w Hserved Hend eq_refl Hfuel)
    as (w' & Hrun & Hc & _).
  by exists w'.
Qed.

(** ** The organization scanner *)

Lemma active_autotaskb_true item :
  active_autotaskb item = true ↔ active_autotask item.
Proof.
  unfold active_autotaskb, active_autotask, relationship_syncs.
  rewrite !andb_true_iff, negb_true_iff, py_eq_str_true. tauto.
Qed.

Lemma has_active_autotask_existsb items :
  resource_objects items →
  has_active_autotask items = Ok (existsb active_autotaskb items).
Proof.
  induction 1 as [|item items Hitem _ IH]; [done|].
  destruct (resource_object_attributes _ Hitem) as (d & a & -> & Ha & Hattr).
  cbn [has_active_autotask existsb]. unfold active_autotaskb at 1.
  rewrite !Hattr. cbn [py_get mbind result_bind]. rewrite Ha.
  cbn [py_get mbind result_bind].
  by destruct (_ && _ && _).
Qed.

Section Scanner.

Variable network : nat → request → outcome.
Variable headers : list (string * string).

Lemma py_getitem_member v k x : py_getitem v k = Ok x → x = member v k.
Proof.
  destruct v as [| | | | |d]; try discriminate. cbn.
  destruct (d !! k); [|discriminate]. by intros [= <-].
Qed.

Lemma has_active_autotask_ok items b :
  has_active_autotask items = Ok b → b = existsb active_autotaskb items.
Proof.
  induction items as [|item items IH]; cbn [has_active_autotask existsb].
  { by intros [= <-]. }
  intros H. inv_bind H as attributes Ea. inv_bind H as nm En.
  inv_bind H as sync Es. inv_bind H as orphaned Eo.
  destruct item as [| | | | |d]; try discriminate. injection Ea as <-.
  destruct (default (VDict ∅) (d !! "attributes")) as [| | | | |a] eqn:Ed;
    try discriminate.
  injection En as <-. injection Es as <-. injection Eo as <-.
  unfold active_autotaskb at 1, attr, member. rewrite Ed.
  destruct (_ && _ && _); cbn [orb]; [by injection H as <-|by apply IH].
Qed.

(** On any organizations and responses whatever, when the loop returns its
    result is [syncing_triple] of each organization, in order. *)
Lemma check_orgs_returns all_orgs :
  ∀ autotask_orgs w result w',
    check_orgs network all_orgs headers autotask_orgs w = Returns result w' →
    result = autotask_orgs ++
             omap (λ p, syncing_triple p.1 p.2)
                  (zip all_orgs (detail_fetches network headers all_orgs (clock w))).
Proof.
  induction all_orgs as [|org rest IH]; intros acc w result w' H.
  { injection H as <- <-. cbn. by rewrite app_nil_r. }
  cbn [check_orgs] in H. cbn [detail_fetches zip zip_with].
  rewrite omap_cons. cbn [fst snd].
  lift_inv H as org_id Hid. apply py_getitem_member in Hid as ->.
  lift_inv H as org_name Hname.
  assert (org_name = org_name_of org) as ->.
  { inv_bind Hname as a Ea. apply py_getitem_member in Ea as ->.
    by apply py_getitem_member in Hname as ->. }
  fold (org_id_of org) in H.
  destruct (safe_request_first_success network "GET"
              (OrgDetailUrl (org_id_of org)) headers None 5 w)
    as (w1 & evs & Hrun & Hc & Ht & Hs).
  rewrite (io_bind_returns _ _ _ _ _ Hrun) in H.
  set (f := first_success network _ (clock w) 5) in *.
  rewrite <- Hc.
  destruct (not_resp_or_not_200 f.1) eqn:Hfail.
  { assert (syncing_triple org f.1 = None) as ->
      by (unfold syncing_triple; by rewrite Hfail).
    rewrite io_bind_print in H. by apply IH in H. }
  lift_inv H as included Hinc. lift_inv H as active Hact.
  inv_bind Hinc as doc Hjson. inv_bind Hact as items Hiter.
  apply has_active_autotask_ok in Hact.
  assert (syncing_triple org f.1
          = if active then Some (org_id_of org, org_name_of org, included)
            else None) as ->.
  { unfold syncing_triple. rewrite Hfail, Hjson, Hinc.
    destruct (py_iter_not_list included items active_autotaskb Hiter)
      as [(l & -> & ->)|Hnone]; [done|by rewrite Hact| ].
    rewrite Hact, Hnone. destruct included as [| | | |l|]; try done.
    injection Hiter as <-. by rewrite Hnone. }
  destruct active; apply IH in H as ->; [|done]. by rewrite <- app_assoc.
Qed.

Lemma check_orgs_omap all_orgs :
  ∀ autotask_orgs w,
    Forall org_entry all_orgs →
    Forall document_with_resources (detail_fetches network headers all_orgs (clock w)) →
    ∃ w',
      check_orgs network all_orgs headers autotask_orgs w
      = Returns (autotask_orgs ++
                 omap (λ p, syncing_triple p.1 p.2)
                      (zip all_orgs (detail_fetches network headers all_orgs (clock w)))) w'.
Proof.
  induction all_orgs as [|org rest IH]; intros acc w Horgs Hdocs.
  { exists w. cbn. by rewrite app_nil_r. }
  apply Forall_cons in Horgs as [[Hid Hname] Horgs].
  cbn [detail_fetches] in Hdocs |- *. apply Forall_cons in Hdocs as [Hdoc Hdocs].
  cbn [zip zip_with]. rewrite omap_cons. cbn [fst snd check_orgs].
  rewrite (io_bind_lift_ok _ _ _ _ Hid), (io_bind_lift_ok _ _ _ _ Hname).
  destruct (safe_request_first_success network "GET"
              (OrgDetailUrl (org_id_of org)) headers None 5 w)
    as (w1 & evs & Hrun & Hc & Ht & Hs).
  rewrite (io_bind_returns _ _ _ _ _ Hrun).
  set (f := first_success network _ (clock w) 5) in *.
  destruct (not_resp_or_not_200 f.1) eqn:Hfail.
  { assert (syncing_triple org f.1 = None) as ->
      by (unfold syncing_triple; by rewrite Hfail).
    rewrite io_bind_print. rewrite <- Hc in *.
    match goal with
    | |- ∃ w', check_orgs _ _ _ _ ?w2 = _ => by apply (IH acc w2)
    end. }
  destruct (Hdoc Hfail) as (doc & items & Hjson & Hinc & Hres).
  unfold included_items in Hinc.
  assert (syncing_triple org f.1
          = if existsb active_autotaskb items
            then Some (org_id_of org, org_name_of org, VList items) else None)
    as -> by (unfold syncing_triple; by rewrite Hfail, Hjson, Hinc).
  rewrite Hjson. cbn [mbind result_bind]. rewrite Hinc.
  rewrite (io_bind_lift_ok _ _ _ _ eq_refl). cbn [py_iter mbind result_bind].
  rewrite (has_active_autotask_existsb _ Hres).
  rewrite (io_bind_lift_ok _ _ _ _ eq_refl).
  rewrite <- Hc in *.
  destruct (existsb active_autotaskb items).
  - edestruct (IH (acc ++ [(org_id_of org, org_name_of org, VList items)]) w1)
      as [w' ->]; [done..|].
    exists w'. by rewrite <- app_assoc.
  - by apply IH.
Qed.

End Scanner.

(** C2. [get_autotask_syncing_orgs]: when the first pass has listed the
    organizations [all_orgs], then whenever the function returns, a triple
    is in its result exactly when it is (id, name, included list) of a
    listed organization whose detail fetch succeeded with status 200 and
    whose included list has at least one item of adapter "Autotask" with
    sync true and orphaned false.  And the function does return when the
    listed entries have an id and a name and the fetched details have
    included lists of resource objects. *)
Theorem syncing_orgs_are_the_active_ones
    (network : nat → request → outcome) (fuel : nat) (api_key : string)
    (w w1 : world) (all_orgs : list value) :
  fetch_all_orgs network fuel (itglue_headers api_key) 1 []
    (logged w "Fetching organizations..." []) = Returns all_orgs w1 →
  (∀ autotask_orgs w',
     get_autotask_syncing_orgs network fuel api_key w
       = Returns autotask_orgs w' →
     ∀ org_id org_name included,
       (org_id, org_name, included) ∈ autotask_orgs ↔
       ∃ i org resp doc items,
         all_orgs !! i = Some org ∧
         detail_fetches network (itglue_headers api_key) all_orgs (clock w1) !! i
           = Some resp ∧
         not_resp_or_not_200 resp = false ∧
         resp_json resp = Ok doc ∧
         included_items doc items ∧
         (∃ item, item ∈ items ∧ active_autotask item) ∧
         org_id = org_id_of org ∧ org_name = org_name_of org ∧
         included = VList items) ∧
  (Forall org_entry all_orgs →
   Forall document_with_resources
     (detail_fetches network (itglue_headers api_key) all_orgs (clock w1)) →
   ∃ autotask_orgs w',
     get_autotask_syncing_orgs network fuel api_key w
       = Returns autotask_orgs w').
Proof.
  intros Hlist.
  set (headers := itglue_headers api_key) in *.
  set (w2 := logged w1 "Checking for Autotask sync status..." []).
  assert (Hstep : get_autotask_syncing_orgs network fuel api_key w
                  = check_orgs network all_orgs headers [] w2).
  { unfold get_autotask_syncing_orgs. fold headers.
    rewrite io_bind_print. fold (logged w "Fetching organizations..." []).
    rewrite (io_bind_returns _ _ _ _ _ Hlist). by rewrite io_bind_print. }
  rewrite Hstep. split; last first.
  { intros Horgs Hdocs.
    destruct (check_orgs_omap network headers all_orgs [] w2 Horgs Hdocs)
      as [w' Hrun].
    by eexists _, w'. }
  intros autotask_orgs w' Hrun. apply check_orgs_returns in Hrun as ->.
  intros org_id org_name included. cbn [app clock w2 logged].
  rewrite list_elem_of_omap. split.
  - intros ([org resp] & Hin & Hkept).
    apply list_elem_of_lookup in Hin as [i Hi].
    apply lookup_zip_with_Some in Hi as (org' & resp' & [= <- <-] & Ho & Hr).
    unfold syncing_triple in Hkept. cbn [fst snd] in Hkept.
    destruct (not_resp_or_not_200 resp) eqn:Hfail; [done|].
    destruct (resp_json resp) as [doc|] eqn:Hjson; [|done].
    destruct (py_get doc "included" (VList [])) as [[| | | |items|]|] eqn:Hinc;
      try done.
    destruct (existsb active_autotaskb items) eqn:Hact; [|done].
    injection Hkept as <- <- <-. exists i, org, resp, doc, items.
    apply existsb_elem_of in Hact as (item & Hitem & Hact).
    apply active_autotaskb_true in Hact.
    do 5 (split; [done|]). split; [by exists item|done].
  - intros (i & org & resp & doc & items & Ho & Hr & Hfail & Hjson & Hinc
            & (item & Hitem & Hact) & -> & -> & ->).
    exists (org, resp). split.
    + apply list_elem_of_lookup. exists i. apply lookup_zip_with_Some. eauto.
    + unfold syncing_triple. cbn [fst snd]. unfold included_items in Hinc.
      rewrite Hfail, Hjson, Hinc.
      assert (existsb active_autotaskb items = true) as ->; [|done].
      apply existsb_elem_of. exists item. by rewrite active_autotaskb_true.
Qed.

(** ** Creating a contact *)

Lemma truthy_py_or_empty v : truthy (py_or v (VStr "")) = truthy v.
Proof. unfold py_or. by destruct (truthy v) eqn:E. Qed.

Lemma candidate_email_dict contact_data email :
  candidate_email contact_data = Ok email → ∃ d, contact_data = VDict d.
Proof. destruct contact_data; try discriminate. eauto. Qed.

Section Create.

Variable network : nat → request → outcome.

Lemma create_skips_incomplete
    (base_url : string) (auth_headers : list (string * string))
    (company_id contact_data : value) (existing_emails_cache : nat)
    (email : string) (w : world) :
  candidate_email contact_data = Ok email →
  truthy (member contact_data "lastName") = false ∨ email = "" →
  ∃ w',
    create_contact_in_autotask network base_url auth_headers company_id
      contact_data existing_emails_cache w = Returns false w' ∧
    clock w' = clock w ∧ sets w' = sets w ∧ ∃ evs, trace w' = trace w ++ evs.
Proof.
  intros Hemail Hempty.
  destruct (candidate_email_dict _ _ Hemail) as [d ->].
  unfold candidate_email in Hemail. unfold create_contact_in_autotask.
  rewrite (io_bind_lift_ok _ _ _ _ Hemail). cbn [member] in Hempty.
  assert (Hlogged : ∀ tag args,
            ∃ w', Returns false (logged w tag args) = Returns false w' ∧
                  clock w' = clock w ∧ sets w' = sets w ∧
                  ∃ evs, trace w' = trace w ++ evs).
  { intros. eexists. split; [done|]. do 2 (split; [done|]). by eexists. }
  destruct (String.eqb email "") eqn:Heq; cbn [negb].
  - io_unfold. cbn [py_get mbind result_bind].
    rewrite truthy_py_or_empty.
    destruct (truthy (default VNone (d !! "lastName"))); cbn [negb];
      apply Hlogged.
  - apply String.eqb_neq in Heq. destruct Hempty as [Hlast|]; [|done].
    io_unfold. unfold set_contains.
    destruct (bool_decide (email ∈ set_at w existing_emails_cache));
      [apply Hlogged|].
    cbn [py_get mbind result_bind]. rewrite truthy_py_or_empty, Hlast.
    cbn [negb]. apply Hlogged.
Qed.

Lemma create_skips_duplicate
    (base_url : string) (auth_headers : list (string * string))
    (company_id contact_data : value) (existing_emails_cache : nat)
    (email : string) (w : world) :
  candidate_email contact_data = Ok email →
  email ≠ "" →
  email ∈ set_at w existing_emails_cache →
  create_contact_in_autotask network base_url auth_headers company_id
    contact_data existing_emails_cache w
  = Returns false
      (logged w "[SKIP] Contact already exists in Autotask" [VStr email]).
Proof.
  intros Hemail Hne Hin. unfold candidate_email in Hemail.
  unfold create_contact_in_autotask.
  rewrite (io_bind_lift_ok _ _ _ _ Hemail).
  apply String.eqb_neq in Hne. rewrite Hne. cbn [negb].
  unfold set_contains at 1. unfold mbind at 1, io_bind at 1.
  by rewrite bool_decide_eq_true_2.
Qed.

(** C5. A candidate whose last name is empty, or whose email is empty
    (absent, null, or blank once trimmed), is not created:
    [create_contact_in_autotask] returns false without any request, and
    the store of sets - so the existing-emails cache of the company - is
    left as it was. *)
Theorem create_skips_incomplete_candidate
    (base_url : string) (auth_headers : list (string * string))
    (company_id contact_data : value) (existing_emails_cache : nat)
    (email : string) (w : world) :
  candidate_email contact_data = Ok email →
  truthy (member contact_data "lastName") = false ∨ email = "" →
  ∃ w',
    create_contact_in_autotask network base_url auth_headers company_id
      contact_data existing_emails_cache w = Returns false w' ∧
    clock w' = clock w ∧ sets w' = sets w ∧
    set_at w' existing_emails_cache = set_at w existing_emails_cache.
Proof.
  intros Hemail Hempty.
  destruct (create_skips_incomplete base_url auth_headers company_id
              contact_data existing_emails_cache email w Hemail Hempty)
    as (w' & Hrun & Hc & Hs & _).
  exists w'. unfold set_at. by rewrite Hs.
Qed.

Lemma create_posts (base_url : string) (auth_headers : list (string * string))
    (company_id : value) (d : gmap string value) (existing_emails_cache : nat)
    (email : string) (w : world) :
  candidate_email (VDict d) = Ok email →
  email ≠ "" →
  email ∉ set_at w existing_emails_cache →
  truthy (member (VDict d) "lastName") = true →
  create_contact_in_autotask network base_url auth_headers company_id
    (VDict d) existing_emails_cache w
  = (resp ← safe_request network "POST" (CompanyContactsUrl base_url company_id)
              auth_headers
              (req_json (create_request base_url auth_headers company_id
                           (VDict d) email)) 5;
     if negb (resp_truthy resp) then
       print "[ERROR] Failed to create contact: No response"
         [py_or (member (VDict d) "firstName") (VStr "");
          py_or (member (VDict d) "lastName") (VStr "")];;
       mret false
     else
       status ← lift (resp_status resp);
       if negb (status =? 200) then
         err ← try_except (lift (resp_json resp))
                 (λ _, mret (VStr (from_option text "" resp)));
         print "[ERROR] Failed to create contact"
           [py_or (member (VDict d) "firstName") (VStr "");
            py_or (member (VDict d) "lastName") (VStr "");
            VInt status; err];;
         mret false
       else
         set_add existing_emails_cache email;;
         mret true) w.
Proof.
  intros Hemail Hne Hnotin Hlast. unfold candidate_email in Hemail.
  unfold create_contact_in_autotask.
  rewrite (io_bind_lift_ok _ _ _ _ Hemail).
  apply String.eqb_neq in Hne. rewrite Hne. cbn [negb].
  unfold set_contains at 1. unfold mbind at 1, io_bind at 1.
  rewrite bool_decide_eq_false_2 by done.
  cbn [py_get mbind result_bind member] in *.
  rewrite !(io_bind_lift_ok _ _ _ _ eq_refl).
  rewrite truthy_py_or_empty, Hlast. cbn [negb]. done.
Qed.

(** C10. A candidate that passes the checks is posted, and only a response
    of status exactly 200 makes the creation a success: whenever
    [safe_request] gives no response or one of another status,
    [create_contact_in_autotask] returns false and the store of sets is as
    before.  In particular a 2xx or 3xx answer other than 200 (201, say)
    to the first attempt is what [safe_request] returns, being below 400 -
    no retry is made - and the creation still returns false. *)
Theorem create_succeeds_only_on_200
    (base_url : string) (auth_headers : list (string * string))
    (company_id contact_data : value) (existing_emails_cache : nat)
    (email : string) (w : world) :
  candidate_email contact_data = Ok email →
  email ≠ "" →
  email ∉ set_at w existing_emails_cache →
  truthy (member contact_data "lastName") = true →
  (∀ resp n1,
     first_success network
       (create_request base_url auth_headers company_id contact_data email)
       (clock w) 5 = (resp, n1) →
     (∀ r, resp = Some r → status_code r ≠ 200) →
     ∃ w',
       create_contact_in_autotask network base_url auth_headers company_id
         contact_data existing_emails_cache w = Returns false w' ∧
       clock w' = n1 ∧ sets w' = sets w) ∧
  (∀ r,
     network (clock w)
       (create_request base_url auth_headers company_id contact_data email)
       = Responds r →
     status_code r < 400 → status_code r ≠ 200 →
     ∃ w',
       create_contact_in_autotask network base_url auth_headers company_id
         contact_data existing_emails_cache w = Returns false w' ∧
       clock w' = S (clock w) ∧ sets w' = sets w).
Proof.
  intros Hemail Hne Hnotin Hlast.
  destruct (candidate_email_dict _ _ Hemail) as [d ->].
  assert (Hgen : ∀ resp n1,
     first_success network
       (create_request base_url auth_headers company_id (VDict d) email)
       (clock w) 5 = (resp, n1) →
     (∀ r, resp = Some r → status_code r ≠ 200) →
     ∃ w',
       create_contact_in_autotask network base_url auth_headers company_id
         (VDict d) existing_emails_cache w = Returns false w' ∧
       clock w' = n1 ∧ sets w' = sets w).
  { intros resp n1 Hfs Hnot200.
    rewrite (create_posts _ _ _ _ _ _ _ Hemail Hne Hnotin Hlast).
    destruct (safe_request_first_success network "POST"
                (CompanyContactsUrl base_url company_id) auth_headers
                (req_json (create_request base_url auth_headers company_id
                             (VDict d) email)) 5 w)
      as (w1 & evs & Hrun & Hc & Ht & Hs).
    change (request_of _ _ _ _)
      with (create_request base_url auth_headers company_id (VDict d) email)
      in Hrun, Hc.
    rewrite Hfs in Hrun, Hc. cbn [fst snd] in Hrun, Hc.
    rewrite (io_bind_returns _ _ _ _ _ Hrun).
    destruct resp as [r|]; cbn [resp_truthy negb].
    - destruct (response_bool r); cbn [negb].
      + cbn [resp_status]. rewrite (io_bind_lift_ok _ _ _ _ eq_refl).
        specialize (Hnot200 r eq_refl). apply Z.eqb_neq in Hnot200.
        rewrite Hnot200. cbn [negb]. io_unfold.
        destruct (resp_json (Some r)); by eexists.
      + rewrite io_bind_print. by eexists.
    - rewrite io_bind_print. by eexists. }
  split; [exact Hgen|].
  intros r Hnet Hlt Hnot200.
  apply (Hgen (Some r) (S (clock w))); [|by intros ? [= <-]].
  cbn [first_success]. rewrite Hnet.
  by rewrite (proj2 (Z.ltb_lt _ _) Hlt).
Qed.

Lemma create_succeeds (base_url : string) (auth_headers : list (string * string))
    (company_id contact_data : value) (existing_emails_cache : nat)
    (email : string) (w : world) r n1 :
  candidate_email contact_data = Ok email →
  email ≠ "" →
  email ∉ set_at w existing_emails_cache →
  truthy (member contact_data "lastName") = true →
  first_success network
    (create_request base_url auth_headers company_id contact_data email)
    (clock w) 5 = (Some r, n1) →
  status_code r = 200 →
  ∃ w',
    create_contact_in_autotask network base_url auth_headers company_id
      contact_data existing_emails_cache w = Returns true w' ∧
    clock w' = n1 ∧
    sets w' = <[existing_emails_cache :=
                  set_at w existing_emails_cache ∪ {[email]}]> (sets w).
Proof.
  intros Hemail Hne Hnotin Hlast Hfs H200.
  destruct (candidate_email_dict _ _ Hemail) as [d ->].
  rewrite (create_posts _ _ _ _ _ _ _ Hemail Hne Hnotin Hlast).
  destruct (safe_request_first_success network "POST"
              (CompanyContactsUrl base_url company_id) auth_headers
              (req_json (create_request base_url auth_headers company_id
                           (VDict d) email)) 5 w)
    as (w1 & evs & Hrun & Hc & Ht & Hs).
  change (request_of _ _ _ _)
    with (create_request base_url auth_headers company_id (VDict d) email)
    in Hrun, Hc.
  rewrite Hfs in Hrun, Hc. cbn [fst snd] in Hrun, Hc.
  rewrite (io_bind_returns _ _ _ _ _ Hrun).
  cbn [resp_truthy]. unfold response_bool. rewrite H200.
  change (negb (negb ((400 <=? 200) && (200 <? 600)))) with false.
  cbn [resp_status]. rewrite (io_bind_lift_ok _ _ _ _ eq_refl), H200.
  change (negb (200 =? 200)) with false.
  io_unfold. unfold set_add. eexists. split; [done|].
  cbn [clock sets]. unfold set_at. by rewrite Hs.
Qed.

End Create.

(** ** Trimming and lower-casing *)

Example strip_sample : ascii_strip "  Jane Doe	 " = "Jane Doe".
Proof. reflexivity. Qed.

Example lower_sample : ascii_lower "Jane@X.com" = "jane@x.com".
Proof. reflexivity. Qed.

Example contains_sample : contains "email" "work email" = true.
Proof. reflexivity. Qed.

Lemma normalized_email_str raw : normalized_email (VStr raw) = Ok (lower (strip raw)).
Proof.
  unfold normalized_email, py_or. cbn [truthy].
  destruct (String.eqb raw "") eqn:E; cbn [negb py_strip mbind result_bind];
    [|done].
  apply String.eqb_eq in E as ->. done.
Qed.

(** The emails the program looks up, posts and puts in a cache are strings
    trimmed and then lower-cased. *)
Lemma normalized_email_form v email :
  normalized_email v = Ok email → ∃ raw, email = lower (strip raw).
Proof.
  unfold normalized_email. intros H. inv_bind H as s E. injection H as <-.
  destruct (py_or v (VStr "")) as [| | |raw| |]; try discriminate.
  injection E as <-. by exists raw.
Qed.

(** ** The field extractor *)

Lemma py_get_ok v k dflt x : py_get v k dflt = Ok x → x = get_or v k dflt.
Proof. destruct v; try discriminate. cbn. congruence. Qed.

Lemma py_iter_ok v l : py_iter v = Ok l → l = iterated v.
Proof. unfold iterated. by intros ->. Qed.

Lemma add_if_truthy_ok (acc acc' : list string) (val : value) :
  (if truthy val then add_stripped acc val else Ok acc) = Ok acc' →
  acc' = acc ++ option_list (stripped val).
Proof.
  destruct val as [| | |s| |]; cbn [stripped];
    try (destruct (truthy _); cbn; [discriminate|];
         intros [= <-]; by rewrite app_nil_r).
  destruct (truthy (VStr s)); cbn; intros [= <-]; [done|by rewrite app_nil_r].
Qed.

Lemma for_each_add_stripped {A} (get : A → result value) (g : A → value) l :
  (∀ x v, get x = Ok v → v = g x) →
  ∀ acc acc',
    for_each (λ acc x, val ← get x;
                if truthy val then add_stripped acc val else Ok acc) l acc
      = Ok acc' →
    acc' = acc ++ omap (λ x, stripped (g x)) l.
Proof.
  intros Hget. induction l as [|x l IH]; intros acc acc' H; cbn [for_each] in H.
  { injection H as <-. cbn. by rewrite app_nil_r. }
  inv_bind H as acc1 E. inv_bind E as val Ev. apply Hget in Ev as ->.
  apply add_if_truthy_ok in E as ->. apply IH in H as ->.
  rewrite omap_cons, <- app_assoc. by destruct (stripped (g x)).
Qed.

Lemma stripped_falsy v : truthy v = false → stripped v = None.
Proof. destruct v; try done. unfold stripped. by intros ->. Qed.

Lemma method_step_emails emails phones item emails' phones' :
  method_step (emails, phones) item = Ok (emails', phones') →
  emails' = emails ++ option_list (email_of_method item).
Proof.
  unfold method_step, email_of_method. intros H.
  inv_bind H as ty E. apply py_get_ok in E as ->.
  destruct (py_eq_str (get_or item "type" VNone) "contact_methods");
    cbn [andb]; last first.
  { injection H as <- <-.
    destruct (get_or _ "label" _); cbn [option_list]; by rewrite app_nil_r. }
  inv_bind H as attr E. apply py_get_ok in E as ->.
  inv_bind H as lbl E. inv_bind E as lv El. apply py_get_ok in El as ->.
  destruct (get_or (get_or item "attributes" (VDict ∅)) "label" (VStr ""))
    as [| | |label| |]; try discriminate.
  injection E as <-.
  inv_bind H as val E. apply py_get_ok in E as ->.
  set (val := get_or (get_or item "attributes" (VDict ∅)) "value" (VStr "")) in *.
  destruct (truthy val) eqn:Ht.
  - destruct (contains "email" (lower label)).
    + inv_bind H as emails1 E. injection H as <- <-.
      destruct val; try discriminate. unfold stripped. rewrite Ht.
      cbn in E. by injection E as <-.
    + rewrite app_nil_r. destruct (_ || _ || _).
      * inv_bind H as phones1 E. by injection H as <- <-.
      * by injection H as <- <-.
  - injection H as <- <-. rewrite stripped_falsy by done.
    destruct (contains "email" (lower label)); cbn [option_list];
      by rewrite app_nil_r.
Qed.

Lemma for_each_method_step l :
  ∀ emails phones emails' phones',
    for_each method_step l (emails, phones) = Ok (emails', phones') →
    emails' = emails ++ omap email_of_method l.
Proof.
  induction l as [|item l IH]; intros emails phones emails' phones' H;
    cbn [for_each] in H.
  { injection H as <- <-. cbn. by rewrite app_nil_r. }
  inv_bind H as acc1 E. destruct acc1 as [emails1 phones1].
  apply method_step_emails in E as ->. apply IH in H as ->.
  rewrite omap_cons, <- app_assoc. by destruct (email_of_method item).
Qed.

(** The list of emails the extractor returns is the set of the trimmed
    source values, listed by [set_order]. *)
Lemma extract_emails_are_trimmed_sources set_order contact_data emails phones :
  extract_emails_and_phones set_order contact_data = Ok (emails, phones) →
  emails = set_order (trimmed_emails contact_data).
Proof.
  unfold extract_emails_and_phones, trimmed_emails. intros H.
  inv_bind H as attrs Ea. inv_bind Ea as data Ed.
  apply py_get_ok in Ed as ->. apply py_get_ok in Ea as ->.
  inv_bind H as email_entries Ee. inv_bind Ee as ce Ec.
  apply py_get_ok in Ec as ->. apply py_iter_ok in Ee as ->.
  inv_bind H as emails1 E1.
  apply (for_each_add_stripped _ (λ entry, get_or entry "value" VNone)) in E1
    as ->; [|by intros; eapply py_get_ok].
  inv_bind H as phone_entries Ep.
  inv_bind H as phones1 Ep1.
  inv_bind H as emails2 E2.
  apply (for_each_add_stripped _
           (λ field, get_or (get_or (get_or contact_data "data" (VDict ∅))
                               "attributes" (VDict ∅)) field VNone)) in E2;
    [|by intros; eapply py_get_ok].
  inv_bind H as phones2 Ep2.
  inv_bind H as included Ei. inv_bind Ei as inc Ei'.
  apply py_get_ok in Ei' as ->. apply py_iter_ok in Ei as ->.
  inv_bind H as acc3 E3. destruct acc3 as [emails3 phones3].
  apply for_each_method_step in E3 as ->.
  injection H as <- <-. rewrite E2. cbn [app]. by rewrite <- app_assoc.
Qed.

Lemma create_skips_case_variant
    (network : nat → request → outcome) (base_url : string)
    (auth_headers : list (string * string)) (company_id contact_data : value)
    (existing_emails_cache : nat) (raw existing : string) (w : world) :
  py_get contact_data "email" VNone = Ok (VStr raw) →
  lower (strip raw) = lower (strip existing) →
  lower (strip existing) ∈ set_at w existing_emails_cache →
  ∃ w',
    create_contact_in_autotask network base_url auth_headers company_id
      contact_data existing_emails_cache w = Returns false w' ∧
    clock w' = clock w ∧ sets w' = sets w.
Proof.
  intros Hget Hcase Hin. set (cached := lower (strip existing)) in *.
  assert (Hemail : candidate_email contact_data = Ok cached).
  { unfold candidate_email. rewrite Hget. cbn [mbind result_bind].
    by rewrite normalized_email_str, Hcase. }
  destruct (decide (cached = "")) as [Hempty|Hne].
  - destruct (create_skips_incomplete network base_url auth_headers company_id
                contact_data existing_emails_cache cached w Hemail
                (or_intror Hempty)) as (w' & Hrun & Hc & Hs & _).
    by exists w'.
  - rewrite (create_skips_duplicate _ _ _ _ _ _ _ _ Hemail Hne Hin).
    by eexists.
Qed.

(** C6. The extractor deduplicates emails as exact trimmed strings: the
    list it returns has no repetition and holds exactly the trimmed source
    values, so two sources are merged only when they are equal once
    trimmed, letter case included.  The duplicate check of the creation
    is on the trimmed and lower-cased email: a candidate whose email is,
    once trimmed and lower-cased, the trimmed and lower-cased form of an
    existing email - the form in which the cache holds the existing
    emails - is not created: the call returns false, makes no request and
    leaves the store of sets as it was.  Trimming and lower-casing are
    [str.strip] and [str.lower], whatever they do. *)
Theorem email_dedup_exact_then_case_insensitive :
  (∀ (set_order : list string → list string) (contact_data : value)
     (emails phones : list string),
     lists_each_once set_order →
     extract_emails_and_phones set_order contact_data = Ok (emails, phones) →
     NoDup emails ∧ ∀ e, e ∈ emails ↔ e ∈ trimmed_emails contact_data) ∧
  (∀ (network : nat → request → outcome) (base_url : string)
     (auth_headers : list (string * string)) (company_id contact_data : value)
     (existing_emails_cache : nat) (raw existing : string) (w : world),
     py_get contact_data "email" VNone = Ok (VStr raw) →
     lower (strip raw) = lower (strip existing) →
     lower (strip existing) ∈ set_at w existing_emails_cache →
     ∃ w',
       create_contact_in_autotask network base_url auth_headers company_id
         contact_data existing_emails_cache w = Returns false w' ∧
       clock w' = clock w ∧ sets w' = sets w).
Proof.
  split.
  - intros set_order contact_data emails phones Hset Hrun.
    apply extract_emails_are_trimmed_sources in Hrun as ->. apply Hset.
  - apply create_skips_case_variant.
Qed.

(** ** The destination company *)



(** ** The creation pipeline *)

#[global] Instance extends_preorder : PreOrder extends.
Proof.
  split.
  - intros w. split; [exists []; by rewrite app_nil_r|done].
  - intros w1 w2 w3 [[e1 H1] S1] [[e2 H2] S2]. split.
    + exists (e1 ++ e2). by rewrite H2, H1, <- app_assoc.
    + intros s. etrans; [apply S1|apply S2].
Qed.


Lemma set_at_insert w s X s' c t :
  set_at {| clock := c; trace := t; sets := <[s := X]> (sets w) |} s'
  = if decide (s = s') then X else set_at w s'.
Proof.
  unfold set_at. cbn [sets]. rewrite lookup_insert.
  by destruct (decide (s = s')).
Qed.



Section Pipeline.

Variable network : nat → request → outcome.





End Pipeline.

Section FirstRun.

Variable network : nat → request → outcome.



End FirstRun.




(** ** What every run keeps *)

Lemma requests_of_app t1 t2 :
  requests_of (t1 ++ t2) = requests_of t1 ++ requests_of t2.
Proof. unfold requests_of. by rewrite omap_app. Qed.

#[global] Instance requests_since_preorder P : PreOrder (requests_since P).
Proof.
  split.
  - intros w. exists []. by rewrite app_nil_r.
  - intros w1 w2 w3 (e1 & H1 & P1) (e2 & H2 & P2). exists (e1 ++ e2).
    rewrite H2, H1, <- app_assoc. split; [done|].
    rewrite requests_of_app. by apply Forall_app.
Qed.

#[global] Instance same_sets_preorder : PreOrder same_sets.
Proof.
  split; [done|]. intros w1 w2 w3 H1 H2. unfold same_sets in *. congruence.
Qed.

Create HintDb keeps.

#[global] Instance same_clock_preorder : PreOrder same_clock.
Proof.
  split; [done|]. intros w1 w2 w3 H1 H2. unfold same_clock in *. congruence.
Qed.

(** A relation between worlds that log lines and sleeps keep, and that a
    request keeps when it satisfies [P], is kept by every part of the
    program that sends such requests only. *)
Section Keeping.

Variable R : relation world.
Context `{!PreOrder R}.
Variable P : request → Prop.

Hypothesis R_emit : ∀ w e,
  (∀ req, e ≠ EvRequest req) →
  R w {| clock := clock w; trace := trace w ++ [e]; sets := sets w |}.
Hypothesis R_request : ∀ w req,
  P req →
  R w {| clock := S (clock w); trace := trace w ++ [EvRequest req];
         sets := sets w |}.

Lemma keeps_ret {A} (a : A) : keeps R (mret a).
Proof. intros w w' [= <-]. reflexivity. Qed.

Lemma keeps_lift {A} (r : result A) : keeps R (lift r).
Proof. intros w w'. unfold lift. destruct r; intros [= <-]; reflexivity. Qed.

Lemma keeps_raise {A} e : keeps R (@raise A e).
Proof. intros w w' [= <-]. reflexivity. Qed.

Lemma keeps_out_of_fuel {A} : keeps R (@out_of_fuel A).
Proof. by intros w w'. Qed.

Lemma keeps_bind {A B} (m : IO A) (f : A → IO B) :
  keeps R m → (∀ a, keeps R (f a)) → keeps R (m ≫= f).
Proof.
  intros Hm Hf w w'. unfold mbind, io_bind.
  destruct (m w) as [a w1|e w1|] eqn:E; [| |done].
  - intros H. etrans; [apply Hm; by rewrite E|by eapply Hf].
  - intros [= <-]. apply Hm. by rewrite E.
Qed.

Lemma keeps_try_except {A} (body : IO A) handler :
  keeps R body → (∀ e, keeps R (handler e)) → keeps R (try_except body handler).
Proof.
  intros Hbody Hh w w'. unfold try_except.
  destruct (body w) as [a w1|e w1|] eqn:E; [| |done].
  - intros [= <-]. apply Hbody. by rewrite E.
  - intros H. etrans; [apply Hbody; by rewrite E|by eapply Hh].
Qed.

Lemma keeps_try_except_Exception {A} (body : IO A) handler :
  keeps R body → (∀ e, keeps R (handler e)) →
  keeps R (try_except_Exception body handler).
Proof.
  intros Hbody Hh. apply keeps_try_except; [done|].
  intros []; auto using keeps_raise.
Qed.

Lemma keeps_print tag args : keeps R (print tag args).
Proof. intros w w' [= <-]. by apply R_emit. Qed.

Lemma keeps_time_sleep secs : keeps R (time_sleep secs).
Proof. intros w w' [= <-]. by apply R_emit. Qed.

Lemma keeps_throttle : keeps R (emit EvThrottle).
Proof. intros w w' [= <-]. by apply R_emit. Qed.

Lemma keeps_input prompt typed : keeps R (input prompt typed).
Proof. apply keeps_bind; [apply keeps_print|intros; apply keeps_ret]. Qed.

Lemma keeps_input_bind {B} prompt typed (f : string → IO B) :
  keeps R (f typed) → keeps R (input prompt typed ≫= f).
Proof.
  intros Hf w w' H. etrans; [|eapply Hf, H].
  by apply R_emit.
Qed.

Lemma keeps_lift_bind {A B} (r : result A) (f : A → IO B) :
  (∀ a, r = Ok a → keeps R (f a)) → keeps R (lift r ≫= f).
Proof.
  intros Hf w w'. unfold mbind, io_bind, lift. destruct r as [a|e].
  - by apply Hf.
  - intros [= <-]. reflexivity.
Qed.

Lemma keeps_ret_bind {A B} (a : A) (f : A → IO B) :
  keeps R (f a) → keeps R (mret a ≫= f).
Proof. intros Hf w w'. apply Hf. Qed.

Lemma keeps_mapM {A B} (f : A → IO B) l :
  (∀ x, keeps R (f x)) → keeps R (mapM f l).
Proof.
  intros Hf. induction l as [|x l IH]; cbn [mapM]; [apply keeps_ret|].
  apply keeps_bind; [done|]. intros y.
  apply keeps_bind; [done|]. intros k. apply keeps_ret.
Qed.

Lemma keeps_io_for_each {A} (body : A → IO unit) l :
  (∀ x, keeps R (body x)) → keeps R (io_for_each body l).
Proof.
  intros Hf. induction l as [|x l IH]; cbn [io_for_each]; [apply keeps_ret|].
  by apply keeps_bind.
Qed.

#[local] Hint Resolve keeps_ret keeps_lift keeps_raise keeps_out_of_fuel
  keeps_print keeps_time_sleep keeps_throttle keeps_input : keeps.

Ltac keeps_step :=
  first
  [ solve [eauto 3 with keeps]
  | simple apply keeps_input_bind; cbn beta zeta
  | simple apply keeps_bind; [|intros ?; cbn beta]
  | simple apply keeps_try_except_Exception; [|intros ?; cbn beta]
  | simple apply keeps_try_except; [|intros ?; cbn beta]
  | simple apply keeps_mapM; intros ?; cbn beta
  | simple apply keeps_io_for_each; intros ?; cbn beta
  | match goal with
    | |- keeps _ (match ?x with _ => _ end) => destruct x eqn:?
    end ].

Ltac keeps_auto := repeat keeps_step.

Variable network : nat → request → outcome.
Variable completion_order : list value → list value.
Variable set_order : list string → list string.

Lemma keeps_requests_request req : P req → keeps R (requests_request network req).
Proof.
  intros HP w w'. unfold requests_request.
  destruct (network (clock w) req); intros [= <-]; by apply R_request.
Qed.

Lemma keeps_safe_request_attempts req attempts :
  P req → ∀ resp, keeps R (safe_request_attempts network req attempts resp).
Proof.
  intros HP. pose proof (keeps_requests_request req HP).
  induction attempts as [|attempt rest IH]; intros resp;
    cbn [safe_request_attempts]; keeps_auto.
Qed.

Lemma keeps_safe_request method u headers json max_retries :
  P (request_of method u headers json) →
  keeps R (safe_request network method u headers json max_retries).
Proof. intros. by apply keeps_safe_request_attempts. Qed.

#[local] Hint Resolve keeps_safe_request : keeps.

(** *** The functions that read IT Glue *)

Section Reading.

Variable headers : list (string * string).
Hypothesis P_get : ∀ u, P (request_of "GET" u headers None).

Lemma keeps_get_all_contact_ids_loop fuel org_id :
  ∀ u contact_ids,
    keeps R (get_all_contact_ids_loop network fuel org_id headers u contact_ids).
Proof.
  induction fuel as [|fuel IH]; intros u contact_ids;
    cbn [get_all_contact_ids_loop]; keeps_auto.
Qed.

Lemma keeps_fetch_contact_details contact_id org_id :
  keeps R (fetch_contact_details network contact_id org_id headers).
Proof. unfold fetch_contact_details. keeps_auto. Qed.

Lemma keeps_filter_completed completed licensed :
  ∀ ms_only_contacts,
    keeps R (filter_completed completed licensed ms_only_contacts).
Proof.
  induction completed as [|[contact_id contact_resp] rest IH];
    intros ms_only_contacts; cbn [filter_completed]; keeps_auto.
Qed.

Lemma keeps_fetch_all_orgs fuel :
  ∀ page all_orgs, keeps R (fetch_all_orgs network fuel headers page all_orgs).
Proof.
  induction fuel as [|fuel IH]; intros page all_orgs;
    cbn [fetch_all_orgs]; keeps_auto.
Qed.

Lemma keeps_check_orgs all_orgs :
  ∀ autotask_orgs, keeps R (check_orgs network all_orgs headers autotask_orgs).
Proof.
  induction all_orgs as [|org rest IH]; intros autotask_orgs;
    cbn [check_orgs]; keeps_auto.
Qed.

End Reading.

Section ReadingITGlue.

Variable api_key : string.
Hypothesis P_itglue : ∀ u, P (request_of "GET" u (itglue_headers api_key) None).

Lemma keeps_get_all_contact_ids fuel org_id :
  keeps R (get_all_contact_ids network fuel api_key org_id).
Proof. by apply keeps_get_all_contact_ids_loop. Qed.

Lemma keeps_get_microsoft_only_contacts fuel org_id licensed :
  keeps R (get_microsoft_only_contacts network completion_order fuel api_key
             org_id licensed).
Proof.
  pose proof keeps_get_all_contact_ids. pose proof keeps_filter_completed.
  pose proof (keeps_fetch_contact_details _ P_itglue).
  unfold get_microsoft_only_contacts. keeps_auto.
Qed.

Lemma keeps_get_autotask_syncing_orgs fuel :
  keeps R (get_autotask_syncing_orgs network fuel api_key).
Proof.
  pose proof (keeps_fetch_all_orgs _ P_itglue).
  pose proof (keeps_check_orgs _ P_itglue).
  unfold get_autotask_syncing_orgs. keeps_auto.
Qed.

Lemma keeps_collect_contacts fuel licensed exclude_ids syncing_orgs :
  ∀ contacts_to_create,
    keeps R (collect_contacts network completion_order set_order fuel api_key
               licensed exclude_ids syncing_orgs contacts_to_create).
Proof.
  pose proof keeps_get_microsoft_only_contacts.
  induction syncing_orgs as [|[[org_id name] included] rest IH];
    intros contacts_to_create; cbn [collect_contacts]; keeps_auto.
Qed.

End ReadingITGlue.

(** *** The functions that read and write Autotask *)

Section Writing.

Hypothesis R_sets : ∀ w σ,
  R w {| clock := clock w; trace := trace w; sets := σ |}.

Lemma keeps_set_new : keeps R set_new.
Proof. intros w w' [= <-]. apply R_sets. Qed.

Lemma keeps_set_add s x : keeps R (set_add s x).
Proof. intros w w' [= <-]. apply R_sets. Qed.

Lemma keeps_set_contains s x : keeps R (set_contains s x).
Proof. intros w w' [= <-]. reflexivity. Qed.

#[local] Hint Resolve keeps_set_new keeps_set_add keeps_set_contains : keeps.

Variable base_url : string.
Variable auth_headers : list (string * string).
Hypothesis P_next : ∀ next, P (request_of "GET" (Href next) auth_headers None).

Lemma keeps_get_existing_autotask_contacts_loop fuel company_id existing_emails :
  ∀ u,
    P (request_of "GET" u auth_headers None) →
    keeps R (get_existing_autotask_contacts_loop network fuel auth_headers
               company_id u existing_emails).
Proof.
  induction fuel as [|fuel IH]; intros u Hu;
    cbn [get_existing_autotask_contacts_loop]; keeps_auto.
Qed.

Lemma keeps_get_existing_autotask_contacts fuel company_id :
  allows_company P base_url auth_headers company_id →
  keeps R (get_existing_autotask_contacts network fuel base_url auth_headers
             company_id).
Proof.
  intros [Hfirst _].
  pose proof (λ e, keeps_get_existing_autotask_contacts_loop fuel company_id e
                     _ Hfirst).
  unfold get_existing_autotask_contacts. keeps_auto.
Qed.

Lemma keeps_create_contact_in_autotask company_id contact_data
    existing_emails_cache :
  (∀ (first last : value) (email : string) (phone : value),
     truthy last = true → email ≠ "" → (∃ raw, email = lower (strip raw)) →
     P (request_of "POST" (CompanyContactsUrl base_url company_id) auth_headers
          (Some (autotask_contact first last email phone)))) →
  keeps R (create_contact_in_autotask network base_url auth_headers company_id
             contact_data existing_emails_cache).
Proof.
  intros P_post. unfold create_contact_in_autotask.
  apply keeps_lift_bind. intros email Hemail.
  apply keeps_bind; [keeps_auto|]. intros [|]; [keeps_auto|].
  apply keeps_lift_bind. intros first _.
  apply keeps_lift_bind. intros last _.
  apply keeps_lift_bind. intros phone _.
  destruct (negb (truthy last)) eqn:Hlast; [keeps_auto|].
  destruct (String.eqb email "") eqn:Hne; [keeps_auto|].
  apply negb_false_iff in Hlast. apply String.eqb_neq in Hne.
  inv_bind Hemail as raw Hraw. apply normalized_email_form in Hemail.
  pose proof (P_post first last email phone Hlast Hne Hemail).
  keeps_auto.
Qed.

Lemma keeps_create_contacts fuel contacts_to_create :
  Forall (λ c, allows_company P base_url auth_headers c.1) contacts_to_create →
  ∀ existing_contacts_cache created_count skipped,
    keeps R (create_contacts network fuel base_url auth_headers contacts_to_create
               existing_contacts_cache created_count skipped).
Proof.
  induction 1 as [|[company_id contact_payload] rest Hc _ IH];
    intros existing_contacts_cache created_count skipped;
    cbn [create_contacts]; [keeps_auto|].
  pose proof (keeps_get_existing_autotask_contacts fuel company_id Hc).
  pose proof (λ d e, keeps_create_contact_in_autotask company_id d e (proj2 Hc)).
  keeps_auto.
Qed.

End Writing.

(** *** The whole run *)

Lemma keeps_main fuel typed :
  (∀ w σ, R w {| clock := clock w; trace := trace w; sets := σ |}) →
  (∀ u, P (request_of "GET" u (itglue_headers (strip (typed_api_key typed))) None)) →
  (∀ next, P (request_of "GET" (Href next) (autotask_headers typed) None)) →
  (∀ company_id, allows_company P at_base_url (autotask_headers typed) company_id) →
  keeps R (main network completion_order set_order fuel typed).
Proof.
  intros R_sets P_itglue P_next P_company.
  pose proof (keeps_get_autotask_syncing_orgs _ P_itglue).
  pose proof (keeps_collect_contacts _ P_itglue).
  pose proof (λ fuel cs, keeps_create_contacts R_sets at_base_url _ P_next
                           fuel cs (Forall_true _ cs (λ c, P_company c.1))).
  unfold main. keeps_auto.
Qed.

(** When the last prompt is answered by anything but a blank line, the run
    needs the requests to IT Glue only. *)
Lemma keeps_main_cancelled fuel typed :
  strip (typed_confirm typed) ≠ "" →
  (∀ u, P (request_of "GET" u (itglue_headers (strip (typed_api_key typed))) None)) →
  keeps R (main network completion_order set_order fuel typed).
Proof.
  intros Hconfirm P_itglue.
  pose proof (keeps_get_autotask_syncing_orgs _ P_itglue).
  pose proof (keeps_collect_contacts _ P_itglue).
  apply String.eqb_neq in Hconfirm.
  unfold main.
  repeat first [progress rewrite Hconfirm; cbn [negb] | keeps_step].
Qed.

End Keeping.

Lemma requests_since_emit P w e :
  (∀ req, e ≠ EvRequest req) →
  requests_since P w {| clock := clock w; trace := trace w ++ [e]; sets := sets w |}.
Proof.
  intros He. exists [e]. split; [done|]. destruct e; try done. by destruct (He req).
Qed.

Lemma requests_since_request P w req :
  P req →
  requests_since P w {| clock := S (clock w); trace := trace w ++ [EvRequest req];
                        sets := sets w |}.
Proof. intros HP. exists [EvRequest req]. split; [done|]. by repeat constructor. Qed.

Lemma requests_since_sets P w σ :
  requests_since P w {| clock := clock w; trace := trace w; sets := σ |}.
Proof. exists []. split; [by rewrite app_nil_r|constructor]. Qed.

(** ** The destination company of the candidates *)



(** ** The requests of a whole run *)

Lemma io_bind_input {B} prompt typed (f : string → IO B) w :
  (input prompt typed ≫= f) w = f typed (logged w prompt []).
Proof. done. Qed.

(** X1. Whatever the services answer and however the run ends, every
    request [main] has sent is of one of two kinds: a GET to IT Glue
    carrying the API key and no body, or a request carrying the Autotask
    credentials that is either a GET without body or the POST, to the
    contacts of a company under the Autotask base URL, of a contact record
    with a non-empty last name and a non-empty email that is the trimmed
    and lower-cased form of a string.  So nothing is ever written to IT
    Glue, and no incomplete record is ever posted. *)
Theorem main_sends_reads_and_contact_records_only
    (network : nat → request → outcome)
    (completion_order : list value → list value)
    (set_order : list string → list string)
    (fuel : nat) (typed : answers) (w w' : world) :
  final (main network completion_order set_order fuel typed w) = Some w' →
  requests_since
    (λ req, itglue_request (strip (typed_api_key typed)) req ∨
            autotask_request at_base_url (autotask_headers typed) req)
    w w'.
Proof.
  intros H.
  eapply (keeps_main (requests_since _)); [..|by rewrite H].
  - apply requests_since_emit.
  - apply requests_since_request.
  - apply requests_since_sets.
  - intros u. by left.
  - intros next. right. split; [done|]. by left.
  - intros company_id. split; [right; split; [done|]; by left|].
    intros first last email phone Hlast Hne Hemail.
    right. split; [done|]. right. split; [done|].
    by exists company_id, first, last, email, phone.
Qed.

(** X2. When the last prompt is answered by anything but a blank line,
    [main] does not return, and when it ends (by [SystemExit], or by an
    exception of the collection before it) it has only sent GET requests
    to IT Glue and has touched no set: nothing has been sent to
    Autotask. *)
Theorem cancelled_run_only_reads_itglue
    (network : nat → request → outcome)
    (completion_order : list value → list value)
    (set_order : list string → list string)
    (fuel : nat) (typed : answers) (w : world) :
  strip (typed_confirm typed) ≠ "" →
  (∀ u w', main network completion_order set_order fuel typed w ≠ Returns u w') ∧
  (∀ e w', main network completion_order set_order fuel typed w = Raises e w' →
           requests_since (itglue_request (strip (typed_api_key typed))) w w' ∧
           sets w' = sets w).
Proof.
  intros Hconfirm. split.
  - intros u w' H. unfold main in H. rewrite !io_bind_input in H.
    io_inv H as syncing_orgs w1 Horgs. rewrite io_bind_print in H.
    io_inv H as u1 w2 Hex. io_inv H as contacts_to_create w3 Hcollect.
    rewrite io_bind_print, io_bind_input in H.
    apply String.eqb_neq in Hconfirm. by rewrite Hconfirm in H.
  - intros e w' H. split.
    + eapply (keeps_main_cancelled (requests_since _)); [..|by rewrite H];
        [apply requests_since_emit|apply requests_since_request|done|].
      by intros u.
    + eapply (keeps_main_cancelled same_sets (λ _, True));
        [..|by rewrite H]; done.
Qed.

(** ** More on the request executor *)

Section Retrying.

Variable network : nat → request → outcome.

Lemma first_success_result req n attempts :
  match (first_success network req n attempts).1 with
  | Some r =>
      status_code r < 400 ∧
      (n < (first_success network req n attempts).2)%nat ∧
      network (pred (first_success network req n attempts).2) req = Responds r
  | None => (first_success network req n attempts).2 = (n + attempts)%nat
  end.
Proof.
  revert n. induction attempts as [|k IH]; intros n; cbn [first_success].
  { cbn. lia. }
  destruct (network n req) as [r|] eqn:Hnet.
  - destruct (status_code r <? 400) eqn:Hlt.
    + cbn [fst snd pred]. apply Z.ltb_lt in Hlt. by repeat split; [|lia|].
    + specialize (IH (S n)). destruct (first_success network req (S n) k).1;
        [|lia]. destruct IH as (? & ? & ?). by repeat split; [|lia|].
  - specialize (IH (S n)). destruct (first_success network req (S n) k).1;
      [|lia]. destruct IH as (? & ? & ?). by repeat split; [|lia|].
Qed.

(** X3. [safe_request] never raises and needs no fuel, whatever the
    transport does: it returns after at most [max_retries] requests,
    leaving the sets alone.  What it returns is either a response of status
    below 400, the answer to the last request made, or [None] after
    exactly [max_retries] requests. *)
Theorem safe_request_returns_response_below_400_or_none
    (method : string) (u : url) (headers : list (string * string))
    (json : option value) (max_retries : nat) (w : world) :
  ∃ resp w',
    safe_request network method u headers json max_retries w = Returns resp w' ∧
    (clock w ≤ clock w' ≤ clock w + max_retries)%nat ∧
    sets w' = sets w ∧
    match resp with
    | Some r =>
        status_code r < 400 ∧ (clock w < clock w')%nat ∧
        network (pred (clock w')) (request_of method u headers json) = Responds r
    | None => clock w' = (clock w + max_retries)%nat
    end.
Proof.
  destruct (safe_request_first_success network method u headers json
              max_retries w) as (w' & evs & Hrun & Hc & _ & Hs).
  eexists _, w'. split; [exact Hrun|]. rewrite Hc.
  split; [apply first_success_clock|]. split; [done|].
  apply first_success_result.
Qed.

Lemma safe_request_attempts_until_success req pre :
  ∀ attempt rest resp w r,
    (∀ j, (j < length pre)%nat → attempt_fails (network (clock w + j) req)) →
    network (clock w + length pre) req = Responds r →
    status_code r < 400 →
    ∃ w' evs,
      safe_request_attempts network req (pre ++ attempt :: rest) resp w
      = Returns (Some r) w' ∧
      advanced w (S (length pre)) evs w' ∧
      without_prints evs
      = flat_map (λ a, [EvRequest req; EvSleep (2 ^ a)]) pre ++ [EvRequest req].
Proof.
  induction pre as [|a pre IH]; intros attempt rest resp w r Hfail Hnet Hlt.
  { cbn [length app] in *. rewrite Nat.add_0_r in Hnet.
    rewrite (safe_request_attempt_succeeds _ _ _ _ _ _ _ Hnet Hlt).
    eexists _, [EvRequest req]. split; [done|]. split; [|done].
    unfold advanced. cbn. split; [lia|done]. }
  cbn [app length flat_map].
  destruct (safe_request_attempt_fails network req a (pre ++ attempt :: rest)
              resp w) as (lg & resp' & -> & Hlg).
  { specialize (Hfail 0%nat). rewrite Nat.add_0_r in Hfail. apply Hfail.
    cbn. lia. }
  edestruct (IH attempt rest resp') as (w' & evs & -> & (Hc & Ht & Hs) & Hev).
  { intros j Hj. cbn [clock].
    replace (S (clock w) + j)%nat with (clock w + S j)%nat by lia.
    apply Hfail. cbn. lia. }
  { cbn [clock].
    replace (S (clock w) + length pre)%nat
      with (clock w + S (length pre))%nat by lia. exact Hnet. }
  { done. }
  cbn [clock trace sets] in *.
  eexists w', (EvRequest req :: lg ++ [EvSleep (2 ^ a)] ++ evs).
  split; [done|]. split.
  - unfold advanced. rewrite Hc, Ht, Hs. split; [lia|]. split; [|done].
    rewrite <- !app_assoc. cbn [app]. by rewrite <- !app_assoc.
  - change (EvRequest req :: lg ++ [EvSleep (2 ^ a)] ++ evs)
      with ([EvRequest req] ++ lg ++ [EvSleep (2 ^ a)] ++ evs).
    rewrite !without_prints_app, (without_prints_logged _ Hlg), Hev. done.
Qed.

(** X4. When the first [k] attempts fail (the transport raises or the
    status is 400 or more) and attempt [k], still within the bound, is
    answered with a status below 400, [safe_request] returns that answer
    after exactly [k + 1] requests, having slept 1, 2, ..., [2^(k-1)]
    seconds between them and not after the last. *)
Theorem safe_request_retries_until_first_success
    (method : string) (u : url) (headers : list (string * string))
    (json : option value) (max_retries k : nat) (w : world) (r : response) :
  (k < max_retries)%nat →
  (∀ i, (i < k)%nat →
        attempt_fails (network (clock w + i) (request_of method u headers json))) →
  network (clock w + k) (request_of method u headers json) = Responds r →
  status_code r < 400 →
  ∃ w' evs,
    safe_request network method u headers json max_retries w
    = Returns (Some r) w' ∧
    advanced w (S k) evs w' ∧
    without_prints evs
    = flat_map (λ i, [EvRequest (request_of method u headers json);
                      EvSleep (2 ^ i)]) (range k)
      ++ [EvRequest (request_of method u headers json)] ∧
    sleeps evs = (λ i, 2 ^ i) <$> range k.
Proof.
  intros Hk Hfail Hnet Hlt. unfold safe_request, range.
  replace max_retries with (k + S (max_retries - S k))%nat by lia.
  rewrite seq_app, fmap_app. cbn [seq fmap list_fmap].
  destruct (safe_request_attempts_until_success
              (request_of method u headers json) (Z.of_nat <$> seq 0 k)
              (Z.of_nat (0 + k)) (Z.of_nat <$> seq (S (0 + k)) (max_retries - S k))
              None w r) as (w' & evs & Hrun & Hadv & Hev).
  { rewrite length_fmap, length_seq. exact Hfail. }
  { by rewrite length_fmap, length_seq. }
  { done. }
  rewrite length_fmap, length_seq in Hadv.
  exists w', evs. do 3 (split; [done|]).
  assert (Hs : sleeps evs = sleeps (without_prints evs)).
  { clear. unfold sleeps, without_prints.
    induction evs as [|[] evs IH]; cbn; by rewrite <- ?IH. }
  rewrite Hs, Hev. clear. unfold sleeps.
  induction (Z.of_nat <$> seq 0 k) as [|a l IH]; [done|].
  cbn. by rewrite IH.
Qed.

End Retrying.

(** ** More on the classification *)

Lemma contact_syncs_with_items_app pre rest name :
  resource_objects pre →
  contact_syncs_with_items (pre ++ rest) name
  = if existsb (syncs_withb name) pre then Ok true
    else contact_syncs_with_items rest name.
Proof.
  induction 1 as [|item items Hitem _ IH]; [done|].
  destruct (resource_object_attributes _ Hitem) as (d & a & -> & Ha & Hattr).
  cbn [app contact_syncs_with_items existsb]. unfold syncs_withb at 1.
  rewrite !Hattr. cbn [py_get mbind result_bind]. rewrite Ha.
  cbn [py_get mbind result_bind].
  destruct (py_eq_str (default VNone (a !! "adapter-type-name")) name); [|done].
  cbn [mbind result_bind andb orb].
  by destruct (truthy (default VNone (a !! "sync"))).
Qed.

(** X5. On a document whose included items are resource objects (or that
    has no [included] member), [contact_syncs_with] returns normally, and
    returns [True] exactly when some included item has the adapter name
    asked for - compared as a string, letter case included - and a sync
    attribute that is true in Python's sense; [contact_has_ms_license]
    returns normally, and returns [True] exactly when some included item
    is of type "tags" and of resource type "Microsoft Licenses". *)
Theorem classifiers_return_whether_an_item_matches
    (contact_data : value) (items : list value) (target_adapter : string) :
  included_items contact_data items →
  resource_objects items →
  (∃ b, contact_syncs_with contact_data target_adapter = Ok b ∧
        (b = true ↔
         ∃ item, item ∈ items ∧
                 attr item "adapter-type-name" = VStr target_adapter ∧
                 truthy (attr item "sync") = true)) ∧
  (∃ b, contact_has_ms_license contact_data = Ok b ∧
        (b = true ↔
         ∃ item, item ∈ items ∧
                 member item "type" = VStr "tags" ∧
                 attr item "resource-type-name" = VStr "Microsoft Licenses")).
Proof.
  unfold included_items. intros Hinc Hres.
  unfold contact_syncs_with, contact_has_ms_license. rewrite Hinc.
  cbn [mbind result_bind py_iter].
  rewrite contact_syncs_with_items_existsb, contact_has_ms_license_items_existsb
    by done.
  split; eexists; (split; [done|]); rewrite existsb_elem_of.
  - by setoid_rewrite syncs_withb_true.
  - by setoid_rewrite license_tagb_true.
Qed.

(** X6. [contact_syncs_with] stops at the first matching item: what
    follows it in the included list is not looked at, whatever it is.  An
    entry that is not a JSON object and comes before any match makes the
    function raise [AttributeError]. *)
Theorem contact_syncs_with_stops_at_first_match
    (contact_data : value) (pre post : list value) (item : value)
    (target_adapter : string) :
  included_items contact_data (pre ++ item :: post) →
  resource_objects pre →
  (is_resource_object item = true →
   relationship_syncs target_adapter item →
   contact_syncs_with contact_data target_adapter = Ok true) ∧
  ((∀ d, item ≠ VDict d) →
   (∀ x, x ∈ pre → ¬ relationship_syncs target_adapter x) →
   contact_syncs_with contact_data target_adapter = Raise AttributeError).
Proof.
  unfold included_items. intros Hinc Hpre.
  unfold contact_syncs_with. rewrite Hinc. cbn [mbind result_bind py_iter].
  rewrite contact_syncs_with_items_app by done. split.
  - intros Hitem Hsync. destruct (existsb _ pre); [done|].
    change (item :: post) with ([item] ++ post).
    rewrite contact_syncs_with_items_app by by constructor.
    cbn [existsb]. by rewrite (proj2 (syncs_withb_true _ _) Hsync).
  - intros Hjunk Hnone.
    assert (existsb (syncs_withb target_adapter) pre = false) as ->.
    { apply not_true_is_false. rewrite existsb_elem_of.
      intros (x & Hx & Hs). apply (Hnone x Hx). by apply syncs_withb_true. }
    cbn [contact_syncs_with_items].
    destruct item as [| | | | |d]; try done. by destruct (Hjunk d).
Qed.

(** ** More on the contact filter *)

Lemma kept_of_Some licensed c contact_id contact_data :
  kept_of licensed c = Some (contact_id, contact_data) →
  contact_id = c.1 ∧ not_resp_or_not_200 c.2 = false ∧
  resp_json c.2 = Ok contact_data ∧
  ∃ items, included_items contact_data items ∧ keepsb licensed items = true.
Proof.
  unfold kept_of, included_items. destruct c as [cid resp]. cbn [fst snd].
  destruct (not_resp_or_not_200 resp); [done|].
  destruct (resp_json resp) as [data|]; [|done].
  destruct (py_get data "included" (VList [])) as [[| | | |items|]|] eqn:Hinc;
    try done.
  destruct (keepsb licensed items) eqn:Hk; [|done].
  intros [= <- <-]. do 3 (split; [done|]). by exists items.
Qed.

Lemma kept_of_ids licensed completed :
  (omap (kept_of licensed) completed).*1 `sublist_of` completed.*1.
Proof.
  induction completed as [|c completed IH]; [done|].
  rewrite omap_cons. destruct (kept_of licensed c) as [[cid data]|] eqn:E.
  - apply kept_of_Some in E as [-> _]. cbn [fmap list_fmap fst].
    by apply sublist_skip.
  - cbn [fmap list_fmap]. by apply sublist_cons.
Qed.

(** X7. The licensed and the unlicensed selection split the
    Microsoft-only contacts: over the same completed fetches, no contact
    is kept by both filter loops, and a contact is kept by one of them
    exactly when its fetch succeeded with status 200 and its detail has a
    syncing Microsoft relationship and no syncing Autotask one. *)
Theorem licensed_and_unlicensed_split_the_microsoft_only_contacts
    (completed : list (value * option response)) (w : world)
    (with_license without_license : list (value * value)) (w1 w2 : world) :
  filter_completed completed true [] w = Returns with_license w1 →
  filter_completed completed false [] w = Returns without_license w2 →
  (∀ c, c ∈ with_license → c ∉ without_license) ∧
  (∀ contact_id contact_data,
     (contact_id, contact_data) ∈ with_license ∨
     (contact_id, contact_data) ∈ without_license ↔
     ∃ resp items,
       (contact_id, resp) ∈ completed ∧
       not_resp_or_not_200 resp = false ∧
       resp_json resp = Ok contact_data ∧
       included_items contact_data items ∧
       (∃ item, item ∈ items ∧ relationship_syncs "Microsoft" item) ∧
       ¬ (∃ item, item ∈ items ∧ relationship_syncs "Autotask" item)).
Proof.
  intros H1 H2.
  apply filter_completed_returns in H1 as ->.
  apply filter_completed_returns in H2 as ->. cbn [app].
  assert (Hin : ∀ licensed cid data,
            (cid, data) ∈ omap (kept_of licensed) completed ↔
            ∃ resp items,
              (cid, resp) ∈ completed ∧ not_resp_or_not_200 resp = false ∧
              resp_json resp = Ok data ∧ included_items data items ∧
              keepsb licensed items = true).
  { intros licensed cid data. rewrite list_elem_of_omap. split.
    - intros ([cid' resp] & Hc & Hk).
      apply kept_of_Some in Hk as (-> & ? & ? & items & ? & ?).
      by exists resp, items.
    - intros (resp & items & Hc & Hfail & Hjson & Hinc & Hk).
      exists (cid, resp). split; [done|]. unfold kept_of. cbn [fst snd].
      unfold included_items in Hinc. by rewrite Hfail, Hjson, Hinc, Hk. }
  split.
  - intros [cid data] Ha Hb. apply Hin in Ha as (_ & items & _ & _ & _ & Hi & Hk).
    apply Hin in Hb as (_ & items' & _ & _ & _ & Hi' & Hk').
    unfold included_items in *. rewrite Hi in Hi'. injection Hi' as <-.
    unfold keepsb in *. cbn [andb negb orb] in *.
    destruct (existsb license_tagb items);
      destruct (existsb (syncs_withb "Microsoft") items);
      destruct (existsb (syncs_withb "Autotask") items); done.
  - intros cid data. rewrite !Hin. split.
    + intros [(resp & items & ? & ? & ? & ? & Hk)|(resp & items & ? & ? & ? & ? & Hk)];
        exists resp, items; apply keepsb_true in Hk as (? & ? & _); done.
    + intros (resp & items & ? & ? & ? & ? & Hms & Hat).
      destruct (existsb license_tagb items) eqn:Hlic.
      * left. exists resp, items. do 4 (split; [done|]).
        apply keepsb_true. do 2 (split; [done|]).
        apply existsb_elem_of in Hlic. by setoid_rewrite license_tagb_true in Hlic.
      * right. exists resp, items. do 4 (split; [done|]).
        apply keepsb_true. do 2 (split; [done|]).
        intros Hex. apply not_true_iff_false in Hlic. apply Hlic.
        apply existsb_elem_of. by setoid_rewrite license_tagb_true.
Qed.

Section Listing.

Variable network : nat → request → outcome.

Lemma fetch_contact_details_returns contact_id org_id headers w :
  ∃ resp w',
    fetch_contact_details network contact_id org_id headers w
    = Returns (contact_id, resp) w' ∧
    (clock w ≤ clock w' ≤ clock w + 5)%nat.
Proof.
  unfold fetch_contact_details.
  destruct (safe_request_first_success network "GET"
              (ContactDetailUrl org_id contact_id) headers None 5
              {| clock := clock w; trace := trace w ++ [EvThrottle];
                 sets := sets w |}) as (w' & evs & Hrun & Hc & _ & _).
  eexists _, w'. split.
  - unfold mbind at 1, io_bind at 1, emit at 1.
    by rewrite (io_bind_returns _ _ _ _ _ Hrun).
  - rewrite Hc. apply (first_success_clock network _ (clock w) 5).
Qed.

Lemma fetch_all_contact_details org_id headers contact_ids :
  ∀ w, ∃ completed w',
    mapM (λ cid, fetch_contact_details network cid org_id headers) contact_ids w
    = Returns completed w' ∧
    completed.*1 = contact_ids ∧
    (clock w ≤ clock w' ≤ clock w + 5 * length contact_ids)%nat.
Proof.
  induction contact_ids as [|cid contact_ids IH]; intros w.
  { exists [], w. cbn. split; [done|]. split; [done|lia]. }
  destruct (fetch_contact_details_returns cid org_id headers w)
    as (resp & w1 & Hrun & Hc).
  destruct (IH w1) as (completed & w' & Hrest & Hids & Hc').
  exists ((cid, resp) :: completed), w'. cbn [mapM].
  rewrite (io_bind_returns _ _ _ _ _ Hrun), (io_bind_returns _ _ _ _ _ Hrest).
  split; [done|]. split; [cbn; by rewrite Hids|]. cbn [length]. lia.
Qed.

(** X8. The contacts [get_microsoft_only_contacts] returns come from the
    listing of the organization: their identifiers are, in the order in
    which the detail fetches completed, identifiers that
    [get_all_contact_ids] returned.  After the listing the function makes
    at most five requests per listed contact, and it changes no set. *)
Theorem microsoft_only_contacts_come_from_the_listing
    (completion_order : list value → list value) (fuel : nat)
    (api_key : string) (org_id : value) (licensed : bool) (w : world)
    (ms_only_contacts : list (value * value)) (w' : world) :
  get_microsoft_only_contacts network completion_order fuel api_key org_id
    licensed w = Returns ms_only_contacts w' →
  ∃ contact_ids w1,
    get_all_contact_ids network fuel api_key org_id w = Returns contact_ids w1 ∧
    ms_only_contacts.*1 `sublist_of` completion_order contact_ids ∧
    (clock w1 ≤ clock w'
     ≤ clock w1 + 5 * length (completion_order contact_ids))%nat ∧
    sets w' = sets w.
Proof.
  intros H.
  assert (Hsets : sets w' = sets w).
  { eapply (keeps_get_microsoft_only_contacts same_sets (λ _, True));
      [done..|by rewrite H]. }
  unfold get_microsoft_only_contacts in H.
  io_inv H as contact_ids w1 Hids. exists contact_ids, w1. split; [done|].
  destruct (fetch_all_contact_details org_id (itglue_headers api_key)
              (completion_order contact_ids) w1)
    as (completed & w2 & Hfetch & Hfst & Hc).
  rewrite (io_bind_returns _ _ _ _ _ Hfetch) in H.
  assert (Hclock : clock w' = clock w2).
  { eapply (keeps_filter_completed same_clock); [done|by rewrite H]. }
  apply filter_completed_returns in H as ->. cbn [app].
  split; [rewrite <- Hfst; apply kept_of_ids|]. split; [lia|done].
Qed.

End Listing.

(** ** More on the field extractor *)

Lemma add_if_truthy_string (acc acc' : list string) (val : value) :
  (if truthy val then add_stripped acc val else Ok acc) = Ok acc' →
  truthy val = true → ∃ s, val = VStr s.
Proof. intros H Ht. rewrite Ht in H. destruct val; try done. eauto. Qed.

Lemma for_each_add_stripped_strings {A} (get : A → result value) (g : A → value) l :
  (∀ x v, get x = Ok v → v = g x) →
  ∀ acc acc',
    for_each (λ acc x, val ← get x;
                if truthy val then add_stripped acc val else Ok acc) l acc
      = Ok acc' →
    ∀ x, x ∈ l → truthy (g x) = true → ∃ s, g x = VStr s.
Proof.
  intros Hget. induction l as [|x l IH]; intros acc acc' H y Hy;
    [by apply elem_of_nil in Hy|].
  cbn [for_each] in H. inv_bind H as acc1 E. inv_bind E as val Ev.
  apply Hget in Ev as ->. apply elem_of_cons in Hy as [->|Hy].
  - by eapply add_if_truthy_string.
  - by eapply IH.
Qed.

Lemma for_each_flat_phones attrs l :
  ∀ acc acc',
    for_each (λ phones field,
        val ← py_get attrs field VNone;
        if truthy val then
          s ← py_strip val;
          if negb (String.eqb (lower s) "n/a") then add_stripped phones val
          else Ok phones
        else Ok phones) l acc = Ok acc' →
    acc' = acc ++ omap (λ field, phone_of_field (get_or attrs field VNone)) l ∧
    ∀ field, field ∈ l → truthy (get_or attrs field VNone) = true →
             ∃ s, get_or attrs field VNone = VStr s.
Proof.
  induction l as [|x l IH]; intros acc acc' H; cbn [for_each] in H.
  { injection H as <-. cbn. rewrite app_nil_r. split; [done|].
    intros field Hf. by apply elem_of_nil in Hf. }
  inv_bind H as acc1 E. inv_bind E as val Ev. apply py_get_ok in Ev as ->.
  apply IH in H as [-> Hrest]. rewrite omap_cons.
  set (val := get_or attrs x VNone) in *.
  assert (acc1 = acc ++ option_list (phone_of_field val) ∧
          (truthy val = true → ∃ s, val = VStr s)) as [-> Hval].
  { unfold phone_of_field, stripped. destruct (truthy val) eqn:Ht.
    - destruct val as [| | |s| |]; try discriminate. cbn [py_strip] in E.
      cbn [mbind result_bind] in E. split; [|by eauto].
      destruct (String.eqb (lower (strip s)) "n/a"); cbn [negb] in E.
      + injection E as <-. cbn. by rewrite app_nil_r.
      + cbn in E. by injection E as <-.
    - injection E as <-. split; [|done].
      destruct val; cbn [option_list]; by rewrite app_nil_r. }
  split; [rewrite <- app_assoc; by destruct (phone_of_field val)|].
  intros field Hf. apply elem_of_cons in Hf as [->|Hf]; [done|by apply Hrest].
Qed.

Lemma method_step_phones emails phones item emails' phones' :
  method_step (emails, phones) item = Ok (emails', phones') →
  phones' = phones ++ option_list (phone_of_method item).
Proof.
  unfold method_step, phone_of_method. intros H.
  inv_bind H as ty E. apply py_get_ok in E as ->.
  destruct (py_eq_str (get_or item "type" VNone) "contact_methods");
    cbn [andb]; last first.
  { injection H as <- <-.
    destruct (get_or _ "label" _); cbn [option_list]; by rewrite app_nil_r. }
  inv_bind H as attr E. apply py_get_ok in E as ->.
  inv_bind H as lbl E. inv_bind E as lv El. apply py_get_ok in El as ->.
  destruct (get_or (get_or item "attributes" (VDict ∅)) "label" (VStr ""))
    as [| | |label| |]; try discriminate.
  injection E as <-.
  inv_bind H as val E. apply py_get_ok in E as ->.
  set (val := get_or (get_or item "attributes" (VDict ∅)) "value" (VStr "")) in *.
  destruct (truthy val) eqn:Ht.
  - destruct (contains "email" (lower label)); cbn [negb andb].
    + inv_bind H as emails1 E. injection H as <- <-. by rewrite app_nil_r.
    + destruct (_ || _ || _).
      * inv_bind H as phones1 E. injection H as <- <-.
        destruct val; try discriminate. unfold stripped. rewrite Ht.
        cbn in E. by injection E as <-.
      * injection H as <- <-. by rewrite app_nil_r.
  - injection H as <- <-. rewrite stripped_falsy by done.
    destruct (negb _ && _); cbn [option_list]; by rewrite app_nil_r.
Qed.

Lemma for_each_method_step_phones l :
  ∀ emails phones emails' phones',
    for_each method_step l (emails, phones) = Ok (emails', phones') →
    phones' = phones ++ omap phone_of_method l.
Proof.
  induction l as [|item l IH]; intros emails phones emails' phones' H;
    cbn [for_each] in H.
  { injection H as <- <-. cbn. by rewrite app_nil_r. }
  inv_bind H as acc1 E. destruct acc1 as [emails1 phones1].
  apply method_step_phones in E as ->. apply IH in H as ->.
  rewrite omap_cons, <- app_assoc. by destruct (phone_of_method item).
Qed.

(** What a returning call of the extractor has read. *)
Lemma extract_returns set_order contact_data emails phones :
  extract_emails_and_phones set_order contact_data = Ok (emails, phones) →
  emails = set_order (trimmed_emails contact_data) ∧
  phones = set_order (trimmed_phones contact_data) ∧
  ∀ v, v ∈ attribute_values contact_data → truthy v = true → ∃ s, v = VStr s.
Proof.
  intros H. split; [by eapply extract_emails_are_trimmed_sources|].
  revert H.
  unfold extract_emails_and_phones, trimmed_phones, attribute_values,
    contact_attributes.
  intros H.
  inv_bind H as attrs Ea. inv_bind Ea as data Ed.
  apply py_get_ok in Ed as ->. apply py_get_ok in Ea as ->.
  set (attrs := get_or (get_or contact_data "data" (VDict ∅)) "attributes"
                  (VDict ∅)) in *.
  inv_bind H as email_entries Ee. inv_bind Ee as ce Ec.
  apply py_get_ok in Ec as ->. apply py_iter_ok in Ee as ->.
  inv_bind H as emails1 E1.
  pose proof (for_each_add_stripped_strings _
                (λ entry, get_or entry "value" VNone) _
                (λ x v, py_get_ok x "value" VNone v) _ _ E1) as S1.
  inv_bind H as phone_entries Ep. inv_bind Ep as cp Ecp.
  apply py_get_ok in Ecp as ->. apply py_iter_ok in Ep as ->.
  inv_bind H as phones1 Ep1.
  pose proof (for_each_add_stripped_strings _
                (λ entry, get_or entry "value" VNone) _
                (λ x v, py_get_ok x "value" VNone v) _ _ Ep1) as S2.
  apply (for_each_add_stripped _ (λ entry, get_or entry "value" VNone)) in Ep1
    as ->; [|by intros; eapply py_get_ok].
  inv_bind H as emails2 E2.
  pose proof (for_each_add_stripped_strings _
                (λ field, get_or attrs field VNone) _
                (λ x v, py_get_ok attrs x VNone v) _ _ E2) as S3.
  inv_bind H as phones2 Ep2. apply for_each_flat_phones in Ep2 as [-> S4].
  inv_bind H as included Ei. inv_bind Ei as inc Ei'.
  apply py_get_ok in Ei' as ->. apply py_iter_ok in Ei as ->.
  inv_bind H as acc3 E3. destruct acc3 as [emails3 phones3].
  apply for_each_method_step_phones in E3 as ->.
  injection H as <- <-. split; [cbn [app]; by rewrite <- app_assoc|].
  intros v Hv Ht. rewrite !elem_of_app, !list_elem_of_fmap in Hv.
  destruct Hv as [(x & -> & Hx)|[(x & -> & Hx)|(x & -> & Hx)]].
  - by apply S1.
  - by apply S2.
  - change (x ∈ ["emailAddress"; "emailAddress2"; "emailAddress3"]
                ++ ["phone"; "mobilePhone"; "alternatePhone"; "faxNumber";
                    "extension"]) in Hx.
    apply elem_of_app in Hx as [Hx|Hx]; [by apply S3|by apply S4].
Qed.

(** X9. The phones the extractor returns are, each once, the trimmed
    values of the structured phone entries, of the five flat phone fields
    - except a value that is "n/a" once trimmed and lower-cased - and of
    the contact methods whose label mentions "phone", "mobile" or "fax"
    and does not mention "email".  The placeholder is filtered in the flat
    fields only. *)
Theorem extracted_phones_are_the_trimmed_sources
    (set_order : list string → list string) (contact_data : value)
    (emails phones : list string) :
  lists_each_once set_order →
  extract_emails_and_phones set_order contact_data = Ok (emails, phones) →
  NoDup phones ∧ ∀ p, p ∈ phones ↔ p ∈ trimmed_phones contact_data.
Proof.
  intros Hset H. apply extract_returns in H as (_ & -> & _). apply Hset.
Qed.

(** X10. The extractor returns normally only on strings: when it returns,
    every value it has read from the structured entries and from the eight
    flat fields is a string or is false in Python's sense ([None], [""],
    [0], [False], an empty list or object).  A number or any other true
    value there makes it raise. *)
Theorem extractor_reads_strings_only
    (set_order : list string → list string) (contact_data : value)
    (emails phones : list string) :
  extract_emails_and_phones set_order contact_data = Ok (emails, phones) →
  ∀ v, v ∈ attribute_values contact_data →
       truthy v = false ∨ ∃ s, v = VStr s.
Proof.
  intros H v Hv. apply extract_returns in H as (_ & _ & Hstr).
  destruct (truthy v) eqn:Ht; [right; by apply Hstr|by left].
Qed.

(** X11. A value made of blanks only is not dropped: it is true in
    Python's sense, and trimmed it is the empty string.  When one of the
    three flat email fields holds such a value, the empty string is among
    the emails returned. *)
Theorem blank_email_is_extracted_as_empty_string
    (set_order : list string → list string) (contact_data : value)
    (emails phones : list string) (field s : string) :
  lists_each_once set_order →
  extract_emails_and_phones set_order contact_data = Ok (emails, phones) →
  field ∈ ["emailAddress"; "emailAddress2"; "emailAddress3"] →
  get_or (contact_attributes contact_data) field VNone = VStr s →
  s ≠ "" → strip s = "" →
  "" ∈ emails.
Proof.
  intros Hset H Hfield Hs Hne Hblank.
  apply extract_returns in H as (-> & _ & _). apply Hset.
  unfold trimmed_emails. rewrite !elem_of_app. right. left.
  apply list_elem_of_omap. exists field. split; [done|].
  unfold contact_attributes in Hs. rewrite Hs. unfold stripped. cbn [truthy].
  apply String.eqb_neq in Hne. by rewrite Hne, Hblank.
Qed.

(** ** The emails known to Autotask *)

Lemma item_email_normal item email :
  item_email item = Ok email → ∃ raw, email = lower (strip raw).
Proof.
  unfold item_email. intros H. inv_bind H as raw Hraw.
  by apply normalized_email_form in H.
Qed.

Lemma set_at_set_add s x w s' :
  ∀ w', set_add s x w = Returns () w' →
        clock w' = clock w ∧ trace w' = trace w ∧
        set_at w' s' = if decide (s' = s) then set_at w s ∪ {[x]} else set_at w s'.
Proof.
  intros w' [= <-]. do 2 (split; [done|]). rewrite set_at_insert.
  destruct (decide (s = s')) as [->|]; [by rewrite decide_True|].
  by rewrite decide_False.
Qed.

(** The loop over the items of a page, lines 174-177. *)
Lemma collect_existing_returns (existing_emails : nat) items :
  ∀ w w',
    io_for_each (λ item,
        email ← lift (py_get item "emailAddress" VNone ≫= normalized_email);
        if negb (String.eqb email "") then set_add existing_emails email
        else mret ())
      items w = Returns () w' →
    clock w' = clock w ∧
    ∀ s, set_at w' s
         = if decide (s = existing_emails)
           then set_at w existing_emails ∪ list_to_set (omap known_email items)
           else set_at w s.
Proof.
  induction items as [|item items IH]; intros w w' H; cbn [io_for_each] in H.
  { injection H as <-. split; [done|]. intros s. destruct (decide _) as [->|];
      [|done]. cbn [omap list_omap list_to_set]. by rewrite (right_id_L ∅ (∪)). }
  io_inv H as u w1 Hbody. lift_inv Hbody as email He.
  apply IH in H as [Hc Hs]. rewrite omap_cons. unfold known_email at 1, item_email.
  rewrite He. destruct (String.eqb email "") eqn:Hempty; cbn [negb] in Hbody.
  - by injection Hbody as _ <-.
  - destruct u. split.
    + rewrite Hc. by apply (set_at_set_add _ _ _ 0%nat) in Hbody as (-> & _).
    + intros s. rewrite Hs.
      pose proof (set_at_set_add _ _ _ s _ Hbody) as (_ & _ & Hs1).
      pose proof (set_at_set_add _ _ _ existing_emails _ Hbody) as (_ & _ & Hs2).
      rewrite decide_True in Hs2 by done.
      destruct (decide (s = existing_emails)) as [->|]; [|done].
      rewrite Hs2. cbn [list_to_set]. by rewrite (assoc_L (∪)).
Qed.

Lemma collect_existing_items_returns (existing_emails : nat) items :
  Forall contact_item items →
  ∀ w, ∃ w',
    io_for_each (λ item,
        email ← lift (py_get item "emailAddress" VNone ≫= normalized_email);
        if negb (String.eqb email "") then set_add existing_emails email
        else mret ())
      items w = Returns () w'.
Proof.
  induction 1 as [|item items [email He] _ IH]; intros w; cbn [io_for_each].
  { by exists w. }
  unfold mbind at 1, io_bind at 1. cbn beta.
  unfold item_email in He. rewrite (io_bind_lift_ok _ _ _ _ He).
  destruct (negb (String.eqb email "")); apply IH.
Qed.

Section Known.

Variable network : nat → request → outcome.

(** What a returning call of the loop of [get_existing_autotask_contacts]
    has done to the sets: it has added emails to its own set, each of them
    the email of an item. *)
Lemma get_existing_loop_returns fuel headers company_id existing_emails :
  ∀ u w w',
    get_existing_autotask_contacts_loop network fuel headers company_id u
      existing_emails w = Returns () w' →
    (∀ s, s ≠ existing_emails → set_at w' s = set_at w s) ∧
    ∀ email, email ∈ set_at w' existing_emails →
             email ∈ set_at w existing_emails ∨
             ∃ item, known_email item = Some email.
Proof.
  induction fuel as [|fuel IH]; intros u w w' H; [done|].
  cbn [get_existing_autotask_contacts_loop] in H.
  destruct (url_truthy u); [|injection H as <-; by auto].
  io_inv H as resp w1 Hreq.
  destruct (safe_request_first_success network "GET" u headers None 5 w)
    as (w1' & evs & Hrun & _ & _ & Hs1).
  rewrite Hrun in Hreq. injection Hreq as _ <-.
  assert (Hw1 : ∀ s, set_at w1' s = set_at w s).
  { intros s. unfold set_at. by rewrite Hs1. }
  destruct (not_resp_or_not_200 resp).
  { injection H as <-. split; [intros; apply Hw1|].
    intros email. unfold set_at at 1. cbn [sets]. fold (set_at w1' existing_emails).
    rewrite Hw1. by left. }
  lift_inv H as data Hd. lift_inv H as items Hi.
  io_inv H as u1 w2 Hloop. destruct u1.
  apply collect_existing_returns in Hloop as [_ Hs2].
  lift_inv H as next Hn. apply IH in H as [Hother Hin]. split.
  - intros s Hne. rewrite Hother, Hs2, decide_False, Hw1 by done. done.
  - intros email He. apply Hin in He as [He|He]; [|by right].
    rewrite Hs2, decide_True, Hw1 in He by done.
    apply elem_of_union in He as [He|He]; [by left|right].
    apply elem_of_list_to_set, list_elem_of_omap in He as (item & _ & He).
    by exists item.
Qed.

Lemma known_email_normal item email :
  known_email item = Some email → normal_email email.
Proof.
  unfold known_email. destruct (item_email item) as [e|] eqn:He; [|done].
  destruct (String.eqb e "") eqn:Hne; [done|]. intros [= <-].
  apply String.eqb_neq in Hne. apply item_email_normal in He. by split.
Qed.

(** X12. The set [get_existing_autotask_contacts] returns is a new one
    (no set of the store is changed), and whatever the service has
    answered, every email in it is non-empty and is a string trimmed and
    then lower-cased: the form in which [create_contact_in_autotask] looks
    a candidate up. *)
Theorem existing_emails_are_trimmed_and_lower_case
    (fuel : nat) (base_url : string) (headers : list (string * string))
    (company_id : value) (w : world) (existing_emails : nat) (w' : world) :
  get_existing_autotask_contacts network fuel base_url headers company_id w
    = Returns existing_emails w' →
  sets w !! existing_emails = None ∧
  (∀ s, s ≠ existing_emails → set_at w' s = set_at w s) ∧
  ∀ email, email ∈ set_at w' existing_emails → normal_email email.
Proof.
  unfold get_existing_autotask_contacts. intros H.
  io_inv H as s w1 Hnew. unfold set_new in Hnew. injection Hnew as <- <-.
  io_inv H as u w2 Hloop. destruct u. injection H as <- <-.
  apply get_existing_loop_returns in Hloop as [Hother Hin].
  set (s := fresh (dom (sets w))) in *.
  assert (Hfresh : sets w !! s = None).
  { apply not_elem_of_dom, is_fresh. }
  split; [done|]. split.
  - intros s' Hne. rewrite Hother by done. rewrite set_at_insert.
    by rewrite decide_False.
  - intros email He. apply Hin in He as [He|[item He]].
    + rewrite set_at_insert, decide_True in He by done. set_solver.
    + by eapply known_email_normal.
Qed.

Lemma get_existing_loop_served headers company_id existing_emails pages :
  ∀ n u n' u' n'' fuel w,
    contact_pages_served network headers n u pages n' u' →
    walk_end network headers n' u' n'' →
    clock w = n →
    (length pages < fuel)%nat →
    ∃ w',
      get_existing_autotask_contacts_loop network fuel headers company_id u
        existing_emails w = Returns () w' ∧
      clock w' = n'' ∧
      set_at w' existing_emails
      = set_at w existing_emails ∪ list_to_set (omap known_email (concat pages)).
Proof.
  induction pages as [|items pages IH];
    intros n u n' u' n'' fuel w Hserved Hend Hw Hfuel;
    inversion Hserved; subst; (destruct fuel as [|fuel]; [cbn in Hfuel; lia|]);
    cbn [get_existing_autotask_contacts_loop].
  - destruct Hend as [Hu | resp n'' Hu Hfs Hfail].
    + rewrite Hu. exists w. cbn [concat omap list_omap list_to_set].
      split; [done|]. split; [done|by rewrite (right_id_L ∅ (∪))].
    + rewrite Hu.
      destruct (safe_request_first_success network "GET" u' headers None 5 w)
        as (w1 & evs & Hrun & Hc & Ht & Hs).
      rewrite Hfs in Hrun, Hc. cbn [fst snd] in Hrun, Hc.
      rewrite (io_bind_returns _ _ _ _ _ Hrun), Hfail.
      eexists. split; [done|]. cbn [clock]. split; [done|].
      unfold set_at. cbn [sets concat omap list_omap list_to_set]. rewrite Hs.
      by rewrite (right_id_L ∅ (∪)).
  - match goal with H : url_truthy u = true |- _ => rewrite H end.
    destruct (safe_request_first_success network "GET" u headers None 5 w)
      as (w1 & evs & Hrun & Hc & Ht & Hs).
    match goal with
    | H : first_success _ _ _ _ = _ |- _ => rewrite H in Hrun, Hc
    end.
    cbn [fst snd] in Hrun, Hc.
    rewrite (io_bind_returns _ _ _ _ _ Hrun), ok_200_usable by done.
    match goal with
    | H : contacts_page _ _ _ |- _ =>
        destruct H as (d & details & -> & Hitems & Hdetails & Hnext)
    end.
    assert (Hjson : resp_json (Some r) = Ok (VDict d)).
    { unfold resp_json.
      by match goal with H : json_body r = _ |- _ => rewrite H end. }
    rewrite (io_bind_lift_ok _ _ _ _ Hjson).
    cbn [py_get]. rewrite Hitems. cbn [mbind result_bind py_iter].
    rewrite (io_bind_lift_ok _ _ _ items eq_refl).
    match goal with
    | H : Forall contact_item items |- _ =>
        destruct (collect_existing_items_returns existing_emails items H w1)
          as (w2 & Hloop)
    end.
    rewrite (io_bind_returns _ _ _ _ _ Hloop).
    apply collect_existing_returns in Hloop as [Hc2 Hs2].
    rewrite Hdetails. cbn [py_get mbind result_bind].
    rewrite (io_bind_lift_ok _ _ _ _ eq_refl). rewrite Hnext.
    edestruct (IH n1 (Href (if truthy next then next else VNone)) n' u' n''
                 fuel w2) as (w' & Hrun' & Hc' & Hs'); [done..|congruence| |].
    { cbn in Hfuel. lia. }
    exists w'. split; [done|]. split; [done|].
    rewrite Hs', Hs2, decide_True by done. unfold set_at at 1. rewrite Hs.
    fold (set_at w existing_emails). cbn [concat]. rewrite omap_app.
    rewrite list_to_set_app_L. by rewrite (assoc_L (∪)).
Qed.

Lemma get_existing_served
    (base_url : string) (headers : list (string * string)) (company_id : value)
    (pages : list (list value)) (w : world) (n' n'' : nat) (u' : url) :
  contact_pages_served network headers (clock w)
    (CompanyContactsUrl base_url company_id) pages n' u' →
  walk_end network headers n' u' n'' →
  ∀ fuel, (length pages < fuel)%nat →
    ∃ existing_emails w',
      get_existing_autotask_contacts network fuel base_url headers company_id w
        = Returns existing_emails w' ∧
      sets w !! existing_emails = None ∧
      set_at w' existing_emails = list_to_set (omap known_email (concat pages)) ∧
      clock w' = n''.
Proof.
  intros Hserved Hend fuel Hfuel. unfold get_existing_autotask_contacts.
  set (s := fresh (dom (sets w))).
  set (w1 := {| clock := clock w; trace := trace w; sets := <[s := ∅]> (sets w) |}).
  destruct (get_existing_loop_served headers company_id s pages _ _ _ _ _ fuel
              w1 Hserved Hend eq_refl Hfuel) as (w' & Hrun & Hc & Hs).
  exists s, w'. split.
  - unfold mbind at 1, io_bind at 1, set_new. fold s. fold w1.
    by rewrite (io_bind_returns _ _ _ _ _ Hrun).
  - split; [apply not_elem_of_dom, is_fresh|]. split; [|done].
    rewrite Hs. unfold w1. rewrite set_at_insert, decide_True by done.
    by rewrite (left_id_L ∅ (∪)).
Qed.


(** X13. When the fetch of the contacts of a company and of the successive
    next-page URLs yields N pages (each a 200 response whose items have a
    readable email address), [get_existing_autotask_contacts] returns, for
    every sufficient fuel, a new set that holds exactly the non-empty
    emails of the items of the N pages, trimmed and lower-cased - both when
    page N names no next page and when the fetch of the page after it
    fails.  In particular, when the first fetch fails the set is empty. *)
Theorem existing_contacts_are_the_emails_of_the_pages
    (base_url : string) (headers : list (string * string)) (company_id : value)
    (pages : list (list value)) (w : world) (n' n'' : nat) (u' : url) :
  contact_pages_served network headers (clock w)
    (CompanyContactsUrl base_url company_id) pages n' u' →
  walk_end network headers n' u' n'' →
  ∀ fuel, (length pages < fuel)%nat →
    ∃ existing_emails w',
      get_existing_autotask_contacts network fuel base_url headers company_id w
        = Returns existing_emails w' ∧
      sets w !! existing_emails = None ∧
      set_at w' existing_emails = list_to_set (omap known_email (concat pages)) ∧
      clock w' = n''.
Proof. apply get_existing_served. Qed.

(** X24. A contact that Autotask already has is not created again: when
    the pages of the contacts of the company are served as above and one
    of their items has the email of the candidate - compared trimmed and
    lower-cased - the creation loop, starting with an empty cache, fetches
    the pages, skips the candidate and counts it as skipped.  It makes no
    request after the fetch of the pages: nothing is posted. *)
Theorem contact_known_to_autotask_is_not_created
    (fuel : nat) (base_url : string) (headers : list (string * string))
    (company_id payload : value) (k : key) (email : string)
    (pages : list (list value)) (item : value) (created_count : Z)
    (skipped : list (value * value)) (w : world) (n' n'' : nat) (u' : url) :
  py_hash company_id = Ok k →
  contact_pages_served network headers (clock w)
    (CompanyContactsUrl base_url company_id) pages n' u' →
  walk_end network headers n' u' n'' →
  (length pages < fuel)%nat →
  candidate_email payload = Ok email →
  item ∈ concat pages →
  known_email item = Some email →
  has_names (company_id, payload) →
  ∃ existing_emails w',
    create_contacts network fuel base_url headers [(company_id, payload)]
      ∅ created_count skipped w
    = Returns ({[k := existing_emails]}, created_count,
               skipped ++ [skipped_names (company_id, payload)]) w' ∧
    clock w' = n''.
Proof.
  intros Hk Hserved Hend Hfuel Hemail Hitem Hknown (f & l & Hf & Hl).
  cbn [snd] in Hf, Hl.
  destruct (get_existing_served base_url headers company_id pages w n' n'' u'
              Hserved Hend fuel Hfuel) as (s & w1 & Hget & _ & Hset & Hc).
  assert (Hne : email ≠ "").
  { by apply known_email_normal in Hknown as [? _]. }
  assert (Hin : email ∈ set_at w1 s).
  { rewrite Hset. apply elem_of_list_to_set, list_elem_of_omap. by exists item. }
  exists s, (logged w1 "[SKIP] Contact already exists in Autotask" [VStr email]).
  split; [|done]. cbn [create_contacts].
  rewrite (io_bind_lift_ok _ _ _ _ Hk), lookup_empty.
  assert (Hstep : (s0 ← get_existing_autotask_contacts network fuel base_url
                          headers company_id;
                   mret (<[k := s0]> (∅ : gmap key nat), s0)) w
                  = Returns (<[k := s]> ∅, s) w1).
  { by rewrite (io_bind_returns _ _ _ _ _ Hget). }
  rewrite (io_bind_returns _ _ _ _ _ Hstep). cbn beta iota.
  rewrite (io_bind_returns _ _ _ _ _
             (create_skips_duplicate network _ _ _ _ _ _ _ Hemail Hne Hin)).
  cbn beta iota. rewrite Hf, Hl. cbn [mbind result_bind].
  rewrite (io_bind_lift_ok _ _ _ _ eq_refl).
  apply py_getitem_member in Hf as ->. apply py_getitem_member in Hl as ->.
  by rewrite insert_empty.
Qed.

End Known.

(** ** More on the creation of a contact *)

Section Creating.

Variable network : nat → request → outcome.

(** What a call of [create_contact_in_autotask] that returns [True] has
    found and done. *)
Lemma create_returns_true base_url auth_headers company_id contact_data
    existing_emails_cache w w' :
  create_contact_in_autotask network base_url auth_headers company_id
    contact_data existing_emails_cache w = Returns true w' →
  ∃ email,
    candidate_email contact_data = Ok email ∧ email ≠ "" ∧
    (email ∉ set_at w existing_emails_cache) ∧
    truthy (member contact_data "lastName") = true ∧
    (clock w < clock w' ≤ clock w + 5)%nat ∧
    sets w' = <[existing_emails_cache :=
                  (set_at w existing_emails_cache ∪ {[email]})]> (sets w).
Proof.
  intros H.
  assert (∃ email, candidate_email contact_data = Ok email) as [email Hemail].
  { unfold create_contact_in_autotask in H. lift_inv H as email He. eauto. }
  exists email. split; [done|].
  destruct (decide (email = "")) as [Hempty|Hne].
  { destruct (create_skips_incomplete network base_url auth_headers company_id
                contact_data existing_emails_cache email w Hemail
                (or_intror Hempty)) as (w1 & Hrun & _).
    by rewrite Hrun in H. }
  split; [done|].
  destruct (decide (email ∈ set_at w existing_emails_cache)) as [Hin|Hnotin].
  { by rewrite (create_skips_duplicate _ _ _ _ _ _ _ _ Hemail Hne Hin) in H. }
  split; [done|].
  destruct (truthy (member contact_data "lastName")) eqn:Hlast; last first.
  { destruct (create_skips_incomplete network base_url auth_headers company_id
                contact_data existing_emails_cache email w Hemail
                (or_introl Hlast)) as (w1 & Hrun & _).
    by rewrite Hrun in H. }
  split; [done|].
  destruct (candidate_email_dict _ _ Hemail) as [d ->].
  rewrite (create_posts _ _ _ _ _ _ _ _ Hemail Hne Hnotin Hlast) in H.
  destruct (safe_request_first_success network "POST"
              (CompanyContactsUrl base_url company_id) auth_headers
              (req_json (create_request base_url auth_headers company_id
                           (VDict d) email)) 5 w)
    as (w1 & evs & Hrun & Hc & Ht & Hs).
  rewrite (io_bind_returns _ _ _ _ _ Hrun) in H.
  set (f := first_success network _ (clock w) 5) in *.
  pose proof (first_success_clock network
                (request_of "POST" (CompanyContactsUrl base_url company_id)
                   auth_headers
                   (req_json (create_request base_url auth_headers company_id
                                (VDict d) email))) (clock w) 5) as Hbound.
  pose proof (first_success_result network
                (request_of "POST" (CompanyContactsUrl base_url company_id)
                   auth_headers
                   (req_json (create_request base_url auth_headers company_id
                                (VDict d) email))) (clock w) 5) as Hres.
  fold f in Hbound, Hres.
  destruct (negb (resp_truthy f.1)) eqn:Htruthy.
  { by rewrite io_bind_print in H. }
  lift_inv H as status Hst. destruct (negb (status =? 200)).
  { io_inv H as err w2 Herr. by rewrite io_bind_print in H. }
  unfold mbind, io_bind, set_add in H. injection H as <-.
  cbn [clock sets]. rewrite Hc. split.
  - destruct f.1; [lia|done].
  - unfold set_at. by rewrite Hs.
Qed.

(** X14. A successful creation records the email of the candidate, trimmed
    and lower-cased, in the set it was given - and changes nothing else in
    the store; and a candidate whose email is recorded in the set it is
    checked against is never posted: the call returns [False] after one
    log line, without a request.  So a contact created once is skipped when
    it is submitted again with an email that has the same trimmed and
    lower-cased form. *)
Theorem created_contact_is_skipped_when_submitted_again
    (base_url : string) (auth_headers : list (string * string))
    (company_id contact_data : value) (existing_emails_cache : nat)
    (w w' : world) :
  create_contact_in_autotask network base_url auth_headers company_id
    contact_data existing_emails_cache w = Returns true w' →
  ∃ email,
    candidate_email contact_data = Ok email ∧
    sets w' = <[existing_emails_cache :=
                  set_at w existing_emails_cache ∪ {[email]}]> (sets w) ∧
    ∀ (network2 : nat → request → outcome) (base_url2 : string)
      (auth_headers2 : list (string * string)) (company_id2 again : value)
      (w2 : world),
      candidate_email again = Ok email →
      set_at w' existing_emails_cache ⊆ set_at w2 existing_emails_cache →
      create_contact_in_autotask network2 base_url2 auth_headers2 company_id2
        again existing_emails_cache w2
      = Returns false
          (logged w2 "[SKIP] Contact already exists in Autotask" [VStr email]).
Proof.
  intros H.
  apply create_returns_true in H as (email & Hemail & Hne & _ & _ & _ & Hs).
  exists email. do 2 (split; [done|]).
  intros network2 base_url2 auth_headers2 company_id2 again w2 Hagain Hsub.
  apply create_skips_duplicate; [done..|]. apply Hsub.
  unfold set_at at 1. rewrite Hs, lookup_insert_eq. cbn. set_solver.
Qed.

(** X15. Every request [create_contact_in_autotask] sends, however the
    call ends, is the POST of the record of its candidate to the contacts
    of its company: the first name, the last name and the phone as given
    ([""] for a missing or false one), the email trimmed and lower-cased,
    and [IsActive] 1. *)
Theorem create_posts_the_record_of_its_candidate
    (base_url : string) (auth_headers : list (string * string))
    (company_id contact_data : value) (existing_emails_cache : nat)
    (w w' : world) :
  final (create_contact_in_autotask network base_url auth_headers company_id
           contact_data existing_emails_cache w) = Some w' →
  requests_since
    (λ req, ∃ email,
       candidate_email contact_data = Ok email ∧
       req = request_of "POST" (CompanyContactsUrl base_url company_id)
               auth_headers
               (Some (autotask_contact
                        (py_or (member contact_data "firstName") (VStr ""))
                        (py_or (member contact_data "lastName") (VStr ""))
                        email
                        (py_or (member contact_data "phone") (VStr "")))))
    w w'.
Proof.
  set (P := λ req, ∃ email, _).
  assert (Hemit := requests_since_emit P).
  assert (Hreq := requests_since_request P).
  assert (Hsets := requests_since_sets P).
  revert w w'. change (keeps (requests_since P)
    (create_contact_in_autotask network base_url auth_headers company_id
       contact_data existing_emails_cache)).
  pose proof (λ tag args, keeps_print (requests_since P) Hemit tag args) as Hprint.
  pose proof (λ A (a : A), keeps_ret (requests_since P) a) as Hret.
  assert (Hlog : ∀ tag args,
            keeps (requests_since P) (print tag args;; mret false)).
  { intros. apply keeps_bind; [apply _|done..]. }
  unfold create_contact_in_autotask.
  apply keeps_lift_bind; [apply _|]. intros email Hemail.
  destruct (candidate_email_dict _ _ Hemail) as [d ->].
  apply keeps_bind; [apply _| |].
  { destruct (negb _); [apply keeps_set_contains, _|done]. }
  intros [|]; [done|].
  apply keeps_lift_bind; [apply _|]. intros first [= <-].
  apply keeps_lift_bind; [apply _|]. intros last [= <-].
  apply keeps_lift_bind; [apply _|]. intros phone [= <-].
  destruct (negb _); [done|]. destruct (String.eqb email ""); [done|].
  apply keeps_bind; [apply _| |].
  { apply (keeps_safe_request _ P); [done..|]. by exists email. }
  intros resp. destruct (negb _); [done|].
  apply keeps_lift_bind; [apply _|]. intros status _.
  destruct (negb _).
  - apply keeps_bind; [apply _| |].
    { apply keeps_try_except; [apply _|apply keeps_lift, _|done]. }
    intros err. done.
  - apply keeps_bind; [apply _|by apply keeps_set_add|done].
Qed.

End Creating.

(** ** More on the organization scanner *)

Section Listing_organizations.

Variable network : nat → request → outcome.
Variable headers : list (string * string).

Lemma fetch_all_orgs_served pages :
  ∀ n page n' page' n'' fuel all_orgs w,
    org_pages_served network headers n page pages n' page' →
    listing_ends network headers n' page' n'' →
    clock w = n →
    (length pages < fuel)%nat →
    ∃ w',
      fetch_all_orgs network fuel headers page all_orgs w
      = Returns (all_orgs ++ concat pages) w' ∧
      clock w' = n'' ∧ page' = page + Z.of_nat (length pages).
Proof.
  induction pages as [|orgs pages IH];
    intros n page n' page' n'' fuel acc w Hserved Hend Hw Hfuel;
    inversion Hserved; subst; (destruct fuel as [|fuel]; [cbn in Hfuel; lia|]);
    cbn [fetch_all_orgs].
  - rewrite app_nil_r.
    destruct (safe_request_first_success network "GET" (OrgListUrl page')
                headers None 5 w) as (w1 & evs & Hrun & Hc & Ht & Hs).
    rewrite (io_bind_returns _ _ _ _ _ Hrun).
    destruct Hend as [resp n'' Hfs Hfail | r n'' d Hfs H200 Hjson Hempty];
      rewrite Hfs in Hc |- *; cbn [fst snd] in Hc |- *.
    + rewrite Hfail, io_bind_print. eexists. split; [done|].
      cbn [clock length]. split; [done|lia].
    + rewrite ok_200_usable by done. unfold resp_json. rewrite Hjson.
      cbn [mbind result_bind py_get].
      rewrite (io_bind_lift_ok _ _ _ _ eq_refl), Hempty. cbn [negb].
      exists w1. split; [done|]. cbn [length]. split; [done|lia].
  - destruct (safe_request_first_success network "GET" (OrgListUrl page)
                headers None 5 w) as (w1 & evs & Hrun & Hc & Ht & Hs).
    match goal with
    | H : first_success _ _ _ _ = _ |- _ => rewrite H in Hrun, Hc
    end.
    cbn [fst snd] in Hrun, Hc.
    rewrite (io_bind_returns _ _ _ _ _ Hrun), ok_200_usable by done.
    unfold resp_json.
    match goal with H : json_body r = _ |- _ => rewrite H end.
    cbn [mbind result_bind py_get].
    match goal with H : default _ _ = VList orgs |- _ => rewrite H end.
    rewrite (io_bind_lift_ok _ _ _ _ eq_refl).
    assert (truthy (VList orgs) = true) as ->.
    { destruct orgs; [done|]. cbn. by rewrite bool_decide_false. }
    cbn [negb py_iter]. rewrite (io_bind_lift_ok _ _ _ _ eq_refl).
    edestruct (IH n1 (page + 1) n' page' n'' fuel (acc ++ orgs) w1)
      as (w' & Hrun' & Hc' & Hp'); [done..| |].
    { cbn in Hfuel. lia. }
    exists w'. rewrite Hrun'. cbn [concat length]. rewrite <- app_assoc.
    split; [done|]. split; [done|lia].
Qed.

(** X16. The first pass of [get_autotask_syncing_orgs] - the loop over the
    numbered pages - returns, for every sufficient fuel, the organizations
    of the pages 1, 2, ..., N in page and response order when each of these
    pages is a 200 response with a non-empty list, and page N + 1 either
    fails or has no organizations.  No page after N + 1 is asked for. *)
Theorem fetch_all_orgs_concatenates_pages
    (pages : list (list value)) (w : world) (n' n'' : nat) (page' : Z) :
  org_pages_served network headers (clock w) 1 pages n' page' →
  listing_ends network headers n' page' n'' →
  ∀ fuel, (length pages < fuel)%nat →
    ∃ w', fetch_all_orgs network fuel headers 1 [] w
          = Returns (concat pages) w' ∧
          clock w' = n'' ∧ page' = 1 + Z.of_nat (length pages).
Proof.
  intros Hserved Hend fuel Hfuel.
  by apply (fetch_all_orgs_served pages (clock w) 1 n' page' n'' fuel [] w).
Qed.

Lemma syncing_triples_in_order (orgs : list value) :
  ∀ fetches,
    (λ t : value * value * value, t.1.1)
      <$> omap (λ p, syncing_triple p.1 p.2) (zip orgs fetches)
    `sublist_of` (org_id_of <$> orgs).
Proof.
  induction orgs as [|org orgs IH]; intros [|resp fetches];
    cbn [zip zip_with omap list_omap fmap list_fmap];
    [done|done|apply sublist_nil_l|].
  change (list_omap _ _ ?f ?l) with (omap f l). cbn [fst snd].
  destruct (syncing_triple org resp) as [[[id name] inc]|] eqn:E.
  - assert (id = org_id_of org) as ->.
    { unfold syncing_triple in E. destruct (not_resp_or_not_200 resp); [done|].
      destruct (resp_json resp); [|done].
      destruct (py_get _ _ _) as [[]|]; try done.
      destruct (existsb _ _); [|done]. by injection E as <- _ _. }
    cbn [fmap list_fmap fst]. apply sublist_skip, IH.
  - apply sublist_cons, IH.
Qed.

Lemma check_orgs_app pre rest :
  ∀ autotask_orgs w,
    Forall org_entry pre →
    Forall document_with_resources (detail_fetches network headers pre (clock w)) →
    ∃ found w',
      check_orgs network (pre ++ rest) headers autotask_orgs w
      = check_orgs network rest headers (autotask_orgs ++ found) w' ∧
      sets w' = sets w.
Proof.
  induction pre as [|org pre IH]; intros acc w Horgs Hdocs.
  { exists [], w. by rewrite app_nil_r. }
  apply Forall_cons in Horgs as [[Hid Hname] Horgs].
  cbn [detail_fetches] in Hdocs. apply Forall_cons in Hdocs as [Hdoc Hdocs].
  cbn [app check_orgs].
  rewrite (io_bind_lift_ok _ _ _ _ Hid), (io_bind_lift_ok _ _ _ _ Hname).
  destruct (safe_request_first_success network "GET"
              (OrgDetailUrl (org_id_of org)) headers None 5 w)
    as (w1 & evs & Hrun & Hc & Ht & Hs).
  rewrite (io_bind_returns _ _ _ _ _ Hrun).
  set (f := first_success network _ (clock w) 5) in *.
  rewrite <- Hc in Hdocs.
  destruct (not_resp_or_not_200 f.1) eqn:Hfail.
  { rewrite io_bind_print.
    edestruct (IH acc (logged w1 "[WARN] Failed to check org" [org_name_of org]))
      as (found & w' & Hrun' & Hs'); [done..|].
    exists found, w'. split; [exact Hrun'|]. by rewrite Hs'. }
  destruct (Hdoc Hfail) as (doc & items & Hjson & Hinc & Hres).
  unfold included_items in Hinc.
  rewrite Hjson. cbn [mbind result_bind]. rewrite Hinc.
  rewrite (io_bind_lift_ok _ _ _ _ eq_refl). cbn [py_iter mbind result_bind].
  rewrite (has_active_autotask_existsb _ Hres).
  rewrite (io_bind_lift_ok _ _ _ _ eq_refl).
  destruct (existsb active_autotaskb items).
  - edestruct (IH (acc ++ [(org_id_of org, org_name_of org, VList items)]) w1)
      as (found & w' & Hrun' & Hs'); [done..|].
    exists ((org_id_of org, org_name_of org, VList items) :: found), w'.
    rewrite Hrun', <- app_assoc. split; [done|]. by rewrite Hs'.
  - edestruct (IH acc w1) as (found & w' & Hrun' & Hs'); [done..|].
    exists found, w'. split; [exact Hrun'|]. by rewrite Hs'.
Qed.

(** X17. One entry of the listing that has no ["id"], or no
    ["attributes"] with a ["name"], ends the second pass of
    [get_autotask_syncing_orgs] by the exception of the lookup ([KeyError],
    or [TypeError] for an entry that is no object): the organizations
    found before it are not returned. *)
Theorem scan_aborts_on_an_entry_without_id_or_name
    (pre post : list value) (org : value) (e : exn)
    (autotask_orgs : list (value * value * value)) (w : world) :
  Forall org_entry pre →
  Forall document_with_resources (detail_fetches network headers pre (clock w)) →
  (org_id ← py_getitem org "id";
   org_name ← py_getitem org "attributes" ≫= (λ a, py_getitem a "name");
   Ok (org_id, org_name)) = Raise e →
  ∃ w',
    check_orgs network (pre ++ org :: post) headers autotask_orgs w
    = Raises e w' ∧
    sets w' = sets w.
Proof.
  intros Horgs Hdocs Hbad.
  destruct (check_orgs_app pre (org :: post) autotask_orgs w Horgs Hdocs)
    as (found & w' & -> & Hs).
  exists w'. split; [|done]. cbn [check_orgs].
  unfold mbind at 1, io_bind at 1, lift at 1.
  destruct (py_getitem org "id") as [org_id|e1]; cbn [mbind result_bind] in Hbad.
  - unfold mbind at 1, io_bind at 1, lift at 1.
    destruct (py_getitem org "attributes" ≫= _) as [org_name|e2];
      cbn [mbind result_bind] in Hbad; [done|]. by injection Hbad as ->.
  - by injection Hbad as ->.
Qed.

End Listing_organizations.

(** X18. The organizations [get_autotask_syncing_orgs] returns follow the
    listing: when the first pass has listed [all_orgs], the identifiers of
    the triples returned are, in listing order, identifiers of listed
    organizations - an organization is returned once for each time it is
    listed, however many of its included items are active Autotask ones -
    and the function has changed no set. *)
Theorem syncing_orgs_follow_the_listing
    (network : nat → request → outcome) (fuel : nat) (api_key : string)
    (w w1 : world) (all_orgs : list value)
    (autotask_orgs : list (value * value * value)) (w' : world) :
  fetch_all_orgs network fuel (itglue_headers api_key) 1 []
    (logged w "Fetching organizations..." []) = Returns all_orgs w1 →
  get_autotask_syncing_orgs network fuel api_key w = Returns autotask_orgs w' →
  (λ t : value * value * value, t.1.1) <$> autotask_orgs
    `sublist_of` (org_id_of <$> all_orgs) ∧
  sets w' = sets w.
Proof.
  intros Hlist H. split.
  - unfold get_autotask_syncing_orgs in H. rewrite io_bind_print in H.
    fold (logged w "Fetching organizations..." []) in H.
    rewrite (io_bind_returns _ _ _ _ _ Hlist), io_bind_print in H.
    apply check_orgs_returns in H as ->. cbn [app].
    apply syncing_triples_in_order.
  - eapply (keeps_get_autotask_syncing_orgs same_sets (λ _, True));
      [done..|by rewrite H].
Qed.

(** X19. [get_all_contact_ids] follows the next links for as long as
    there are any: against a service that answers every page with a next
    link the walk does not end, whatever the fuel. *)
Theorem contact_walk_does_not_end_while_pages_link_on
    (network : nat → request → outcome) (api_key : string) (org_id : value)
    (w : world) :
  (∀ n u, ∃ r doc ids next,
     network n (request_of "GET" u (itglue_headers api_key) None) = Responds r ∧
     status_code r = 200 ∧ json_body r = Some doc ∧
     page_envelope doc ids next ∧ truthy next = true) →
  ∀ fuel, get_all_contact_ids network fuel api_key org_id w = OutOfFuel.
Proof.
  intros Hnet fuel. unfold get_all_contact_ids.
  assert (Hloop : ∀ u contact_ids w,
            url_truthy u = true →
            get_all_contact_ids_loop network fuel org_id (itglue_headers api_key)
              u contact_ids w = OutOfFuel); [|by apply Hloop].
  clear w. induction fuel as [|fuel IH]; intros u acc w Hu; [done|].
  cbn [get_all_contact_ids_loop]. rewrite Hu.
  destruct (Hnet (clock w) u) as (r & doc & ids & next & Hr & H200 & Hjson & Hpage & Hnext).
  assert (Hlt : status_code r < 400) by lia.
  unfold safe_request, range. cbn [seq fmap list_fmap].
  rewrite (io_bind_returns _ _ _ _ _
             (safe_request_attempt_succeeds network _ _ _ _ _ _ Hr Hlt)).
  rewrite ok_200_usable by done.
  destruct Hpage as (d & items & links & -> & Hdata & Hids & Hlinks & Hn).
  unfold resp_json. rewrite Hjson. rewrite (io_bind_lift_ok _ _ _ _ eq_refl).
  cbn [py_get]. rewrite Hdata. cbn [mbind result_bind py_iter].
  rewrite (mapM_result_Forall2 _ _ _ Hids).
  rewrite (io_bind_lift_ok _ _ _ ids eq_refl).
  rewrite Hlinks. cbn [py_get mbind result_bind].
  rewrite (io_bind_lift_ok _ _ _ _ eq_refl). rewrite Hn.
  by apply IH.
Qed.

(** ** Collecting the candidates *)

Section Collecting.

Variable network : nat → request → outcome.
Variable completion_order : list value → list value.
Variable set_order : list string → list string.

(** X20. No request is made for an organization on the exclusion list:
    when the identifier of every syncing organization is a string that was
    typed at the exclusion prompt, [collect_contacts] returns the candidates
    it was given, having made no request and changed no set. *)
Theorem excluded_organizations_are_not_visited
    (fuel : nat) (api_key : string) (licensed : bool) (exclude_ids : list string)
    (syncing_orgs : list (value * value * value))
    (contacts_to_create : list (value * value)) (w : world) :
  Forall (λ org, ∃ id, org.1.1 = VStr id ∧ id ∈ exclude_ids) syncing_orgs →
  ∃ w',
    collect_contacts network completion_order set_order fuel api_key licensed
      exclude_ids syncing_orgs contacts_to_create w
    = Returns contacts_to_create w' ∧
    clock w' = clock w ∧ sets w' = sets w.
Proof.
  intros Hall. revert w.
  induction Hall as [|[[org_id name] included] rest (id & Hid & Hin) _ IH];
    intros w; cbn [collect_contacts].
  { by exists w. }
  cbn [fst] in Hid. subst org_id.
  assert (existsb (py_eq_str (VStr id)) exclude_ids = true) as ->.
  { apply existsb_exists. exists id. split; [by apply list_elem_of_In|].
    cbn. apply String.eqb_refl. }
  rewrite io_bind_print. unfold mbind, io_bind, print, emit. cbn beta iota.
  destruct (IH {| clock := clock w;
                  trace := trace w ++ [EvPrint "[SKIP] Org is in exclude list"
                                         [name; VStr id]];
                  sets := sets w |}) as (w' & Hrun & Hc & Hs).
  exists w'. by rewrite Hrun.
Qed.

Lemma candidate_built autotask_remote_id attrs email phones c :
  truthy autotask_remote_id = true →
  candidate autotask_remote_id attrs email phones = Ok c →
  built_candidate c.
Proof.
  intros Hid H. unfold candidate in H.
  inv_bind H as first_name Ef. inv_bind H as last_name El. injection H as <-.
  split; [done|]. by exists first_name, last_name, email, (default "" (head phones)).
Qed.

(** X21. The candidates [collect_contacts] builds are complete: each has a
    company identifier that is true in Python's sense (an organization
    without an Autotask identifier gives none) and a payload with the
    members [firstName], [lastName], [email] and [phone] and no other, the
    email and the phone being strings.  So the summary of the creation
    loop, which reads the two names, finds them. *)
Theorem collected_candidates_are_complete
    (fuel : nat) (api_key : string) (licensed : bool) (exclude_ids : list string)
    (syncing_orgs : list (value * value * value))
    (contacts_to_create : list (value * value)) (w : world)
    (collected : list (value * value)) (w' : world) :
  collect_contacts network completion_order set_order fuel api_key licensed
    exclude_ids syncing_orgs contacts_to_create w = Returns collected w' →
  Forall built_candidate contacts_to_create →
  Forall built_candidate collected ∧
  (Forall has_names contacts_to_create → Forall has_names collected).
Proof.
  assert (Hnames : ∀ c, built_candidate c → has_names c).
  { intros [id payload] (_ & first & last & email & phone & Hp).
    cbn [snd] in Hp. subst payload. by exists first, last. }
  assert (Hbuilt : ∀ acc w,
            collect_contacts network completion_order set_order fuel api_key
              licensed exclude_ids syncing_orgs acc w = Returns collected w' →
            ∃ new, collected = acc ++ new ∧ Forall built_candidate new).
  { induction syncing_orgs as [|[[org_id name] included] rest IH];
      intros acc w0 H; cbn [collect_contacts] in H.
    { injection H as <- <-. exists []. by rewrite app_nil_r. }
    destruct (existsb (py_eq_str org_id) exclude_ids).
    { rewrite io_bind_print in H. by apply IH in H. }
    lift_inv H as autotask_remote_id Hid.
    destruct (negb (truthy autotask_remote_id)) eqn:Ht.
    { rewrite io_bind_print in H. by apply IH in H. }
    apply negb_false_iff in Ht. rewrite io_bind_print in H.
    io_inv H as ms_only_contacts w1 Hms. lift_inv H as acc1 Hfor.
    apply IH in H as (new & -> & Hnew).
    assert (∃ new1, acc1 = acc ++ new1 ∧ Forall built_candidate new1)
      as (new1 & -> & Hnew1).
    { clear -Hfor Ht. revert acc acc1 Hfor.
      induction ms_only_contacts as [|[cid contact_data] l IHl];
        intros acc acc1 Hfor; cbn [for_each] in Hfor.
      { injection Hfor as <-. exists []. by rewrite app_nil_r. }
      inv_bind Hfor as acc2 E. apply IHl in Hfor as (new2 & -> & Hnew2).
      inv_bind E as attrs Ea. inv_bind E as p Ep. destruct p as [emails phones].
      destruct emails as [|email emails].
      - injection E as <-. by exists new2.
      - inv_bind E as c Ec. injection E as <-. exists (c :: new2).
        rewrite <- app_assoc. split; [done|]. constructor; [|done].
        by eapply candidate_built. }
    exists (new1 ++ new). rewrite <- app_assoc. split; [done|].
    by apply Forall_app. }
  intros H Hacc. apply Hbuilt in H as (new & -> & Hnew). split.
  - by apply Forall_app.
  - intros Hn. apply Forall_app. split; [done|].
    eapply Forall_impl; [exact Hnew|done].
Qed.

End Collecting.

(** ** The creation loop *)

Section Loop.

Variable network : nat → request → outcome.

Lemma create_contacts_returns fuel at_base_url at_headers contacts_to_create :
  ∀ cache created_count skipped w cache' created' skipped' w',
    create_contacts network fuel at_base_url at_headers contacts_to_create
      cache created_count skipped w = Returns (cache', created', skipped') w' →
    ∃ names,
      skipped' = skipped ++ names ∧
      names `sublist_of` (skipped_names <$> contacts_to_create) ∧
      created' = created_count + Z.of_nat (length contacts_to_create)
                 - Z.of_nat (length names) ∧
      cache ⊆ cache' ∧
      Forall (company_cached cache') contacts_to_create.
Proof.
  induction contacts_to_create as [|[company_id payload] rest IH];
    intros cache n sk w cache' n' sk' w' H; cbn [create_contacts] in H.
  { injection H as <- <- <- <-. exists []. rewrite app_nil_r.
    repeat split; [done|cbn; lia|done|constructor]. }
  lift_inv H as k Hk. io_inv H as p wa Hcache. destruct p as [cache_a s].
  assert (cache ⊆ cache_a ∧ cache_a !! k = Some s) as [Hsub_a Hks].
  { destruct (cache !! k) as [s0|] eqn:Hlook.
    - by injection Hcache as <- <- <-.
    - io_inv Hcache as s0 w0 Hget. injection Hcache as <- <- <-.
      split; [by apply insert_subseteq|by rewrite lookup_insert_eq]. }
  io_inv H as b wb Hcreate.
  assert (Hcached : ∀ cache2, cache_a ⊆ cache2 →
                              company_cached cache2 (company_id, payload)).
  { intros cache2 Hsub. exists k. split; [done|].
    exists s. by eapply lookup_weaken. }
  destruct b.
  - apply IH in H as (names & -> & Hnames & -> & Hsub & Hall).
    exists names. split; [done|]. split; [by apply sublist_cons|].
    split; [cbn [length]; lia|]. split; [by etrans|].
    constructor; [by apply Hcached|done].
  - lift_inv H as names0 Hn0.
    inv_bind Hn0 as f Ef. inv_bind Hn0 as l El. injection Hn0 as <-.
    apply py_getitem_member in Ef as ->. apply py_getitem_member in El as ->.
    apply IH in H as (names & -> & Hnames & -> & Hsub & Hall).
    exists ((member payload "firstName", member payload "lastName") :: names).
    rewrite <- app_assoc. split; [done|].
    split; [by apply sublist_skip|]. split; [cbn [length]; lia|].
    split; [by etrans|]. constructor; [by apply Hcached|done].
Qed.

(** X22. The creation loop counts every candidate once: when it returns,
    the number of contacts created and the number of names added to the
    skipped list add up to the number of candidates, the names added are
    those of candidates, in candidate order, and the cache has kept its
    entries and holds a set of known emails for the company of every
    candidate. *)
Theorem creation_loop_counts_every_candidate_once
    (fuel : nat) (at_base_url : string) (at_headers : list (string * string))
    (contacts_to_create : list (value * value))
    (existing_contacts_cache : gmap key nat) (created_count : Z)
    (skipped : list (value * value)) (w : world)
    (cache' : gmap key nat) (created' : Z) (skipped' : list (value * value))
    (w' : world) :
  create_contacts network fuel at_base_url at_headers contacts_to_create
    existing_contacts_cache created_count skipped w
    = Returns (cache', created', skipped') w' →
  ∃ names,
    skipped' = skipped ++ names ∧
    names `sublist_of` (skipped_names <$> contacts_to_create) ∧
    (created' - created_count) + Z.of_nat (length names)
    = Z.of_nat (length contacts_to_create) ∧
    0 ≤ created' - created_count ∧
    existing_contacts_cache ⊆ cache' ∧
    Forall (company_cached cache') contacts_to_create.
Proof.
  intros H.
  apply create_contacts_returns in H as (names & -> & Hnames & -> & Hsub & Hall).
  exists names. do 2 (split; [done|]). split; [lia|]. split; [|done].
  apply sublist_length in Hnames. rewrite length_fmap in Hnames. lia.
Qed.

(** X23. The known emails of a company are fetched once: for candidates
    whose companies all have their set in the cache, the creation loop
    sends POST requests only, however it ends - no company is asked for its
    contacts again. *)
Theorem cached_companies_are_not_fetched_again
    (fuel : nat) (at_base_url : string) (at_headers : list (string * string))
    (contacts_to_create : list (value * value))
    (existing_contacts_cache : gmap key nat) (created_count : Z)
    (skipped : list (value * value)) (w w' : world) :
  Forall (company_cached existing_contacts_cache) contacts_to_create →
  final (create_contacts network fuel at_base_url at_headers contacts_to_create
           existing_contacts_cache created_count skipped w) = Some w' →
  requests_since (λ req, req_method req = "POST") w w'.
Proof.
  set (P := λ req, req_method req = "POST").
  intros Hall. revert created_count skipped w w'.
  change (∀ created_count skipped,
            keeps (requests_since P)
              (create_contacts network fuel at_base_url at_headers
                 contacts_to_create existing_contacts_cache created_count
                 skipped)).
  assert (Hcreate : ∀ company_id payload s,
            keeps (requests_since P)
              (create_contact_in_autotask network at_base_url at_headers
                 company_id payload s)).
  { intros. apply (keeps_create_contact_in_autotask _ P);
      [apply requests_since_emit|apply requests_since_request
      |apply requests_since_sets|done]. }
  induction Hall as [|[company_id payload] rest (k & Hk & s & Hs) _ IH];
    intros n sk; cbn [create_contacts].
  { apply keeps_ret, _. }
  cbn [fst] in Hk. rewrite Hk.
  apply keeps_lift_bind; [apply _|]. intros k' [= <-]. rewrite Hs.
  apply keeps_ret_bind.
  apply keeps_bind; [apply _|apply Hcreate|]. intros [|]; [apply IH|].
  apply keeps_lift_bind; [apply _|]. intros names _. apply IH.
Qed.

End Loop.

(** ** The log of the retries *)

Lemma safe_request_attempt_answered network req attempt rest resp w r :
  network (clock w) req = Responds r →
  400 ≤ status_code r →
  ∃ before w1,
    safe_request_attempts network req (attempt :: rest) resp w
    = safe_request_attempts network req rest (Some r) w1 ∧
    clock w1 = S (clock w) ∧ trace w1 = trace w ++ before.
Proof.
  intros Hnet H400. cbn [safe_request_attempts]. io_unfold. rewrite Hnet.
  rewrite (proj2 (Z.ltb_ge _ _) H400).
  destruct (status_code r =? 500); [destruct (resp_json (Some r))|];
    cbn beta iota; cbn [clock trace sets];
    eexists _, _; (split; [reflexivity|]); cbn [clock trace];
    (split; [done|]); by rewrite <- !app_assoc.
Qed.

Lemma safe_request_attempt_unanswered network req attempt rest r w :
  network (clock w) req = Fails →
  ∃ w1,
    safe_request_attempts network req (attempt :: rest) (Some r) w
    = safe_request_attempts network req rest (Some r) w1 ∧
    trace w1
    = trace w ++ [EvRequest req; EvPrint "[EXCEPTION]" [];
                  EvPrint "[RETRY]" [VInt (status_code r); VInt (2 ^ attempt)];
                  EvSleep (2 ^ attempt)].
Proof.
  intros Hnet. cbn [safe_request_attempts]. io_unfold. rewrite Hnet.
  cbn beta iota. cbn [clock trace sets].
  eexists. split; [reflexivity|]. cbn [trace]. by rewrite <- !app_assoc.
Qed.

(** X25. The [RETRY] line reports the last status received, not the
    outcome of the attempt it follows: when an attempt is answered with a
    status of 400 or more and the next attempt is not answered at all, the
    line logged after the second attempt still shows the status of the
    first. *)
Theorem retry_line_reports_the_last_status_received
    (network : nat → request → outcome) (method : string) (u : url)
    (headers : list (string * string)) (json : option value)
    (max_retries : nat) (w : world) (r : response) :
  (2 ≤ max_retries)%nat →
  network (clock w) (request_of method u headers json) = Responds r →
  400 ≤ status_code r →
  network (S (clock w)) (request_of method u headers json) = Fails →
  ∃ resp w' before after,
    safe_request network method u headers json max_retries w = Returns resp w' ∧
    trace w'
    = trace w ++ before
      ++ [EvRequest (request_of method u headers json);
          EvPrint "[EXCEPTION]" [];
          EvPrint "[RETRY]" [VInt (status_code r); VInt 2];
          EvSleep 2]
      ++ after.
Proof.
  intros Hmax Hfirst H400 Hsecond. unfold safe_request, range.
  destruct max_retries as [|[|m]]; [lia..|]. cbn [seq fmap list_fmap].
  set (req := request_of method u headers json) in *.
  destruct (safe_request_attempt_answered network req (Z.of_nat 0)
              (Z.of_nat 1 :: (Z.of_nat <$> seq 2 m)) None w r Hfirst H400)
    as (before & w1 & -> & Hc1 & Ht1).
  rewrite <- Hc1 in Hsecond.
  destruct (safe_request_attempt_unanswered network req (Z.of_nat 1)
              (Z.of_nat <$> seq 2 m) r w1 Hsecond) as (w2 & -> & Ht2).
  destruct (safe_request_attempts_first_success network req m 2 (Some r) w2)
    as (w' & after & -> & _ & Ht & _).
  eexists _, w', before, after. split; [done|].
  by rewrite Ht, Ht2, Ht1, <- !app_assoc.
Qed.

(** ** The answers to the prompts *)

Lemma split_commas_comma_free s : comma_free s = true → split_commas s = [s].
Proof.
  induction s as [|c s IH]; [done|]. cbn [comma_free split_commas].
  intros [Hc Hs]%andb_true_iff. apply negb_true_iff in Hc. rewrite Hc.
  by rewrite (IH Hs).
Qed.

Lemma split_commas_app s rest :
  comma_free s = true →
  split_commas (s +:+ "," +:+ rest) = s :: split_commas rest.
Proof.
  induction s as [|c s IH]; [done|]. cbn [comma_free].
  intros [Hc Hs]%andb_true_iff. apply negb_true_iff in Hc.
  change (String c s +:+ "," +:+ rest) with (String c (s +:+ "," +:+ rest)).
  cbn [split_commas]. by rewrite Hc, (IH Hs).
Qed.

Lemma split_commas_join ids :
  ids ≠ [] → Forall (λ id, comma_free id = true) ids →
  split_commas (join_commas ids) = ids.
Proof.
  intros Hne Hall. induction Hall as [|id ids Hid Hall IH]; [done|].
  destruct ids as [|id' ids]; [by apply split_commas_comma_free|].
  change (join_commas (id :: id' :: ids))
    with (id +:+ "," +:+ join_commas (id' :: ids)).
  rewrite split_commas_app by done. by rewrite IH.
Qed.

(** X26. The answer to the exclusion prompt is read as a list of
    identifiers separated by commas: every identifier kept is non-empty and
    is the trimmed form of one of the pieces between the commas, pieces
    that are empty or blank (trimmed to the empty string) are dropped, and
    an answer made of identifiers that are non-empty, left as they are by
    trimming and free of commas, joined by commas, is read back as these
    identifiers, in order. *)
Theorem exclusion_answer_is_split_at_commas_and_trimmed :
  (∀ exclude_ids_input,
     Forall (λ id, id ≠ "" ∧
                   ∃ piece, piece ∈ split_commas exclude_ids_input ∧
                            id = strip piece)
       (exclude_ids_of exclude_ids_input)) ∧
  (∀ exclude_ids_input,
     Forall (λ piece, strip piece = "") (split_commas exclude_ids_input) →
     exclude_ids_of exclude_ids_input = []) ∧
  (∀ ids,
     Forall (λ id, id ≠ "" ∧ strip id = id ∧ comma_free id = true) ids →
     exclude_ids_of (join_commas ids) = ids).
Proof.
  assert (Hkept : ∀ pieces,
            Forall (λ id, id ≠ "" ∧ ∃ piece, piece ∈ pieces ∧ id = strip piece)
              (strip <$> List.filter (λ e, negb (String.eqb (strip e) "")) pieces)).
  { induction pieces as [|e pieces IH]; [constructor|]. cbn [List.filter].
    assert (Hrest : Forall (λ id, id ≠ "" ∧
                                  ∃ piece, piece ∈ e :: pieces ∧ id = strip piece)
                      (strip <$> List.filter
                         (λ e, negb (String.eqb (strip e) "")) pieces)).
    { eapply Forall_impl; [exact IH|]. intros id (Hne & piece & Hin & ->).
      split; [done|]. exists piece. split; [by right|done]. }
    destruct (String.eqb (strip e) "") eqn:He; cbn [negb]; [done|].
    constructor; [|done]. split; [by apply String.eqb_neq|].
    exists e. split; [by left|done]. }
  assert (Hsame : ∀ ids,
            Forall (λ id, id ≠ "" ∧ strip id = id ∧ comma_free id = true) ids →
            strip <$> List.filter (λ e, negb (String.eqb (strip e) "")) ids = ids).
  { induction 1 as [|id ids (Hne & Hs & _) _ IH]; [done|]. cbn [List.filter].
    rewrite Hs. apply String.eqb_neq in Hne. rewrite Hne. cbn [negb].
    cbn [fmap list_fmap]. rewrite Hs. f_equal. exact IH. }
  split; [|split].
  - intros input. unfold exclude_ids_of.
    destruct (negb (String.eqb input "")); [apply Hkept|constructor].
  - intros input Hblank. unfold exclude_ids_of.
    destruct (negb (String.eqb input "")); [|done].
    induction Hblank as [|piece pieces Hp _ IH]; [done|].
    cbn [List.filter]. by rewrite Hp.
  - intros ids Hids. unfold exclude_ids_of.
    destruct ids as [|id ids]; [done|].
    assert (join_commas (id :: ids) ≠ "") as Hne%String.eqb_neq.
    { apply Forall_cons in Hids as [(Hne & _) _].
      destruct id; [done|]. by destruct ids. }
    rewrite Hne. cbn [negb]. rewrite split_commas_join; [by apply Hsame|done|].
    eapply Forall_impl; [exact Hids|]. by intros ? (_ & _ & ?).
Qed.

End Texts.

#[global] Existing Instance ascii_text.

(** ** The properties on the sample documents and worlds *)

(** C8, on a sample: the entries reordered and one of them repeated. *)
Lemma classification_ignores_order_and_duplicates_sample :
  contact_syncs_with already_synced_doc "Autotask"
  = contact_syncs_with
      (contact_doc [microsoft_rel; live_autotask; license_tag_item; microsoft_rel]
         "other@x.com") "Autotask" ∧
  contact_has_ms_license already_synced_doc
  = contact_has_ms_license
      (contact_doc [microsoft_rel; live_autotask; license_tag_item; microsoft_rel]
         "other@x.com") ∧
  (∃ b, contact_syncs_with already_synced_doc "Autotask" = Ok b) ∧
  (∃ b, contact_has_ms_license already_synced_doc = Ok b).
Proof.
  apply (classification_ignores_order_and_duplicates
           already_synced_doc
           (contact_doc [microsoft_rel; live_autotask; license_tag_item; microsoft_rel]
              "other@x.com")
           [license_tag_item; live_autotask; microsoft_rel]
           [microsoft_rel; live_autotask; license_tag_item; microsoft_rel]).
  - reflexivity.
  - reflexivity.
  - intros x. rewrite !elem_of_cons, !elem_of_nil. tauto.
  - repeat constructor.
Defined.

(** C1, on a sample: of the three contacts listed, one already syncs with
    Autotask, the detail of another cannot be fetched, and one is kept. *)
Lemma microsoft_only_filter_sample :
  ∃ contact_ids w1,
    get_all_contact_ids mixed_network 3 "key" (VStr "1") w0
    = Returns contact_ids w1 ∧
    (∃ w', get_microsoft_only_contacts mixed_network (λ l, l) 3 "key" (VStr "1")
             true w0 = Returns [(VStr "11", microsoft_only_doc)] w') ∧
    ∀ ms_only_contacts w',
      get_microsoft_only_contacts mixed_network (λ l, l) 3 "key" (VStr "1")
        true w0 = Returns ms_only_contacts w' →
      ∀ contact_id contact_data,
        (contact_id, contact_data) ∈ ms_only_contacts ↔
        ∃ resp items,
          (contact_id, resp)
          ∈ contact_fetches mixed_network (itglue_headers "key") (VStr "1")
              contact_ids (clock w1) ∧
          not_resp_or_not_200 resp = false ∧
          resp_json resp = Ok contact_data ∧
          included_items contact_data items ∧
          (∃ item, item ∈ items ∧ relationship_syncs "Microsoft" item) ∧
          ¬ (∃ item, item ∈ items ∧ relationship_syncs "Autotask" item) ∧
          (∃ item, item ∈ items ∧ license_tag item).
Proof.
  eexists _, _.
  eassert (H : get_all_contact_ids mixed_network 3 "key" (VStr "1") w0
               = Returns _ _) by (vm_compute; reflexivity).
  split; [exact H|]. split.
  - eexists. vm_compute. reflexivity.
  - exact (proj1 (microsoft_only_filter_keeps_iff mixed_network (λ l, l) 3 "key"
                    (VStr "1") true w0 _ _ H)).
Defined.

Example filter_completed_sample_licensed :
  ∃ w', filter_completed completed_sample true [] w0
        = Returns [(VStr "11", microsoft_only_doc)] w'.
Proof. by eexists. Qed.

Example filter_completed_sample_unlicensed :
  ∃ w', filter_completed completed_sample false [] w0 = Returns [] w'.
Proof. by eexists. Qed.

(** C4, on a sample: five failed attempts on a dead network. *)
Lemma safe_request_exhausts_retries_sample :
  ∃ w' evs,
    safe_request dead_network "GET" (OrgListUrl 1) [] None 5 w0
      = Returns None w' ∧
    advanced w0 5 evs w' ∧
    without_prints evs
    = flat_map (λ i, [EvRequest (request_of "GET" (OrgListUrl 1) [] None);
                      EvSleep (2 ^ i)]) (range 5) ∧
    (5%nat = 5%nat → sleeps evs = [1; 2; 4; 8; 16]).
Proof.
  apply (safe_request_exhausts_retries dead_network "GET" (OrgListUrl 1) []
           None 5 w0).
  intros i Hi. exact I.
Defined.

(** C3, on a sample: two pages, the second without a next link. *)
Lemma get_all_contact_ids_sample :
  ∃ w', get_all_contact_ids sample_network 3 "key" (VStr "1") w0
        = Returns (concat [[VStr "11"; VStr "12"]; [VStr "13"]]) w' ∧
        clock w' = 2%nat.
Proof.
  apply (get_all_contact_ids_concatenates_pages sample_network "key" (VStr "1")
           [[VStr "11"; VStr "12"]; [VStr "13"]] w0 2 2 (Href VNone)).
  - eapply served_page; [reflexivity|reflexivity|reflexivity|reflexivity| |].
    { eexists _, _, _. split; [reflexivity|]. split; [reflexivity|].
      split; [repeat constructor|]. split; reflexivity. }
    eapply served_page; [reflexivity|reflexivity|reflexivity|reflexivity| |].
    { eexists _, _, _. split; [reflexivity|]. split; [reflexivity|].
      split; [repeat constructor|]. split; reflexivity. }
    apply served_none.
  - by apply walk_complete.
  - cbn. lia.
Defined.

Example get_all_contact_ids_truncated_sample :
  ∃ w', get_all_contact_ids lossy_network 3 "key" (VStr "1") w0
        = Returns [VStr "11"; VStr "12"] w' ∧ clock w' = 6%nat.
Proof. eexists. split; vm_compute; reflexivity. Qed.

(** C2, on a sample: of the two listed organizations only the one with a
    live Autotask relationship is returned. *)
Lemma syncing_orgs_sample :
  ∃ all_orgs w1,
    fetch_all_orgs sample_network 3 (itglue_headers "key") 1 []
      (logged w0 "Fetching organizations..." []) = Returns all_orgs w1 ∧
    ∃ autotask_orgs w',
      get_autotask_syncing_orgs sample_network 3 "key" w0
        = Returns autotask_orgs w' ∧
      ∀ org_id org_name included,
        (org_id, org_name, included) ∈ autotask_orgs ↔
        ∃ i org resp doc items,
          all_orgs !! i = Some org ∧
          detail_fetches sample_network (itglue_headers "key") all_orgs
            (clock w1) !! i = Some resp ∧
          not_resp_or_not_200 resp = false ∧
          resp_json resp = Ok doc ∧
          included_items doc items ∧
          (∃ item, item ∈ items ∧ active_autotask item) ∧
          org_id = org_id_of org ∧ org_name = org_name_of org ∧
          included = VList items.
Proof.
  eexists _, _.
  eassert (Hlist : fetch_all_orgs sample_network 3 (itglue_headers "key") 1 []
                     (logged w0 "Fetching organizations..." []) = Returns _ _)
    by (vm_compute; reflexivity).
  split; [exact Hlist|].
  destruct (proj2 (syncing_orgs_are_the_active_ones sample_network 3 "key" w0
                     _ _ Hlist)) as (autotask_orgs & w' & Hrun).
  - repeat constructor.
  - repeat constructor; intros _.
    + exists (VDict {[ "included" := VList [live_autotask] ]}), [live_autotask].
      split; [reflexivity|]. split; [reflexivity|]. repeat constructor.
    + exists (VDict {[ "included" := VList [stale_autotask] ]}), [stale_autotask].
      split; [reflexivity|]. split; [reflexivity|]. repeat constructor.
  - exists autotask_orgs, w'. split; [exact Hrun|].
    exact (proj1 (syncing_orgs_are_the_active_ones sample_network 3 "key" w0
                    _ _ Hlist) autotask_orgs w' Hrun).
Defined.

Example get_autotask_syncing_orgs_sample :
  ∃ w', get_autotask_syncing_orgs sample_network 3 "key" w0
        = Returns [(VStr "1", VStr "Acme", VList [live_autotask])] w'.
Proof. by eexists. Qed.

(** C5, on a sample: a candidate without last name. *)
Lemma create_skips_incomplete_candidate_sample :
  ∃ w',
    create_contact_in_autotask sample_network at_base_url [] nameless.1
      nameless.2 0 w_cached = Returns false w' ∧
    clock w' = clock w_cached ∧ sets w' = sets w_cached ∧
    set_at w' 0 = set_at w_cached 0.
Proof.
  apply (create_skips_incomplete_candidate sample_network at_base_url []
           nameless.1 nameless.2 0 "max@x.com" w_cached).
  - reflexivity.
  - left. reflexivity.
Defined.

Lemma remove_dups_lists_each_once : lists_each_once remove_dups.
Proof.
  intros added. split; [apply NoDup_remove_dups|].
  intros x. apply elem_of_remove_dups.
Qed.

(** C6, on a sample: three spellings of one address give two extracted
    emails, and the one in capitals is not created again. *)
Lemma email_dedup_sample :
  (NoDup ["Jane@X.com"; "jane@x.com"] ∧
   ∀ e, e ∈ ["Jane@X.com"; "jane@x.com"] ↔
        e ∈ trimmed_emails
              (VDict {[ "data" := VDict {[ "attributes" := VDict {[
                 "contact-emails" := VList [VDict {[ "value" := VStr "Jane@X.com" ]};
                                            VDict {[ "value" := VStr " Jane@X.com " ]}];
                 "emailAddress" := VStr "jane@x.com" ]} ]} ]})) ∧
  (∃ w',
     create_contact_in_autotask sample_network at_base_url [] jane.1 jane.2 0
       w_cached = Returns false w' ∧
     clock w' = clock w_cached ∧ sets w' = sets w_cached).
Proof.
  split.
  - apply (proj1 email_dedup_exact_then_case_insensitive remove_dups _ _ []
             remove_dups_lists_each_once).
    reflexivity.
  - apply (proj2 email_dedup_exact_then_case_insensitive sample_network
             at_base_url [] jane.1 jane.2 0%nat "Jane@X.com" "jane@x.com" w_cached).
    + reflexivity.
    + reflexivity.
    + apply elem_of_singleton. reflexivity.
Defined.

(** C10, on a sample: a 201 answer to the first attempt. *)
Lemma create_succeeds_only_on_200_sample :
  ∃ w',
    create_contact_in_autotask network_201 at_base_url [] jane.1 jane.2 0 w0
      = Returns false w' ∧
    clock w' = 1%nat ∧ sets w' = sets w0.
Proof.
  refine (proj2 (create_succeeds_only_on_200 network_201 at_base_url []
                   jane.1 jane.2 0 "jane@x.com" w0 _ _ _ _)
            (status_response 201) _ _ _).
  - reflexivity.
  - discriminate.
  - set_solver.
  - reflexivity.
  - reflexivity.
  - reflexivity.
  - discriminate.
Defined.



(** Nor is it enough that the caches of the second run hold the emails the
    first run created: a candidate that the first run skipped because
    Autotask had its email is created by a second run whose caches hold
    the created emails only.  Here the first run creates Jane and skips
    Ken, whom Autotask knows, and leaves both emails in the set of the
    company; the second run, from a set that holds the email of Jane
    alone, skips Jane and creates Ken. *)
Example second_run_on_created_emails_only_creates :
  (∃ w1,
     create_contacts sample_network 2 at_base_url [] [jane; known] ∅ 0 [] w0
       = Returns ({[ KStr "500" := 0%nat ]}, 1, [(VStr "Ken", VStr "Known")]) w1 ∧
     set_at w1 0 = {[ "known@x.com"; "jane@x.com" ]}) ∧
  (∃ w2,
     create_contacts sample_network 2 at_base_url [] [jane; known]
       {[ KStr "500" := 0%nat ]} 0 [] w_cached
       = Returns ({[ KStr "500" := 0%nat ]}, 1, [(VStr "Jane", VStr "Doe")]) w2).
Proof.
  split.
  - eexists. split; vm_compute; reflexivity.
  - eexists. vm_compute. reflexivity.
Qed.


(** ** The further properties on the sample documents and worlds *)

(** X1, on a sample run that creates one contact and skips two. *)
Lemma main_sends_reads_and_contact_records_only_sample :
  ∃ w',
    final (main directory_network (λ l, l) remove_dups 3 (sample_answers "") w0)
    = Some w' ∧
    requests_since
      (λ req, itglue_request (strip (typed_api_key (sample_answers ""))) req ∨
              autotask_request at_base_url (autotask_headers (sample_answers ""))
                req)
      w0 w'.
Proof.
  eexists.
  eassert (H : final (main directory_network (λ l, l) remove_dups 3
                        (sample_answers "") w0) = Some _)
    by (vm_compute; reflexivity).
  split; [exact H|].
  exact (main_sends_reads_and_contact_records_only directory_network (λ l, l)
           remove_dups 3 (sample_answers "") w0 _ H).
Defined.

(** X2, on the same run cancelled at the last prompt. *)
Lemma cancelled_run_only_reads_itglue_sample :
  (∀ u w', main directory_network (λ l, l) remove_dups 3 (sample_answers "n") w0
           ≠ Returns u w') ∧
  (∀ e w', main directory_network (λ l, l) remove_dups 3 (sample_answers "n") w0
           = Raises e w' →
           requests_since
             (itglue_request (strip (typed_api_key (sample_answers "n")))) w0 w' ∧
           sets w' = sets w0).
Proof.
  apply (cancelled_run_only_reads_itglue directory_network (λ l, l) remove_dups
           3 (sample_answers "n") w0).
  vm_compute. discriminate.
Defined.

(** X4, on a service that answers 503 twice. *)
Lemma safe_request_retries_until_first_success_sample :
  ∃ w' evs,
    safe_request recovering_network "GET" (OrgListUrl 1) [] None 5 w0
    = Returns (Some (ok_response (VDict ∅))) w' ∧
    advanced w0 3 evs w' ∧
    without_prints evs
    = flat_map (λ i, [EvRequest (request_of "GET" (OrgListUrl 1) [] None);
                      EvSleep (2 ^ i)]) (range 2)
      ++ [EvRequest (request_of "GET" (OrgListUrl 1) [] None)] ∧
    sleeps evs = (λ i, 2 ^ i) <$> range 2.
Proof.
  apply (safe_request_retries_until_first_success recovering_network "GET"
           (OrgListUrl 1) [] None 5 2 w0 (ok_response (VDict ∅))).
  - lia.
  - intros [|[|i]] Hi; [vm_compute; discriminate..|lia].
  - reflexivity.
  - reflexivity.
Defined.

(** X5, on the licensed Microsoft-only contact. *)
Lemma classifiers_return_whether_an_item_matches_sample :
  (∃ b, contact_syncs_with microsoft_only_doc "Autotask" = Ok b ∧
        (b = true ↔
         ∃ item, item ∈ [microsoft_rel; license_tag_item] ∧
                 attr item "adapter-type-name" = VStr "Autotask" ∧
                 truthy (attr item "sync") = true)) ∧
  (∃ b, contact_has_ms_license microsoft_only_doc = Ok b ∧
        (b = true ↔
         ∃ item, item ∈ [microsoft_rel; license_tag_item] ∧
                 member item "type" = VStr "tags" ∧
                 attr item "resource-type-name" = VStr "Microsoft Licenses")).
Proof.
  apply (classifiers_return_whether_an_item_matches microsoft_only_doc
           [microsoft_rel; license_tag_item] "Autotask").
  - reflexivity.
  - repeat constructor.
Defined.

(** X6, on a list with an entry that is no object, after and before the
    match. *)
Lemma contact_syncs_with_stops_at_first_match_sample :
  contact_syncs_with (contact_doc [microsoft_rel; VStr "junk"] "a@x.com")
    "Microsoft" = Ok true ∧
  contact_syncs_with (contact_doc [license_tag_item; VStr "junk"; microsoft_rel]
                        "a@x.com") "Microsoft" = Raise AttributeError.
Proof.
  split.
  - refine (proj1 (contact_syncs_with_stops_at_first_match
                     (contact_doc [microsoft_rel; VStr "junk"] "a@x.com")
                     [] [VStr "junk"] microsoft_rel "Microsoft" _ _) _ _).
    + reflexivity.
    + constructor.
    + reflexivity.
    + split; reflexivity.
  - refine (proj2 (contact_syncs_with_stops_at_first_match
                     (contact_doc [license_tag_item; VStr "junk"; microsoft_rel]
                        "a@x.com")
                     [license_tag_item] [microsoft_rel] (VStr "junk") "Microsoft"
                     _ _) _ _).
    + reflexivity.
    + repeat constructor.
    + discriminate.
    + intros x Hx [Hname _]. apply list_elem_of_singleton in Hx. subst x.
      vm_compute in Hname. discriminate Hname.
Defined.

(** X7, on the sample of completed fetches. *)
Lemma licensed_and_unlicensed_split_sample :
  ∃ with_license without_license w1 w2,
    filter_completed completed_sample true [] w0 = Returns with_license w1 ∧
    filter_completed completed_sample false [] w0 = Returns without_license w2 ∧
    (∀ c, c ∈ with_license → c ∉ without_license) ∧
    (∀ contact_id contact_data,
       (contact_id, contact_data) ∈ with_license ∨
       (contact_id, contact_data) ∈ without_license ↔
       ∃ resp items,
         (contact_id, resp) ∈ completed_sample ∧
         not_resp_or_not_200 resp = false ∧
         resp_json resp = Ok contact_data ∧
         included_items contact_data items ∧
         (∃ item, item ∈ items ∧ relationship_syncs "Microsoft" item) ∧
         ¬ (∃ item, item ∈ items ∧ relationship_syncs "Autotask" item)).
Proof.
  eexists _, _, _, _.
  eassert (H1 : filter_completed completed_sample true [] w0 = Returns _ _)
    by (vm_compute; reflexivity).
  eassert (H2 : filter_completed completed_sample false [] w0 = Returns _ _)
    by (vm_compute; reflexivity).
  split; [exact H1|]. split; [exact H2|].
  exact (licensed_and_unlicensed_split_the_microsoft_only_contacts
           completed_sample w0 _ _ _ _ H1 H2).
Defined.

(** X8, on the sample directory. *)
Lemma microsoft_only_contacts_come_from_the_listing_sample :
  ∃ ms_only_contacts w',
    get_microsoft_only_contacts directory_network (λ l, l) 3 "key" (VStr "1")
      true w0 = Returns ms_only_contacts w' ∧
    ∃ contact_ids w1,
      get_all_contact_ids directory_network 3 "key" (VStr "1") w0
      = Returns contact_ids w1 ∧
      ms_only_contacts.*1 `sublist_of` contact_ids ∧
      (clock w1 ≤ clock w' ≤ clock w1 + 5 * length contact_ids)%nat ∧
      sets w' = sets w0.
Proof.
  eexists _, _.
  eassert (H : get_microsoft_only_contacts directory_network (λ l, l) 3 "key"
                 (VStr "1") true w0 = Returns _ _)
    by (vm_compute; reflexivity).
  split; [exact H|].
  exact (microsoft_only_contacts_come_from_the_listing directory_network
           (λ l, l) 3 "key" (VStr "1") true w0 _ _ H).
Defined.

(** X9, on a contact with phones in the three places. *)
Lemma extracted_phones_are_the_trimmed_sources_sample :
  NoDup ["555-1"; "555-2"; "555-3"] ∧
  ∀ p, p ∈ ["555-1"; "555-2"; "555-3"] ↔ p ∈ trimmed_phones phones_doc.
Proof.
  apply (extracted_phones_are_the_trimmed_sources remove_dups phones_doc
           [""; "me@x.com"] _ remove_dups_lists_each_once).
  vm_compute. reflexivity.
Defined.

(** X10, on the same contact. *)
Lemma extractor_reads_strings_only_sample :
  Forall (λ v, truthy v = false ∨ ∃ s, v = VStr s) (attribute_values phones_doc).
Proof.
  apply Forall_forall.
  apply (extractor_reads_strings_only remove_dups phones_doc
           [""; "me@x.com"] ["555-1"; "555-2"; "555-3"]).
  vm_compute. reflexivity.
Defined.

(** X11, on the same contact, whose flat email is made of three blanks. *)
Lemma blank_email_is_extracted_as_empty_string_sample :
  "" ∈ [""; "me@x.com"].
Proof.
  apply (blank_email_is_extracted_as_empty_string remove_dups phones_doc
           [""; "me@x.com"] ["555-1"; "555-2"; "555-3"] "emailAddress" "   "
           remove_dups_lists_each_once).
  - vm_compute. reflexivity.
  - apply list_elem_of_here.
  - reflexivity.
  - discriminate.
  - reflexivity.
Defined.

(** X12, on the company 500 of the sample Autotask. *)
Lemma existing_emails_are_trimmed_and_lower_case_sample :
  ∃ existing_emails w',
    get_existing_autotask_contacts sample_network 2 at_base_url [] (VStr "500") w0
    = Returns existing_emails w' ∧
    sets w0 !! existing_emails = None ∧
    (∀ s, s ≠ existing_emails → set_at w' s = set_at w0 s) ∧
    ∀ email, email ∈ set_at w' existing_emails → normal_email email.
Proof.
  eexists _, _.
  eassert (H : get_existing_autotask_contacts sample_network 2 at_base_url []
                 (VStr "500") w0 = Returns _ _)
    by (vm_compute; reflexivity).
  split; [exact H|].
  exact (existing_emails_are_trimmed_and_lower_case sample_network 2 at_base_url
           [] (VStr "500") w0 _ _ H).
Defined.

Lemma known_page_served :
  contact_pages_served sample_network [] 0
    (CompanyContactsUrl at_base_url (VStr "500")) [[known_item]] 1 (Href VNone).
Proof.
  eapply (contacts_served_page sample_network [] 0 _ _ 1 _ [known_item] VNone);
    [reflexivity|reflexivity|reflexivity|reflexivity| | |].
  - eexists _, _. split; [reflexivity|]. split; [reflexivity|].
    split; reflexivity.
  - repeat constructor. eexists. vm_compute. reflexivity.
  - apply contacts_served_none.
Defined.

(** X13, on the same company: one page, one known contact. *)
Lemma existing_contacts_are_the_emails_of_the_pages_sample :
  ∃ existing_emails w',
    get_existing_autotask_contacts sample_network 2 at_base_url [] (VStr "500") w0
    = Returns existing_emails w' ∧
    sets w0 !! existing_emails = None ∧
    set_at w' existing_emails
    = list_to_set (omap known_email (concat [[known_item]])) ∧
    clock w' = 1%nat.
Proof.
  apply (existing_contacts_are_the_emails_of_the_pages sample_network at_base_url
           [] (VStr "500") [[known_item]] w0 1 1 (Href VNone)).
  - exact known_page_served.
  - by apply walk_complete.
  - cbn. lia.
Defined.

(** X14, on the creation of Jane and her second submission. *)
Lemma created_contact_is_skipped_when_submitted_again_sample :
  ∃ w',
    create_contact_in_autotask sample_network at_base_url [] jane.1 jane.2 0 w0
    = Returns true w' ∧
    ∃ email,
      candidate_email jane.2 = Ok email ∧
      sets w' = <[0%nat := set_at w0 0 ∪ {[email]}]> (sets w0) ∧
      ∀ (network2 : nat → request → outcome) (base_url2 : string)
        (auth_headers2 : list (string * string)) (company_id2 again : value)
        (w2 : world),
        candidate_email again = Ok email →
        set_at w' 0 ⊆ set_at w2 0 →
        create_contact_in_autotask network2 base_url2 auth_headers2 company_id2
          again 0 w2
        = Returns false
            (logged w2 "[SKIP] Contact already exists in Autotask" [VStr email]).
Proof.
  eexists.
  eassert (H : create_contact_in_autotask sample_network at_base_url [] jane.1
                 jane.2 0 w0 = Returns true _)
    by (vm_compute; reflexivity).
  split; [exact H|].
  exact (created_contact_is_skipped_when_submitted_again sample_network
           at_base_url [] jane.1 jane.2 0%nat w0 _ H).
Defined.

(** X15, on the same creation. *)
Lemma create_posts_the_record_of_its_candidate_sample :
  ∃ w',
    final (create_contact_in_autotask sample_network at_base_url [] jane.1
             jane.2 0 w0) = Some w' ∧
    requests_since
      (λ req, ∃ email,
         candidate_email jane.2 = Ok email ∧
         req = request_of "POST" (CompanyContactsUrl at_base_url jane.1) []
                 (Some (autotask_contact
                          (py_or (member jane.2 "firstName") (VStr ""))
                          (py_or (member jane.2 "lastName") (VStr ""))
                          email
                          (py_or (member jane.2 "phone") (VStr "")))))
      w0 w'.
Proof.
  eexists.
  eassert (H : final (create_contact_in_autotask sample_network at_base_url []
                        jane.1 jane.2 0 w0) = Some _)
    by (vm_compute; reflexivity).
  split; [exact H|].
  exact (create_posts_the_record_of_its_candidate sample_network at_base_url []
           jane.1 jane.2 0%nat w0 _ H).
Defined.

(** X16, on the sample listing: one page of two organizations, then an
    empty page. *)
Lemma fetch_all_orgs_concatenates_pages_sample :
  ∃ w', fetch_all_orgs sample_network 2 (itglue_headers "key") 1 [] w0
        = Returns (concat [[org_entry_doc "1" "Acme"; org_entry_doc "2" "Beta"]]) w' ∧
        clock w' = 2%nat ∧
        2 = 1 + Z.of_nat (length [[org_entry_doc "1" "Acme"; org_entry_doc "2" "Beta"]]).
Proof.
  apply (fetch_all_orgs_concatenates_pages sample_network (itglue_headers "key")
           [[org_entry_doc "1" "Acme"; org_entry_doc "2" "Beta"]] w0 1 2 2).
  - eapply orgs_served_page;
      [reflexivity|reflexivity|reflexivity|reflexivity|discriminate|].
    apply orgs_served_none.
  - eapply listing_empty; reflexivity.
  - cbn. lia.
Defined.

(** X17, on a listing whose second entry has no name. *)
Lemma scan_aborts_on_an_entry_without_id_or_name_sample :
  ∃ w',
    check_orgs sample_network
      ([org_entry_doc "1" "Acme"] ++ nameless_org :: [org_entry_doc "2" "Beta"])
      (itglue_headers "key") [] w0
    = Raises KeyError w' ∧
    sets w' = sets w0.
Proof.
  apply (scan_aborts_on_an_entry_without_id_or_name sample_network
           (itglue_headers "key") [org_entry_doc "1" "Acme"]
           [org_entry_doc "2" "Beta"] nameless_org KeyError [] w0).
  - repeat constructor.
  - repeat constructor. intros _.
    exists (VDict {[ "included" := VList [live_autotask] ]}), [live_autotask].
    split; [reflexivity|]. split; [reflexivity|]. repeat constructor.
  - reflexivity.
Defined.

(** X18, on the sample listing. *)
Lemma syncing_orgs_follow_the_listing_sample :
  ∃ all_orgs w1 autotask_orgs w',
    fetch_all_orgs sample_network 3 (itglue_headers "key") 1 []
      (logged w0 "Fetching organizations..." []) = Returns all_orgs w1 ∧
    get_autotask_syncing_orgs sample_network 3 "key" w0
    = Returns autotask_orgs w' ∧
    (λ t : value * value * value, t.1.1) <$> autotask_orgs
      `sublist_of` (org_id_of <$> all_orgs) ∧
    sets w' = sets w0.
Proof.
  eexists _, _, _, _.
  eassert (Hlist : fetch_all_orgs sample_network 3 (itglue_headers "key") 1 []
                     (logged w0 "Fetching organizations..." []) = Returns _ _)
    by (vm_compute; reflexivity).
  eassert (H : get_autotask_syncing_orgs sample_network 3 "key" w0 = Returns _ _)
    by (vm_compute; reflexivity).
  split; [exact Hlist|]. split; [exact H|].
  exact (syncing_orgs_follow_the_listing sample_network 3 "key" w0 _ _ _ _
           Hlist H).
Defined.

(** X19, on a directory whose every page links to a next one. *)
Lemma contact_walk_does_not_end_while_pages_link_on_sample :
  get_all_contact_ids endless_network 1000 "key" (VStr "1") w0 = OutOfFuel.
Proof.
  apply (contact_walk_does_not_end_while_pages_link_on endless_network "key"
           (VStr "1") w0).
  intros n u.
  exists (ok_response (contact_page ["11"] (VStr "more"))),
    (contact_page ["11"] (VStr "more")), [VStr "11"], (VStr "more").
  split; [reflexivity|]. split; [reflexivity|]. split; [reflexivity|].
  split; [|reflexivity].
  eexists _, _, _. split; [reflexivity|]. split; [reflexivity|].
  split; [repeat constructor|]. split; reflexivity.
Defined.

(** X20, on two organizations that are both excluded. *)
Lemma excluded_organizations_are_not_visited_sample :
  ∃ w',
    collect_contacts sample_network (λ l, l) remove_dups 3 "key" true ["1"; "2"]
      [(VStr "1", VStr "Acme", VList [live_autotask]);
       (VStr "2", VStr "Beta", VList [stale_autotask])] [] w0
    = Returns [] w' ∧
    clock w' = clock w0 ∧ sets w' = sets w0.
Proof.
  apply (excluded_organizations_are_not_visited sample_network (λ l, l)
           remove_dups 3 "key" true ["1"; "2"]).
  constructor; [exists "1"; split; [reflexivity|repeat constructor]|].
  constructor; [exists "2"; split; [reflexivity|repeat constructor]|].
  constructor.
Defined.

(** X21, on the sample directory. *)
Lemma collected_candidates_are_complete_sample :
  ∃ collected w',
    collect_contacts directory_network (λ l, l) remove_dups 3 "key" true []
      [(VStr "1", VStr "Acme", VList [live_autotask])] [] w0
    = Returns collected w' ∧
    Forall built_candidate collected ∧
    (Forall has_names [] → Forall has_names collected).
Proof.
  eexists _, _.
  eassert (H : collect_contacts directory_network (λ l, l) remove_dups 3 "key"
                 true [] [(VStr "1", VStr "Acme", VList [live_autotask])] [] w0
               = Returns _ _)
    by (vm_compute; reflexivity).
  split; [exact H|].
  exact (collected_candidates_are_complete directory_network (λ l, l)
           remove_dups 3 "key" true [] _ [] w0 _ _ H (Forall_nil_2 _)).
Defined.

(** X22, on four candidates of one company: one creation, three skips. *)
Lemma creation_loop_counts_every_candidate_once_sample :
  ∃ cache' skipped' w',
    create_contacts sample_network 2 at_base_url []
      [jane; jane_again; known; nameless] ∅ 0 [] w0
    = Returns (cache', 1, skipped') w' ∧
    ∃ names,
      skipped' = [] ++ names ∧
      names `sublist_of` (skipped_names <$> [jane; jane_again; known; nameless]) ∧
      (1 - 0) + Z.of_nat (length names)
      = Z.of_nat (length [jane; jane_again; known; nameless]) ∧
      0 ≤ 1 - 0 ∧
      (∅ : gmap key nat) ⊆ cache' ∧
      Forall (company_cached cache') [jane; jane_again; known; nameless].
Proof.
  eexists _, _, _.
  eassert (H : create_contacts sample_network 2 at_base_url []
                 [jane; jane_again; known; nameless] ∅ 0 [] w0
               = Returns (_, 1, _) _)
    by (vm_compute; reflexivity).
  split; [exact H|].
  exact (creation_loop_counts_every_candidate_once sample_network 2 at_base_url
           [] [jane; jane_again; known; nameless] ∅ 0 [] w0 _ _ _ _ H).
Defined.

(** X23, on candidates of a company whose set is in the cache. *)
Lemma cached_companies_are_not_fetched_again_sample :
  ∃ w',
    final (create_contacts sample_network 0 at_base_url [] [jane; known]
             {[ KStr "500" := 0%nat ]} 0 [] w_cached) = Some w' ∧
    requests_since (λ req, req_method req = "POST") w_cached w'.
Proof.
  eexists.
  eassert (H : final (create_contacts sample_network 0 at_base_url []
                        [jane; known] {[ KStr "500" := 0%nat ]} 0 [] w_cached)
               = Some _)
    by (vm_compute; reflexivity).
  split; [exact H|].
  refine (cached_companies_are_not_fetched_again sample_network 0 at_base_url []
            [jane; known] {[ KStr "500" := 0%nat ]} 0 [] w_cached _ _ H).
  repeat constructor; (exists (KStr "500"); split; [reflexivity|by eexists]).
Defined.

(** X24, on the contact the sample Autotask knows. *)
Lemma contact_known_to_autotask_is_not_created_sample :
  ∃ existing_emails w',
    create_contacts sample_network 2 at_base_url [] [known] ∅ 0 [] w0
    = Returns ({[ KStr "500" := existing_emails ]}, 0,
               [] ++ [skipped_names known]) w' ∧
    clock w' = 1%nat.
Proof.
  apply (contact_known_to_autotask_is_not_created sample_network 2 at_base_url
           [] known.1 known.2 (KStr "500") "known@x.com" [[known_item]]
           known_item 0 [] w0 1 1 (Href VNone)).
  - reflexivity.
  - exact known_page_served.
  - by apply walk_complete.
  - cbn. lia.
  - reflexivity.
  - apply list_elem_of_here.
  - reflexivity.
  - eexists _, _. split; reflexivity.
Defined.

(** X25, on a service that answers 503 once and then not at all. *)
Lemma retry_line_reports_the_last_status_received_sample :
  ∃ resp w' before after,
    safe_request fading_network "GET" (OrgListUrl 1) [] None 5 w0
    = Returns resp w' ∧
    trace w'
    = trace w0 ++ before
      ++ [EvRequest (request_of "GET" (OrgListUrl 1) [] None);
          EvPrint "[EXCEPTION]" [];
          EvPrint "[RETRY]" [VInt (status_code (status_response 503)); VInt 2];
          EvSleep 2]
      ++ after.
Proof.
  apply (retry_line_reports_the_last_status_received fading_network "GET"
           (OrgListUrl 1) [] None 5 w0 (status_response 503)).
  - lia.
  - reflexivity.
  - vm_compute. discriminate.
  - reflexivity.
Defined.

(** X26, on two answers. *)
Lemma exclusion_answer_is_split_at_commas_and_trimmed_sample :
  exclude_ids_of " , ," = [] ∧
  exclude_ids_of (join_commas ["12"; "7"]) = ["12"; "7"].
Proof.
  split.
  - apply (proj1 (proj2 exclusion_answer_is_split_at_commas_and_trimmed) " , ,").
    repeat constructor.
  - apply (proj2 (proj2 exclusion_answer_is_split_at_commas_and_trimmed)
             ["12"; "7"]).
    repeat constructor; discriminate.
Defined.
